(** * Chef G-Mini: the live session orchestrator of [ChefApp]

    A shallow embedding of the React component [ChefApp]
    (src/unnamed/part_009, the variant with diagnostics, proactive vision
    timers and the [keepCamera] teardown) and proofs about its timer engine,
    tool dispatcher, playback scheduler, vision sampler and session
    lifecycle, followed by the components around it: the timer card, the
    card of the active recipe, the diagnostics, the key hook with the page
    that mounts the component, and the camera controls.

    Conventions of the embedding.
    - A JavaScript [number] holding a count of seconds or a clock reading is
      a [Z]; audio times are counted in sample frames of the output context,
      so that clock readings and buffer durations are integers.
    - React state lives in the record [Ui]; a call [setX (prev => f prev)]
      is the update [f] applied to the field.  Mutable [useRef] cells live in
      the record [Refs]; they change only where the source assigns
      [ref.current].  The effects that mirror state into refs run in
      [render], after the handler of an event has returned.
    - Browser objects (audio contexts, buffer source nodes, media streams,
      streaming channels, timeouts) live in the record [Browser], indexed by
      their allocation order.
    - A JavaScript string is the [string] of its characters.  Where the
      case of a label matters, the label is taken to consist of ASCII
      characters, on which [toLowerCase] changes the letters [A] to [Z]
      only. *)

From Stdlib Require Import ZArith List Bool Ascii Lia.
From stdpp Require Import base gmap sets list strings pretty.
Import ListNotations.
Open Scope Z_scope.

(** ** Timer engine *)

Module TimerEngine.

(** [status: 'running' | 'paused' | 'finished'] *)
Inductive TimerStatus := running | paused | finished.

#[global] Instance TimerStatus_eq_dec : EqDecision TimerStatus.
Proof. solve_decision. Defined.

(** [interface Timer]; the field [id] is called [timerId] here. *)
Record Timer := mkTimer {
  timerId : string;
  label : string;
  durationOriginal : Z;
  durationRemaining : Z;
  status : TimerStatus
}.

#[global] Instance Timer_eq_dec : EqDecision Timer.
Proof. solve_decision. Defined.

Definition with_status (s : TimerStatus) (t : Timer) : Timer :=
  mkTimer (timerId t) (label t) (durationOriginal t) (durationRemaining t) s.

Definition with_remaining (r : Z) (t : Timer) : Timer :=
  mkTimer (timerId t) (label t) (durationOriginal t) r (status t).

Definition is_running (t : Timer) : bool := bool_decide (status t = running).
Definition is_finished (t : Timer) : bool := bool_decide (status t = finished).

(** The body of [prevTimers.map(timer => ...)] in the tick effect.  The
    second component lists the completion events the callback raises (the
    toast and the [TIMER ALERT] sent to the session), as the timers they
    are raised for. *)
Definition tickTimer (timer : Timer) : Timer * list Timer :=
  if negb (is_running timer) then (timer, [])
  else
    let nextRemaining := durationRemaining timer - 1 in
    if (nextRemaining <=? 0) && (0 <? durationRemaining timer)
    then (with_status finished (with_remaining 0 timer), [timer])
    else (with_remaining (Z.max 0 nextRemaining) timer, []).

(** The updater passed to [setTimers] by the one-second interval. *)
Definition tick (prevTimers : list Timer) : list Timer * list Timer :=
  let hasRunning := existsb is_running prevTimers in
  if negb hasRunning then (prevTimers, [])
  else (map (fun t => fst (tickTimer t)) prevTimers,
        concat (map (fun t => snd (tickTimer t)) prevTimers)).

(** The object literal built by [addTimer]; [newId] is the value of
    [Math.random().toString(36).substring(7)]. *)
Definition newTimer (newId label : string) (durationSeconds : Z) : Timer :=
  mkTimer newId label durationSeconds durationSeconds running.

(** [setTimers(prev => [...prev, newTimer])] *)
Definition appendTimer (t : Timer) (prev : list Timer) : list Timer :=
  prev ++ [t].

(** [removeTimer]: [prev.filter(t => t.id !== id)] *)
Definition removeTimer (id : string) (prev : list Timer) : list Timer :=
  filter (fun t => timerId t ≠ id) prev.

(** [toggleTimer] *)
Definition toggleTimer (id : string) (pause : bool) (prev : list Timer)
  : list Timer :=
  map (fun t => if bool_decide (timerId t = id)
                then with_status (if pause then paused else running) t
                else t) prev.

(** [resetTimer] *)
Definition resetTimer (id : string) (prev : list Timer) : list Timer :=
  map (fun t => if bool_decide (timerId t = id)
                then with_remaining (durationOriginal t)
                       (with_status running t)
                else t) prev.

(** The operations a timer list goes through: the periodic tick, the
    three buttons of a timer card, and creation. *)
Inductive TimerOp :=
| OpTick
| OpPause (id : string)
| OpResume (id : string)
| OpReset (id : string)
| OpCreate (newId label : string) (durationSeconds : Z).

Definition applyOp (op : TimerOp) (ts : list Timer) : list Timer :=
  match op with
  | OpTick => fst (tick ts)
  | OpPause id => toggleTimer id true ts
  | OpResume id => toggleTimer id false ts
  | OpReset id => resetTimer id ts
  | OpCreate newId l d => appendTimer (newTimer newId l d) ts
  end.

Definition applyOps (ops : list TimerOp) (ts : list Timer) : list Timer :=
  fold_left (fun acc op => applyOp op acc) ops ts.

(** The timer at position [i] enters [finished] between two lists. *)
Definition finishes_at (i : nat) (before after : list Timer) : bool :=
  match before !! i, after !! i with
  | Some b, Some a => negb (is_finished b) && is_finished a
  | _, _ => false
  end.

(** [op] is a reset that hits the timer at position [i]. *)
Definition resets_at (i : nat) (op : TimerOp) (ts : list Timer) : bool :=
  match op, ts !! i with
  | OpReset id, Some t => bool_decide (timerId t = id)
  | _, _ => false
  end.

(** How often the timer at position [i] enters [finished] along [ops]. *)
Fixpoint finish_count (i : nat) (ops : list TimerOp) (ts : list Timer) : nat :=
  match ops with
  | [] => 0
  | op :: rest =>
      (if finishes_at i ts (applyOp op ts) then 1 else 0)
      + finish_count i rest (applyOp op ts)
  end%nat.

(** How often the timer at position [i] is reset along [ops]. *)
Fixpoint reset_count (i : nat) (ops : list TimerOp) (ts : list Timer) : nat :=
  match ops with
  | [] => 0
  | op :: rest =>
      (if resets_at i op ts then 1 else 0)
      + reset_count i rest (applyOp op ts)
  end%nat.

(** How many more times the timer at position [i] can finish before it is
    reset: none once its remaining time is not positive. *)
Definition potential (i : nat) (ts : list Timer) : nat :=
  match ts !! i with
  | Some t => if 0 <? durationRemaining t then 1 else 0
  | None => 1
  end.

(** The completion events the next tick raises for the timer at position
    [i]. *)
Definition completions_at (i : nat) (ts : list Timer) : list Timer :=
  match ts !! i with
  | Some t => snd (tickTimer t)
  | None => []
  end.

(** [n] ticks in a row. *)
Definition ticks (n : nat) (ts : list Timer) : list Timer :=
  Nat.iter n (fun acc => fst (tick acc)) ts.

End TimerEngine.

(** ** Strings *)

Module Js.

(** A character of the ASCII range. *)
Definition isAsciiChar (c : ascii) : bool := (nat_of_ascii c <? 128)%nat.

(** A string of ASCII characters only. *)
Fixpoint isAscii (s : string) : bool :=
  match s with
  | EmptyString => true
  | String c rest => isAsciiChar c && isAscii rest
  end.

(** What [String.prototype.toLowerCase] does to a character of the ASCII
    range: a capital letter becomes its small letter, every other character
    stays.  The platform function also lowers letters outside ASCII, which
    this definition leaves as they are: it is the platform function on the
    strings that satisfy [isAscii], and what is stated below about labels is
    stated for such labels. *)
Definition lower_ascii (c : ascii) : ascii :=
  let n := nat_of_ascii c in
  if ((65 <=? n) && (n <=? 90))%nat then ascii_of_nat (n + 32) else c.

(** [s.toLowerCase()] for a string [s] of ASCII characters. *)
Fixpoint toLowerCase (s : string) : string :=
  match s with
  | EmptyString => EmptyString
  | String c rest => String (lower_ascii c) (toLowerCase rest)
  end.

(** [s.includes(sub)]: [sub] occurs in [s] as a contiguous substring. *)
Fixpoint includes (s sub : string) : bool :=
  if String.prefix sub s then true
  else match s with
       | EmptyString => false
       | String _ rest => includes rest sub
       end.

(** [arr.slice(-n)]: the last [n] elements. *)
Definition slice_last {A} (n : nat) (l : list A) : list A :=
  drop (length l - n) l.

(** A JavaScript string in a condition is true when it is not empty. *)
Definition truthy (s : string) : bool :=
  match s with EmptyString => false | _ => true end.

End Js.

(** ** Label matching, in the words of the specification *)

Module Caseless.

(** One of the capital letters [A] to [Z]. *)
Definition isCapital (c : ascii) : bool :=
  ((65 <=? nat_of_ascii c) && (nat_of_ascii c <=? 90))%nat.

(** The same character, or a capital letter and its small letter, which
    is 32 code points further on, either way round. *)
Definition sameLetter (a b : ascii) : Prop :=
  a = b \/
  (isCapital a = true /\ nat_of_ascii b = (nat_of_ascii a + 32)%nat) \/
  (isCapital b = true /\ nat_of_ascii a = (nat_of_ascii b + 32)%nat).

(** Two texts that differ at most in the case of their letters. *)
Inductive sameText : string -> string -> Prop :=
| sameText_empty : sameText EmptyString EmptyString
| sameText_letter (a b : ascii) (s t : string) :
    sameLetter a b -> sameText s t -> sameText (String a s) (String b t).

(** [sub] occurs in [s] as a run of consecutive characters. *)
Definition occursIn (sub s : string) : Prop :=
  exists pre post : string, s = pre +:+ sub +:+ post.

(** A case-insensitive substring match in either direction: some run of
    [a] is [b] up to case, or some run of [b] is [a] up to case. *)
Definition overlaps (a b : string) : Prop :=
  (exists m : string, occursIn m a /\ sameText m b) \/
  (exists m : string, occursIn m b /\ sameText m a).

(** [k] is [l] written in small letters: the same text up to case, with
    no capital letter in it. *)
Definition smallForm (l k : string) : Prop :=
  sameText l k /\
  forall c : ascii, In c (String.list_ascii_of_string k) -> isCapital c = false.

End Caseless.

(** ** Data exchanged with the remote engine and the analysis service *)

Module Wire.
Import TimerEngine.

(** [interface Recipe], the fields the orchestrator reads. *)
Record Recipe := mkRecipe {
  title : string;
  ingredients : option (list string);
  instructions : option (list string)
}.

(** [interface VisionLog]; [time] is the wall clock reading in
    milliseconds that [toLocaleTimeString] formats. *)
Record VisionLog := mkVisionLog {
  time : Z;
  text : string
}.

(** The keys of [fc.args] that the dispatcher destructures. *)
Record Args := mkArgs {
  argLabel : string;
  argDurationSeconds : Z;
  argText : string
}.

(** One entry of [msg.toolCall.functionCalls]. *)
Record FunctionCall := mkFunctionCall {
  callId : string;
  callName : string;
  callArgs : Args
}.

(** The object assigned to [result] in the dispatch loop. *)
Inductive ToolResult :=
| ResultText (result : string)
| ResultTimers (timers : list Timer)
| ResultRecipe (rtitle : string) (ringredients rinstructions : option (list string))
    (currentStep : Z) (currentStepText : string) (totalSteps : nat).

(** One entry of [functionResponses]. *)
Record FunctionResponse := mkFunctionResponse {
  respId : string;
  respName : string;
  response : ToolResult
}.

(** What the client writes to a streaming channel, apart from media
    chunks. *)
Inductive Outbound :=
| ToolResponse (functionResponses : list FunctionResponse)
| TimerAlert (timerLabel : string)
| RecipeUpdate (recipeTitle : string).

(** [LiveServerMessage], the parts [onmessage] looks at.  [audioData] is
    the duration of the buffer that [decodeAudioData] returns for the inline
    data of the first part. *)
Record LiveServerMessage := mkMessage {
  turnComplete : bool;
  interrupted : bool;
  inputTranscription : option string;
  outputTranscription : option string;
  audioData : option Z;
  toolCall : option (list FunctionCall)
}.

(** [data.timerSuggestion] of the still-image analysis. *)
Record TimerSuggestion := mkSuggestion {
  sugLabel : string;
  sugDurationSeconds : Z;
  sugReason : option string
}.

(** The [data] of a successful still-image analysis. *)
Record VisionData := mkVisionData {
  description : option string;
  timerSuggestion : option TimerSuggestion
}.

(** The toasts the component raises. *)
Inductive Toast :=
| ToastTimerComplete (timerLabel : string)
| ToastTimerCreated (timerLabel : string) (durationSeconds : Z)
    (reason : option string)
| ToastConnected
| ToastAiDisconnected
| ToastConnectionError
| ToastConnectionFailed.

(** The texts given to [setError]. *)
Inductive ErrorText :=
| ErrNoApiKey
| ErrSessionClosed
| ErrConnectionError
| ErrConnectionFailed
| ErrFailedToConnect.

End Wire.

(** ** The component state *)

Module App.
Import TimerEngine Wire.

(** The [useState] cells of [ChefApp] that the orchestrator logic reads or
    writes.  Display state (volume, the camera list, the diagnostics panel
    with its activity log) is left out. *)
Record Ui := mkUi {
  isConnected : bool;
  isConnecting : bool;
  isCameraActive : bool;
  isSpeaking : bool;
  isListening : bool;
  isProcessing : bool;
  timers : list Timer;
  logs : list VisionLog;
  error : option ErrorText;
  currentStep : nat;
  activeRecipe : option Recipe
}.

(** An [AudioContext]: its clock, in sample frames, and whether [close]
    was called. *)
Record AudioContext := mkAudioContext {
  currentTime : Z;
  closed : bool
}.

(** An [AudioBufferSourceNode] after [start(when)]: the context it plays
    on, the time it was started for, the duration of its buffer, whether
    [stop()] was called and whether its [ended] event was dispatched.  The
    source assigns [onended] to every node it starts and never clears it. *)
Record BufferSource := mkBufferSource {
  nodeCtx : nat;
  startedAt : Z;
  bufferDuration : Z;
  stopped : bool;
  endedDispatched : bool
}.

(** A [MediaStream] returned by [getUserMedia]. *)
Record MediaStream := mkMediaStream {
  hasVideo : bool;
  tracksStopped : bool
}.

(** A streaming channel opened by [ai.live.connect]: the [outputCtx] its
    callbacks close over and what was written to it. *)
Record Channel := mkChannel {
  outputCtx : nat;
  sent : list Outbound
}.

(** A call of [connectToGemini] suspended at [await getUserMedia], with
    the two contexts it created. *)
Record PendingConnect := mkPendingConnect {
  pcInputCtx : nat;
  pcOutputCtx : nat;
  pcResumed : bool
}.

(** The [useRef] cells.  Objects are referred to by their index in the
    browser heap.  [videoRef] is [None] while no video element is mounted,
    otherwise it holds the element's [srcObject].  [visionEffectDep] is the
    value of [isCameraActive] the vision effect last ran with. *)
Record Refs := mkRefs {
  timersRef : list Timer;
  activeRecipeRef : option Recipe;
  currentStepRef : nat;
  nextStartTimeRef : Z;
  audioContextRef : option nat;
  inputContextRef : option nat;
  sourcesRef : gset nat;
  sessionPromiseRef : option nat;
  mediaStreamRef : option nat;
  videoRef : option (option nat);
  videoIntervalRef : option nat;
  visionIntervalRef : option nat;
  recentTimerLabelsRef : gset string;
  visionEffectDep : bool
}.

(** The browser: the wall clock in milliseconds, the values
    [Math.random] will yield as timer ids, the allocated objects, the toasts
    shown, the pending [setTimeout] callbacks of the vision sampler (due time
    and label key), the live [setInterval] handles and the next handle. *)
Record Browser := mkBrowser {
  nowMs : Z;
  entropy : list string;
  contexts : list AudioContext;
  nodes : list BufferSource;
  streams : list MediaStream;
  channels : list Channel;
  toasts : list Toast;
  timeouts : list (Z * string);
  intervals : gset nat;
  nextHandle : nat;
  pendingMedia : list PendingConnect
}.

(** The component instance: the [apiKey] prop, state, refs and browser. *)
Record State := mkState {
  apiKey : option string;
  ui : Ui;
  refs : Refs;
  browser : Browser
}.

(** *** Field updates *)

Definition set_isConnected (x : bool) (u : Ui) : Ui :=
  mkUi x (isConnecting u) (isCameraActive u) (isSpeaking u) (isListening u)
    (isProcessing u) (timers u) (logs u) (error u) (currentStep u)
    (activeRecipe u).

Definition set_isConnecting (x : bool) (u : Ui) : Ui :=
  mkUi (isConnected u) x (isCameraActive u) (isSpeaking u) (isListening u)
    (isProcessing u) (timers u) (logs u) (error u) (currentStep u)
    (activeRecipe u).

Definition set_isCameraActive (x : bool) (u : Ui) : Ui :=
  mkUi (isConnected u) (isConnecting u) x (isSpeaking u) (isListening u)
    (isProcessing u) (timers u) (logs u) (error u) (currentStep u)
    (activeRecipe u).

Definition set_isSpeaking (x : bool) (u : Ui) : Ui :=
  mkUi (isConnected u) (isConnecting u) (isCameraActive u) x (isListening u)
    (isProcessing u) (timers u) (logs u) (error u) (currentStep u)
    (activeRecipe u).

Definition set_isListening (x : bool) (u : Ui) : Ui :=
  mkUi (isConnected u) (isConnecting u) (isCameraActive u) (isSpeaking u) x
    (isProcessing u) (timers u) (logs u) (error u) (currentStep u)
    (activeRecipe u).

Definition set_isProcessing (x : bool) (u : Ui) : Ui :=
  mkUi (isConnected u) (isConnecting u) (isCameraActive u) (isSpeaking u)
    (isListening u) x (timers u) (logs u) (error u) (currentStep u)
    (activeRecipe u).

Definition set_timers (x : list Timer) (u : Ui) : Ui :=
  mkUi (isConnected u) (isConnecting u) (isCameraActive u) (isSpeaking u)
    (isListening u) (isProcessing u) x (logs u) (error u) (currentStep u)
    (activeRecipe u).

Definition set_logs (x : list VisionLog) (u : Ui) : Ui :=
  mkUi (isConnected u) (isConnecting u) (isCameraActive u) (isSpeaking u)
    (isListening u) (isProcessing u) (timers u) x (error u) (currentStep u)
    (activeRecipe u).

Definition set_error (x : option ErrorText) (u : Ui) : Ui :=
  mkUi (isConnected u) (isConnecting u) (isCameraActive u) (isSpeaking u)
    (isListening u) (isProcessing u) (timers u) (logs u) x (currentStep u)
    (activeRecipe u).

Definition set_currentStep (x : nat) (u : Ui) : Ui :=
  mkUi (isConnected u) (isConnecting u) (isCameraActive u) (isSpeaking u)
    (isListening u) (isProcessing u) (timers u) (logs u) (error u) x
    (activeRecipe u).

Definition set_activeRecipe (x : option Recipe) (u : Ui) : Ui :=
  mkUi (isConnected u) (isConnecting u) (isCameraActive u) (isSpeaking u)
    (isListening u) (isProcessing u) (timers u) (logs u) (error u)
    (currentStep u) x.

Definition set_timersRef (x : list Timer) (r : Refs) : Refs :=
  mkRefs x (activeRecipeRef r) (currentStepRef r) (nextStartTimeRef r)
    (audioContextRef r) (inputContextRef r) (sourcesRef r)
    (sessionPromiseRef r) (mediaStreamRef r) (videoRef r) (videoIntervalRef r)
    (visionIntervalRef r) (recentTimerLabelsRef r) (visionEffectDep r).

Definition set_activeRecipeRef (x : option Recipe) (r : Refs) : Refs :=
  mkRefs (timersRef r) x (currentStepRef r) (nextStartTimeRef r)
    (audioContextRef r) (inputContextRef r) (sourcesRef r)
    (sessionPromiseRef r) (mediaStreamRef r) (videoRef r) (videoIntervalRef r)
    (visionIntervalRef r) (recentTimerLabelsRef r) (visionEffectDep r).

Definition set_currentStepRef (x : nat) (r : Refs) : Refs :=
  mkRefs (timersRef r) (activeRecipeRef r) x (nextStartTimeRef r)
    (audioContextRef r) (inputContextRef r) (sourcesRef r)
    (sessionPromiseRef r) (mediaStreamRef r) (videoRef r) (videoIntervalRef r)
    (visionIntervalRef r) (recentTimerLabelsRef r) (visionEffectDep r).

Definition set_nextStartTimeRef (x : Z) (r : Refs) : Refs :=
  mkRefs (timersRef r) (activeRecipeRef r) (currentStepRef r) x
    (audioContextRef r) (inputContextRef r) (sourcesRef r)
    (sessionPromiseRef r) (mediaStreamRef r) (videoRef r) (videoIntervalRef r)
    (visionIntervalRef r) (recentTimerLabelsRef r) (visionEffectDep r).

Definition set_audioContextRef (x : option nat) (r : Refs) : Refs :=
  mkRefs (timersRef r) (activeRecipeRef r) (currentStepRef r)
    (nextStartTimeRef r) x (inputContextRef r) (sourcesRef r)
    (sessionPromiseRef r) (mediaStreamRef r) (videoRef r) (videoIntervalRef r)
    (visionIntervalRef r) (recentTimerLabelsRef r) (visionEffectDep r).

Definition set_inputContextRef (x : option nat) (r : Refs) : Refs :=
  mkRefs (timersRef r) (activeRecipeRef r) (currentStepRef r)
    (nextStartTimeRef r) (audioContextRef r) x (sourcesRef r)
    (sessionPromiseRef r) (mediaStreamRef r) (videoRef r) (videoIntervalRef r)
    (visionIntervalRef r) (recentTimerLabelsRef r) (visionEffectDep r).

Definition set_sourcesRef (x : gset nat) (r : Refs) : Refs :=
  mkRefs (timersRef r) (activeRecipeRef r) (currentStepRef r)
    (nextStartTimeRef r) (audioContextRef r) (inputContextRef r) x
    (sessionPromiseRef r) (mediaStreamRef r) (videoRef r) (videoIntervalRef r)
    (visionIntervalRef r) (recentTimerLabelsRef r) (visionEffectDep r).

Definition set_sessionPromiseRef (x : option nat) (r : Refs) : Refs :=
  mkRefs (timersRef r) (activeRecipeRef r) (currentStepRef r)
    (nextStartTimeRef r) (audioContextRef r) (inputContextRef r)
    (sourcesRef r) x (mediaStreamRef r) (videoRef r) (videoIntervalRef r)
    (visionIntervalRef r) (recentTimerLabelsRef r) (visionEffectDep r).

Definition set_mediaStreamRef (x : option nat) (r : Refs) : Refs :=
  mkRefs (timersRef r) (activeRecipeRef r) (currentStepRef r)
    (nextStartTimeRef r) (audioContextRef r) (inputContextRef r)
    (sourcesRef r) (sessionPromiseRef r) x (videoRef r) (videoIntervalRef r)
    (visionIntervalRef r) (recentTimerLabelsRef r) (visionEffectDep r).

Definition set_videoRef (x : option (option nat)) (r : Refs) : Refs :=
  mkRefs (timersRef r) (activeRecipeRef r) (currentStepRef r)
    (nextStartTimeRef r) (audioContextRef r) (inputContextRef r)
    (sourcesRef r) (sessionPromiseRef r) (mediaStreamRef r) x
    (videoIntervalRef r) (visionIntervalRef r) (recentTimerLabelsRef r)
    (visionEffectDep r).

Definition set_videoIntervalRef (x : option nat) (r : Refs) : Refs :=
  mkRefs (timersRef r) (activeRecipeRef r) (currentStepRef r)
    (nextStartTimeRef r) (audioContextRef r) (inputContextRef r)
    (sourcesRef r) (sessionPromiseRef r) (mediaStreamRef r) (videoRef r) x
    (visionIntervalRef r) (recentTimerLabelsRef r) (visionEffectDep r).

Definition set_visionIntervalRef (x : option nat) (r : Refs) : Refs :=
  mkRefs (timersRef r) (activeRecipeRef r) (currentStepRef r)
    (nextStartTimeRef r) (audioContextRef r) (inputContextRef r)
    (sourcesRef r) (sessionPromiseRef r) (mediaStreamRef r) (videoRef r)
    (videoIntervalRef r) x (recentTimerLabelsRef r) (visionEffectDep r).

Definition set_recentTimerLabelsRef (x : gset string) (r : Refs) : Refs :=
  mkRefs (timersRef r) (activeRecipeRef r) (currentStepRef r)
    (nextStartTimeRef r) (audioContextRef r) (inputContextRef r)
    (sourcesRef r) (sessionPromiseRef r) (mediaStreamRef r) (videoRef r)
    (videoIntervalRef r) (visionIntervalRef r) x (visionEffectDep r).

Definition set_visionEffectDep (x : bool) (r : Refs) : Refs :=
  mkRefs (timersRef r) (activeRecipeRef r) (currentStepRef r)
    (nextStartTimeRef r) (audioContextRef r) (inputContextRef r)
    (sourcesRef r) (sessionPromiseRef r) (mediaStreamRef r) (videoRef r)
    (videoIntervalRef r) (visionIntervalRef r) (recentTimerLabelsRef r) x.

Definition set_nowMs (x : Z) (b : Browser) : Browser :=
  mkBrowser x (entropy b) (contexts b) (nodes b) (streams b) (channels b)
    (toasts b) (timeouts b) (intervals b) (nextHandle b) (pendingMedia b).

Definition set_entropy (x : list string) (b : Browser) : Browser :=
  mkBrowser (nowMs b) x (contexts b) (nodes b) (streams b) (channels b)
    (toasts b) (timeouts b) (intervals b) (nextHandle b) (pendingMedia b).

Definition set_contexts (x : list AudioContext) (b : Browser) : Browser :=
  mkBrowser (nowMs b) (entropy b) x (nodes b) (streams b) (channels b)
    (toasts b) (timeouts b) (intervals b) (nextHandle b) (pendingMedia b).

Definition set_nodes (x : list BufferSource) (b : Browser) : Browser :=
  mkBrowser (nowMs b) (entropy b) (contexts b) x (streams b) (channels b)
    (toasts b) (timeouts b) (intervals b) (nextHandle b) (pendingMedia b).

Definition set_streams (x : list MediaStream) (b : Browser) : Browser :=
  mkBrowser (nowMs b) (entropy b) (contexts b) (nodes b) x (channels b)
    (toasts b) (timeouts b) (intervals b) (nextHandle b) (pendingMedia b).

Definition set_channels (x : list Channel) (b : Browser) : Browser :=
  mkBrowser (nowMs b) (entropy b) (contexts b) (nodes b) (streams b) x
    (toasts b) (timeouts b) (intervals b) (nextHandle b) (pendingMedia b).

Definition set_toasts (x : list Toast) (b : Browser) : Browser :=
  mkBrowser (nowMs b) (entropy b) (contexts b) (nodes b) (streams b)
    (channels b) x (timeouts b) (intervals b) (nextHandle b) (pendingMedia b).

Definition set_timeouts (x : list (Z * string)) (b : Browser) : Browser :=
  mkBrowser (nowMs b) (entropy b) (contexts b) (nodes b) (streams b)
    (channels b) (toasts b) x (intervals b) (nextHandle b) (pendingMedia b).

Definition set_intervals (x : gset nat) (b : Browser) : Browser :=
  mkBrowser (nowMs b) (entropy b) (contexts b) (nodes b) (streams b)
    (channels b) (toasts b) (timeouts b) x (nextHandle b) (pendingMedia b).

Definition set_nextHandle (x : nat) (b : Browser) : Browser :=
  mkBrowser (nowMs b) (entropy b) (contexts b) (nodes b) (streams b)
    (channels b) (toasts b) (timeouts b) (intervals b) x (pendingMedia b).

Definition set_pendingMedia (x : list PendingConnect) (b : Browser) : Browser :=
  mkBrowser (nowMs b) (entropy b) (contexts b) (nodes b) (streams b)
    (channels b) (toasts b) (timeouts b) (intervals b) (nextHandle b) x.

Definition set_ui (x : Ui) (s : State) : State :=
  mkState (apiKey s) x (refs s) (browser s).

Definition set_refs (x : Refs) (s : State) : State :=
  mkState (apiKey s) (ui s) x (browser s).

Definition set_browser (x : Browser) (s : State) : State :=
  mkState (apiKey s) (ui s) (refs s) x.

Definition upd_ui (f : Ui -> Ui) (s : State) : State := set_ui (f (ui s)) s.

Definition upd_refs (f : Refs -> Refs) (s : State) : State :=
  set_refs (f (refs s)) s.

Definition upd_browser (f : Browser -> Browser) (s : State) : State :=
  set_browser (f (browser s)) s.

(** *** Browser operations *)

(** [ctx.currentTime]; [0] stands for a context that was never created. *)
Definition readCurrentTime (c : nat) (b : Browser) : Z :=
  from_option currentTime 0 (contexts b !! c).

Definition markClosed (x : AudioContext) : AudioContext :=
  mkAudioContext (currentTime x) true.

(** [ctx.close()] *)
Definition closeContext (c : nat) (b : Browser) : Browser :=
  set_contexts (alter markClosed c (contexts b)) b.

(** [source.stop()] *)
Definition stopNode (n : BufferSource) : BufferSource :=
  mkBufferSource (nodeCtx n) (startedAt n) (bufferDuration n) true
    (endedDispatched n).

(** [sources.forEach(source => source.stop())] *)
Definition stopAll (sources : gset nat) (ns : list BufferSource)
  : list BufferSource :=
  imap (fun i n => if bool_decide (i ∈ sources) then stopNode n else n) ns.

(** [clearInterval(handle)] *)
Definition clearInterval (h : nat) (b : Browser) : Browser :=
  set_intervals (intervals b ∖ {[h]}) b.

Definition markStopped (x : MediaStream) : MediaStream :=
  mkMediaStream (hasVideo x) true.

(** [stream.getTracks().forEach(track => track.stop())] *)
Definition stopTracks (s : nat) (b : Browser) : Browser :=
  set_streams (alter markStopped s (streams b)) b.

(** [toast({...})] *)
Definition toast (t : Toast) (s : State) : State :=
  upd_browser (fun b => set_toasts (toasts b ++ [t]) b) s.

(** [session.sendRealtimeInput] and [session.sendToolResponse] on channel
    [c]. *)
Definition send (c : nat) (o : Outbound) (s : State) : State :=
  upd_browser (fun b =>
    set_channels
      (alter (fun ch => mkChannel (outputCtx ch) (sent ch ++ [o])) c
         (channels b)) b) s.

(** [setLogs(prev => [...prev.slice(-19), {time, text}])] *)
Definition appendLog (txt : string) (s : State) : State :=
  upd_ui (fun u =>
    set_logs (Js.slice_last 19 (logs u) ++ [mkVisionLog (nowMs (browser s)) txt])
      u) s.

(** *** Teardown *)

(** The loop over [sourcesRef.current] followed by [clear()]. *)
Definition flushSources (s : State) : State :=
  let s := upd_browser
             (fun b => set_nodes (stopAll (sourcesRef (refs s)) (nodes b)) b) s in
  upd_refs (set_sourcesRef ∅) s.

(** The [!keepCamera && mediaStreamRef.current] branch. *)
Definition releaseCamera (s : State) : State :=
  match mediaStreamRef (refs s) with
  | None => s
  | Some stream =>
      let s := upd_browser (stopTracks stream) s in
      let s := upd_refs (set_mediaStreamRef None) s in
      let s := upd_ui (set_isCameraActive false) s in
      upd_refs (fun r =>
        set_videoRef (match videoRef r with
                      | Some _ => Some None
                      | None => None
                      end) r) s
  end.

(** [stopSession(keepCamera)] *)
Definition stopSession (keepCamera : bool) (s : State) : State :=
  let s := match audioContextRef (refs s) with
           | Some c => upd_refs (set_audioContextRef None)
                         (upd_browser (closeContext c) s)
           | None => s
           end in
  let s := match inputContextRef (refs s) with
           | Some c => upd_refs (set_inputContextRef None)
                         (upd_browser (closeContext c) s)
           | None => s
           end in
  let s := flushSources s in
  let s := match videoIntervalRef (refs s) with
           | Some h => upd_refs (set_videoIntervalRef None)
                         (upd_browser (clearInterval h) s)
           | None => s
           end in
  let s := match visionIntervalRef (refs s) with
           | Some h => upd_refs (set_visionIntervalRef None)
                         (upd_browser (clearInterval h) s)
           | None => s
           end in
  let s := if negb keepCamera then releaseCamera s else s in
  let s := upd_refs (set_sessionPromiseRef None) s in
  upd_ui (fun u =>
    set_isProcessing false (set_isListening false (set_isSpeaking false
      (set_isConnecting false (set_isConnected false u))))) s.

(** *** Timers *)

(** [addTimer(label, durationSeconds, reason)] *)
Definition addTimer (l : string) (durationSeconds : Z) (reason : option string)
    (s : State) : State :=
  let newId := hd EmptyString (entropy (browser s)) in
  let s := upd_browser (fun b => set_entropy (tl (entropy b)) b) s in
  let s := upd_ui (fun u =>
             set_timers (appendTimer (newTimer newId l durationSeconds) (timers u))
               u) s in
  toast (ToastTimerCreated l durationSeconds reason) s.

(** What the tick callback does for one finished timer: the toast and,
    when a session promise is stored, the alert written to it. *)
Definition notifyCompletion (t : Timer) (s : State) : State :=
  let s := toast (ToastTimerComplete (label t)) s in
  match sessionPromiseRef (refs s) with
  | Some c => send c (TimerAlert (label t)) s
  | None => s
  end.

(** The callback of the one-second interval. *)
Definition onTick (s : State) : State :=
  let '(next, completed) := tick (timers (ui s)) in
  let s := upd_ui (set_timers next) s in
  fold_left (fun acc t => notifyCompletion t acc) completed s.

(** *** Connecting *)

(** [!apiKey] *)
Definition apiKeyMissing (s : State) : bool :=
  match apiKey s with
  | Some k => negb (Js.truthy k)
  | None => true
  end.

(** [connectToGemini], up to [await navigator.mediaDevices.getUserMedia].
    The two [new AudioContextClass] calls allocate the next two contexts. *)
Definition connectToGemini (s : State) : State :=
  if apiKeyMissing s then upd_ui (set_error (Some ErrNoApiKey)) s
  else if isConnecting (ui s) || isConnected (ui s) then s
  else
    let s := stopSession true s in
    let s := upd_ui (fun u =>
               set_logs [] (set_error None (set_isConnecting true u))) s in
    let inputCtx := length (contexts (browser s)) in
    let outputCtx := S inputCtx in
    let s := upd_browser (fun b =>
               set_contexts
                 (contexts b ++ [mkAudioContext 0 false; mkAudioContext 0 false])
                 b) s in
    let s := upd_refs (fun r =>
               set_audioContextRef (Some outputCtx)
                 (set_inputContextRef (Some inputCtx) r)) s in
    let s := upd_refs
               (set_nextStartTimeRef (readCurrentTime outputCtx (browser s))) s in
    upd_browser (fun b =>
      set_pendingMedia
        (pendingMedia b ++ [mkPendingConnect inputCtx outputCtx false]) b) s.

(** [setInterval(callback, period)] storing the handle with [store]. *)
Definition setInterval (store : option nat -> Refs -> Refs) (s : State) : State :=
  let h := nextHandle (browser s) in
  let s := upd_browser (fun b =>
             set_nextHandle (S h) (set_intervals ({[h]} ∪ intervals b) b)) s in
  upd_refs (store (Some h)) s.

(** The rest of [connectToGemini] once [getUserMedia] has resolved with a
    stream that has a video track ([video = true]) or, after the audio-only
    fallback, none.  [k] names the suspended call. *)
Definition connectToGemini_resume (k : nat) (video : bool) (s : State) : State :=
  match pendingMedia (browser s) !! k with
  | None => s
  | Some pc =>
      if pcResumed pc then s
      else
        let s := upd_browser (fun b =>
                   set_pendingMedia
                     (<[k := mkPendingConnect (pcInputCtx pc) (pcOutputCtx pc) true]>
                        (pendingMedia b)) b) s in
        let stream := length (streams (browser s)) in
        let s := upd_browser (fun b =>
                   set_streams (streams b ++ [mkMediaStream video false]) b) s in
        let s := upd_refs (set_mediaStreamRef (Some stream)) s in
        let mounted := bool_decide (is_Some (videoRef (refs s))) in
        let s := upd_refs (fun r =>
                   set_videoRef (match videoRef r with
                                 | Some _ => Some (if video then Some stream else None)
                                 | None => None
                                 end) r) s in
        let s := upd_ui (set_isCameraActive (video && mounted)) s in
        let c := length (channels (browser s)) in
        let s := upd_browser (fun b =>
                   set_channels (channels b ++ [mkChannel (pcOutputCtx pc) []]) b) s in
        let s := upd_refs (set_sessionPromiseRef (Some c)) s in
        if video then setInterval set_videoIntervalRef s else s
  end.

(** The [catch] block of [connectToGemini], reached when [getUserMedia]
    rejects. *)
Definition connectToGemini_catch (k : nat) (s : State) : State :=
  match pendingMedia (browser s) !! k with
  | None => s
  | Some pc =>
      if pcResumed pc then s
      else
        let s := upd_browser (fun b =>
                   set_pendingMedia
                     (<[k := mkPendingConnect (pcInputCtx pc) (pcOutputCtx pc) true]>
                        (pendingMedia b)) b) s in
        let s := upd_ui (fun u =>
                   set_isConnecting false (set_error (Some ErrFailedToConnect) u)) s in
        stopSession false s
  end.

(** [ConnectionButton.handleClick] *)
Definition handleClick (s : State) : State :=
  if isConnecting (ui s) then s
  else if isConnected (ui s) then stopSession false s
  else connectToGemini s.

(** *** Channel callbacks *)

(** [onopen] *)
Definition onopen (s : State) : State :=
  let s := upd_ui (fun u =>
             set_isListening true (set_isConnecting false (set_isConnected true u)))
             s in
  toast ToastConnected s.

(** [onclose] *)
Definition onclose (s : State) : State :=
  let s := upd_ui (set_error (Some ErrSessionClosed)) s in
  let s := toast ToastAiDisconnected s in
  stopSession true s.

(** [onerror] *)
Definition onerror (s : State) : State :=
  let s := upd_ui (set_error (Some ErrConnectionError)) s in
  let s := toast ToastConnectionError s in
  stopSession true s.

(** The handler given to [sessionPromise.catch]. *)
Definition onrejected (s : State) : State :=
  let s := upd_ui (set_error (Some ErrConnectionFailed)) s in
  let s := toast ToastConnectionFailed s in
  stopSession true s.

(** *** Playback *)

(** [msg.serverContent?.turnComplete] *)
Definition handleTurnComplete (s : State) : State :=
  upd_ui (fun u =>
    set_isListening true (set_isProcessing false (set_isSpeaking false u))) s.

(** [msg.serverContent?.interrupted] *)
Definition handleInterrupted (s : State) : State :=
  let s := upd_ui (fun u =>
             set_isListening true (set_isProcessing false (set_isSpeaking false u)))
             s in
  let s := flushSources s in
  upd_refs
    (set_nextStartTimeRef
       (match audioContextRef (refs s) with
        | Some c => readCurrentTime c (browser s)
        | None => 0
        end)) s.

(** The audio branch of [onmessage] for a decoded buffer of duration
    [duration], on the output context [out] the callback closes over. *)
Definition handleAudio (out : nat) (duration : Z) (s : State) : State :=
  let s := upd_ui (fun u =>
             set_isProcessing false (set_isListening false (set_isSpeaking true u)))
             s in
  let bufferSource := length (nodes (browser s)) in
  let now := readCurrentTime out (browser s) in
  let s := if nextStartTimeRef (refs s) <? now
           then upd_refs (set_nextStartTimeRef now) s else s in
  let s := upd_browser (fun b =>
             set_nodes
               (nodes b ++
                [mkBufferSource out (nextStartTimeRef (refs s)) duration false false])
               b) s in
  let s := upd_refs (fun r =>
             set_nextStartTimeRef (nextStartTimeRef r + duration) r) s in
  upd_refs (fun r => set_sourcesRef ({[bufferSource]} ∪ sourcesRef r) r) s.

(** [bufferSource.onended] *)
Definition onended (bufferSource : nat) (s : State) : State :=
  let s := upd_refs (fun r =>
             set_sourcesRef (sourcesRef r ∖ {[bufferSource]}) r) s in
  if bool_decide (size (sourcesRef (refs s)) = 0%nat)
  then upd_ui (fun u => set_isListening true (set_isSpeaking false u)) s
  else s.

(** The browser dispatches [ended] to a source node once, when its
    playback has stopped: [stop()] was called or its buffer has been played
    to the end. *)
Definition ended_due (bufferSource : nat) (b : Browser) : bool :=
  match nodes b !! bufferSource with
  | None => false
  | Some n =>
      negb (endedDispatched n) &&
      (stopped n || (startedAt n + bufferDuration n <=? readCurrentTime (nodeCtx n) b))
  end.

Definition markEnded (n : BufferSource) : BufferSource :=
  mkBufferSource (nodeCtx n) (startedAt n) (bufferDuration n) (stopped n) true.

(** Delivery of the [ended] event of [bufferSource]. *)
Definition dispatchEnded (bufferSource : nat) (s : State) : State :=
  if ended_due bufferSource (browser s)
  then onended bufferSource
         (upd_browser (fun b =>
            set_nodes (alter markEnded bufferSource (nodes b)) b) s)
  else s.

(** *** Tool dispatch *)

(** [`Timer '${label}' set for ${durationSeconds}s`] *)
Definition timerSetText (l : string) (durationSeconds : Z) : string :=
  "Timer '" +:+ l +:+ "' set for " +:+ pretty durationSeconds +:+ "s".

(** The body of [for (const fc of msg.toolCall.functionCalls)], up to the
    value of [result]. *)
Definition resolveCall (fc : FunctionCall) (s : State) : State * ToolResult :=
  if bool_decide (callName fc = "createTimer") then
    let l := argLabel (callArgs fc) in
    let durationSeconds := argDurationSeconds (callArgs fc) in
    (addTimer l durationSeconds None s,
     ResultText (timerSetText l durationSeconds))
  else if bool_decide (callName fc = "getTimers") then
    (s, ResultTimers (timersRef (refs s)))
  else if bool_decide (callName fc = "logObservation") then
    (appendLog (argText (callArgs fc)) s, ResultText "logged")
  else if bool_decide (callName fc = "getActiveRecipe") then
    let step := currentStepRef (refs s) in
    match activeRecipeRef (refs s) with
    | Some recipe =>
        (s, ResultRecipe (title recipe) (ingredients recipe) (instructions recipe)
              (Z.of_nat step + 1)
              (default EmptyString (instructions recipe ≫= (fun l => l !! step)))
              (from_option length 0%nat (instructions recipe)))
    | None => (s, ResultText "No active recipe selected")
    end
  else (s, ResultText "ok").

(** One iteration of the loop: resolve, then [responses.push]. *)
Definition dispatchCall (fc : FunctionCall) (acc : State * list FunctionResponse)
  : State * list FunctionResponse :=
  let '(s, result) := resolveCall fc (fst acc) in
  (s, snd acc ++ [mkFunctionResponse (callId fc) (callName fc) result]).

(** The whole loop, starting from [const responses = []]. *)
Definition dispatchAll (functionCalls : list FunctionCall) (s : State)
  : State * list FunctionResponse :=
  fold_left (fun acc fc => dispatchCall fc acc) functionCalls (s, []).

(** The [msg.toolCall] branch of [onmessage] on channel [c]. *)
Definition handleToolCall (c : nat) (functionCalls : list FunctionCall)
    (s : State) : State :=
  let s := upd_ui (fun u => set_isListening false (set_isProcessing true u)) s in
  let '(s, responses) := dispatchAll functionCalls s in
  send c (ToolResponse responses) s.

(** What the tool-call branch of [onmessage] sends for a batch. *)
Definition batchResponses (calls : list FunctionCall) (s : State)
  : list FunctionResponse :=
  snd (dispatchAll calls
         (upd_ui (fun u => set_isListening false (set_isProcessing true u)) s)).

(** A transcription is logged when its text is not empty. *)
Definition handleTranscription (prefix : string) (t : option string) (s : State)
  : State :=
  match t with
  | Some txt => if Js.truthy txt then appendLog (prefix +:+ txt) s else s
  | None => s
  end.

(** [onmessage] of channel [c].  The callback awaits [decodeAudioData]
    between raising the speaking flag and scheduling the buffer; the
    embedding runs the two parts without anything in between. *)
Definition onmessage (c : nat) (msg : LiveServerMessage) (s : State) : State :=
  match channels (browser s) !! c with
  | None => s
  | Some ch =>
      let s := if turnComplete msg then handleTurnComplete s else s in
      let s := if interrupted msg then handleInterrupted s else s in
      let s := handleTranscription "🎤 You: " (inputTranscription msg) s in
      let s := handleTranscription "🤖 Chef: " (outputTranscription msg) s in
      let s := match audioData msg with
               | Some duration => handleAudio (outputCtx ch) duration s
               | None => s
               end in
      match toolCall msg with
      | Some functionCalls => handleToolCall c functionCalls s
      | None => s
      end
  end.

(** *** Vision sampler *)

(** [timersRef.current.some(t => ...)] *)
Definition hasExistingTimer (labelKey : string) (ts : list Timer) : bool :=
  existsb (fun t =>
             Js.includes (Js.toLowerCase (label t)) labelKey
             || Js.includes labelKey (Js.toLowerCase (label t))) ts.

(** The length of the suppression window, in milliseconds. *)
Definition suppressionWindow : Z := 30000.

(** The [data?.timerSuggestion] branch of [analyzeVision]. *)
Definition handleSuggestion (suggestion : TimerSuggestion) (s : State) : State :=
  let labelKey := Js.toLowerCase (sugLabel suggestion) in
  let existing := hasExistingTimer labelKey (timersRef (refs s)) in
  let recentlyCreated :=
    bool_decide (labelKey ∈ recentTimerLabelsRef (refs s)) in
  if negb existing && negb recentlyCreated && (0 <? sugDurationSeconds suggestion)
  then
    let s := addTimer (sugLabel suggestion) (sugDurationSeconds suggestion)
               (sugReason suggestion) s in
    let s := upd_refs (fun r =>
               set_recentTimerLabelsRef ({[labelKey]} ∪ recentTimerLabelsRef r) r)
               s in
    let s := upd_browser (fun b =>
               set_timeouts
                 (timeouts b ++ [(nowMs b + suppressionWindow, labelKey)]) b) s in
    match sugReason suggestion with
    | Some reason =>
        if Js.truthy reason then appendLog ("⏲️ Timer created: " +:+ reason) s
        else s
    | None => s
    end
  else s.

(** [analyzeVision] from the point where the analysis service has
    answered with [data]. *)
Definition analyzeVision_response (data : VisionData) (s : State) : State :=
  let s := match description data with
           | Some d => if Js.truthy d then appendLog d s else s
           | None => s
           end in
  match timerSuggestion data with
  | Some suggestion => handleSuggestion suggestion s
  | None => s
  end.

(** *** Passing time *)

(** Frames of the 24 kHz output context per millisecond. *)
Definition framesPerMs : Z := 24.

Definition advanceContext (ms : Z) (x : AudioContext) : AudioContext :=
  if closed x then x
  else mkAudioContext (currentTime x + framesPerMs * ms) (closed x).

(** The callbacks [() => recentTimerLabelsRef.current.delete(labelKey)]
    whose time has come. *)
Definition fireTimeouts (s : State) : State :=
  let now := nowMs (browser s) in
  let due := filter (fun p => fst p ≤ now) (timeouts (browser s)) in
  let s := upd_browser (fun b =>
             set_timeouts (filter (fun p => ¬ fst p ≤ now) (timeouts b)) b) s in
  upd_refs (fun r =>
    set_recentTimerLabelsRef
      (recentTimerLabelsRef r ∖ list_to_set (map snd due)) r) s.

(** [ms] milliseconds pass: clocks advance, due timeouts run. *)
Definition elapse (ms : Z) (s : State) : State :=
  let s := upd_browser (fun b =>
             set_contexts (map (advanceContext ms) (contexts b))
               (set_nowMs (nowMs b + ms) b)) s in
  fireTimeouts s.

(** *** Rendering *)

(** The effect with dependencies [isCameraActive, analyzeVision]: when
    [isCameraActive] has changed, the cleanup of the previous run clears the
    interval and the body starts a new one while the camera is active. *)
Definition visionEffect (s : State) : State :=
  let active := isCameraActive (ui s) in
  if Bool.eqb active (visionEffectDep (refs s)) then s
  else
    let s := match visionIntervalRef (refs s) with
             | Some h => upd_refs (set_visionIntervalRef None)
                           (upd_browser (clearInterval h) s)
             | None => s
             end in
    let s := match visionIntervalRef (refs s) with
             | None => if active then setInterval set_visionIntervalRef s else s
             | Some h => if active then s
                         else upd_refs (set_visionIntervalRef None)
                                (upd_browser (clearInterval h) s)
             end in
    upd_refs (set_visionEffectDep active) s.

(** What React does after a handler has returned: [CameraFeed] is mounted
    exactly while [isConnected], the effects copy [timers] and [currentStep]
    into their refs, and the vision effect runs. *)
Definition render (s : State) : State :=
  let s := upd_refs (fun r =>
             set_videoRef (if isConnected (ui s)
                           then Some (default None (videoRef r))
                           else None) r) s in
  let s := upd_refs (fun r =>
             set_currentStepRef (currentStep (ui s))
               (set_timersRef (timers (ui s)) r)) s in
  visionEffect s.

(** [setActiveRecipe(r)] and the effect with dependency [activeRecipe]. *)
Definition selectRecipe (r : option Recipe) (s : State) : State :=
  let s := upd_ui (set_activeRecipe r) s in
  let s := upd_refs (set_activeRecipeRef r) s in
  let s := upd_ui (set_currentStep 0%nat) s in
  match sessionPromiseRef (refs s), r with
  | Some c, Some recipe => send c (RecipeUpdate (title recipe)) s
  | _, _ => s
  end.

(** *** Events *)

(** What can happen to a mounted component. *)
Inductive Event :=
| EvTick
| EvConnect
| EvClick
| EvDisconnect
| EvMedia (k : nat) (video : bool)
| EvMediaFailed (k : nat)
| EvOpen (c : nat)
| EvMessage (c : nat) (msg : LiveServerMessage)
| EvClose (c : nat)
| EvError (c : nat)
| EvRejected (c : nat)
| EvEnded (bufferSource : nat)
| EvVision (data : VisionData)
| EvElapse (ms : Z)
| EvToggleTimer (id : string) (pause : bool)
| EvResetTimer (id : string)
| EvRemoveTimer (id : string)
| EvSelectRecipe (r : option Recipe)
| EvSetStep (n : nat).

(** A callback of channel [c] runs only if the channel was opened. *)
Definition onChannel (c : nat) (f : State -> State) (s : State) : State :=
  match channels (browser s) !! c with
  | Some _ => f s
  | None => s
  end.

Definition handle (ev : Event) (s : State) : State :=
  match ev with
  | EvTick => onTick s
  | EvConnect => connectToGemini s
  | EvClick => handleClick s
  | EvDisconnect => stopSession false s
  | EvMedia k video => connectToGemini_resume k video s
  | EvMediaFailed k => connectToGemini_catch k s
  | EvOpen c => onChannel c onopen s
  | EvMessage c msg => onmessage c msg s
  | EvClose c => onChannel c onclose s
  | EvError c => onChannel c onerror s
  | EvRejected c => onChannel c onrejected s
  | EvEnded n => dispatchEnded n s
  | EvVision data => analyzeVision_response data s
  | EvElapse ms => if 0 <=? ms then elapse ms s else s
  | EvToggleTimer id pause => upd_ui (fun u => set_timers (toggleTimer id pause (timers u)) u) s
  | EvResetTimer id => upd_ui (fun u => set_timers (resetTimer id (timers u)) u) s
  | EvRemoveTimer id => upd_ui (fun u => set_timers (removeTimer id (timers u)) u) s
  | EvSelectRecipe r => selectRecipe r s
  | EvSetStep n => upd_ui (set_currentStep n) s
  end.

(** One event: its handler, then the render it causes. *)
Definition step (ev : Event) (s : State) : State := render (handle ev s).

Definition run (evs : list Event) (s : State) : State :=
  fold_left (fun acc ev => step ev acc) evs s.

(** The component as mounted, with the [apiKey] prop and the ids
    [Math.random] will produce. *)
Definition initial (key : option string) (ids : list string) : State :=
  mkState key
    (mkUi false false false false false false [] [] None 0%nat None)
    (mkRefs [] None 0%nat 0 None None ∅ None None None None None ∅ false)
    (mkBrowser 0 ids [] [] [] [] [] [] ∅ 1%nat []).

(** The events that are neither an interruption nor an audio chunk nor a
    request to connect; they are the ones that may come between two chunks
    of one utterance. *)
Definition keepsCursor (ev : Event) : bool :=
  match ev with
  | EvConnect | EvClick => false
  | EvMessage _ msg =>
      negb (interrupted msg) && negb (bool_decide (is_Some (audioData msg)))
  | _ => true
  end.

(** What the connection guard and the scheduler depend on: the key, the
    two connection flags, how many channels were opened, how many calls of
    [connectToGemini] were suspended, and the cursor. *)
Definition view (s : State) : option string * bool * bool * nat * nat * Z :=
  (apiKey s, isConnecting (ui s), isConnected (ui s),
   length (channels (browser s)), length (pendingMedia (browser s)),
   nextStartTimeRef (refs s)).

(** What scheduling reads and writes besides the live set: the source
    nodes, the audio contexts and the cursor. *)
Definition sched (s : State) : list BufferSource * list AudioContext * Z :=
  (nodes (browser s), contexts (browser s), nextStartTimeRef (refs s)).


(** What duplicate suppression depends on besides the timers: the wall
    clock, the pending deletions and the set of recent label keys. *)
Definition recency (s : State) : Z * list (Z * string) * gset string :=
  (nowMs (browser s), timeouts (browser s), recentTimerLabelsRef (refs s)).

(** Every pending deletion is for a key that is in the recent set, and no
    key has two pending deletions. *)
Definition timeoutsOk (s : State) : Prop :=
  NoDup (map snd (timeouts (browser s))) /\
  forall key : string,
    key ∈ map snd (timeouts (browser s)) -> key ∈ recentTimerLabelsRef (refs s).

(** The condition under which [analyzeVision] acts on a suggestion. *)
Definition accepts (suggestion : TimerSuggestion) (s : State) : bool :=
  let labelKey := Js.toLowerCase (sugLabel suggestion) in
  negb (hasExistingTimer labelKey (timersRef (refs s)))
  && negb (bool_decide (labelKey ∈ recentTimerLabelsRef (refs s)))
  && (0 <? sugDurationSeconds suggestion).

(** The labels an event brings in: the [label] argument of each call of
    a tool-call batch, and the label of a timer suggestion. *)
Definition eventLabels (ev : Event) : list string :=
  match ev with
  | EvMessage _ msg =>
      match toolCall msg with
      | Some functionCalls => map (fun fc => argLabel (callArgs fc)) functionCalls
      | None => []
      end
  | EvVision data =>
      match timerSuggestion data with
      | Some suggestion => [sugLabel suggestion]
      | None => []
      end
  | _ => []
  end.

(** An event whose labels are ASCII. *)
Definition asciiEvent (ev : Event) : bool := forallb Js.isAscii (eventLabels ev).

(** A vision result that only suggests a timer. *)
Definition suggest (l : string) (d : Z) (reason : option string) : VisionData :=
  mkVisionData None (Some (mkSuggestion l d reason)).

(** A message that carries nothing. *)
Definition emptyMessage : LiveServerMessage :=
  mkMessage false false None None None None.

Definition audioMessage (duration : Z) : LiveServerMessage :=
  mkMessage false false None None (Some duration) None.

Definition interruptedMessage : LiveServerMessage :=
  mkMessage false true None None None None.

Definition toolCallMessage (functionCalls : list FunctionCall)
  : LiveServerMessage :=
  mkMessage false false None None None (Some functionCalls).

End App.

(** ** Concrete runs *)

Module Scenarios.
Import TimerEngine Wire App.

(** A one-second timer. *)
Definition egg : Timer := newTimer "t1" "Egg" 1.


(** A component with a key whose session is open on channel [0]. *)
Definition connected : State :=
  run [EvConnect; EvMedia 0 true; EvOpen 0] (initial (Some "token") ["a"; "b"; "c"]).

Definition call (name : string) (l : string) (d : Z) : FunctionCall :=
  mkFunctionCall ("call-" +:+ name) name (mkArgs l d "").

(** The state after the remote engine called [createTimer] with
    [durationSeconds = -5], and the timer this made. *)
Definition owedState : State :=
  step (EvMessage 0 (toolCallMessage [call "createTimer" "Owed" (-5)])) connected.

Definition owed : Timer := newTimer "a" "Owed" (-5).

(** The batch of the round-trip scenario. *)
Definition roundTrip : list FunctionCall :=
  [call "createTimer" "Pasta" 600; call "getTimers" "" 0;
   call "getActiveRecipe" "" 0].

(** Two chunks of 240 frames, the second arriving 50 ms after the first
    was scheduled. *)
Definition lateChunk : list Event :=
  [EvMessage 0 (audioMessage 240); EvElapse 50; EvMessage 0 (audioMessage 240)].

(** A chunk is playing when a message arrives that carries the
    interruption signal and an empty tool-call batch. *)
Definition bargeIn : State :=
  run [EvMessage 0 (audioMessage 240);
       EvMessage 0 (mkMessage false true None None None (Some []))] connected.

(** The still-image analysis sees pasta go into the water. *)
Definition pasta : TimerSuggestion := mkSuggestion "Pasta" 480 None.

(** A session that the remote side closes, followed by a second session:
    the user connects, the remote engine closes the channel, the user
    connects again.  Each connect gets a stream with a video track. *)
Definition reconnected : State :=
  run [EvClick; EvMedia 0 true; EvOpen 0; EvClose 0;
       EvClick; EvMedia 1 true; EvOpen 1]
    (initial (Some "token") ["a"; "b"; "c"]).

End Scenarios.

(** ** The timer card *)

Module TimerCard.
Import TimerEngine.

(** The four buttons a [TimerCard] can show. *)
Inductive CardButton := BtnPause | BtnResume | BtnReset | BtnDelete.

#[global] Instance CardButton_eq_dec : EqDecision CardButton.
Proof. solve_decision. Defined.

(** The buttons the card renders for [timer]: reset and delete when
    [isFinished], otherwise pause or resume, by [timer.status === 'running'],
    and delete. *)
Definition buttons (timer : Timer) : list CardButton :=
  if is_finished timer then [BtnReset; BtnDelete]
  else [if is_running timer then BtnPause else BtnResume; BtnDelete].

(** [onClick] of a button of the card of [timer], through the props that
    [ChefApp] gives to [TimerSection]: [onPause={(id) => toggleTimer(id, true)}],
    [onResume={(id) => toggleTimer(id, false)}], [onDelete={removeTimer}],
    [onReset={resetTimer}]. *)
Definition press (b : CardButton) (timer : Timer) (prev : list Timer)
  : list Timer :=
  match b with
  | BtnPause => toggleTimer (timerId timer) true prev
  | BtnResume => toggleTimer (timerId timer) false prev
  | BtnReset => resetTimer (timerId timer) prev
  | BtnDelete => removeTimer (timerId timer) prev
  end.

(** What happens to the timer list of a running application: the periodic
    tick, a press of a button on the card at position [i] of [TimerSection],
    and [addTimer]. *)
Inductive Action :=
| ActTick
| ActPress (i : nat) (b : CardButton)
| ActCreate (newId label : string) (durationSeconds : Z).

(** A press does something only if the card exists and shows the button. *)
Definition perform (a : Action) (ts : list Timer) : list Timer :=
  match a with
  | ActTick => fst (tick ts)
  | ActPress i b =>
      match ts !! i with
      | Some timer =>
          if bool_decide (b ∈ buttons timer) then press b timer ts else ts
      | None => ts
      end
  | ActCreate newId l d => appendTimer (newTimer newId l d) ts
  end.

Definition performAll (acts : list Action) (ts : list Timer) : list Timer :=
  fold_left (fun acc a => perform a acc) acts ts.

(** A creation is regular when the duration is positive and [Math.random]
    has produced an id that no timer of the list carries. *)
Definition regular (a : Action) (ts : list Timer) : bool :=
  match a with
  | ActCreate newId _ d => (0 <? d) && bool_decide (newId ∉ map timerId ts)
  | _ => true
  end.

Fixpoint regularAll (acts : list Action) (ts : list Timer) : bool :=
  match acts with
  | [] => true
  | a :: rest => regular a ts && regularAll rest (perform a ts)
  end.

(** A timer that counts down as a user expects: a positive original
    duration, a remaining time that does not exceed it, no time left exactly
    when finished. *)
Definition sound (t : Timer) : Prop :=
  0 < durationOriginal t /\
  durationRemaining t <= durationOriginal t /\
  (status t = finished -> durationRemaining t = 0) /\
  (status t <> finished -> 0 < durationRemaining t).

End TimerCard.

(** ** What the user sees of the React state *)

Module Content.
Import TimerEngine Wire App.

(** The timers, the log, the step of the recipe and the recipe. *)
Definition Content : Type := list Timer * list VisionLog * nat * option Recipe.

Definition content (s : State) : Content :=
  (timers (ui s), logs (ui s), currentStep (ui s), activeRecipe (ui s)).

(** The updates the component makes to them: the updaters it passes to
    [setTimers] and [setLogs], [setLogs([])], [setActiveRecipe] with the
    [setCurrentStep(0)] of its effect, and [setCurrentStep]. *)
Inductive Change :=
| ChTick
| ChToggle (id : string) (pause : bool)
| ChReset (id : string)
| ChRemove (id : string)
| ChCreate (newId label : string) (durationSeconds : Z)
| ChLog (entry : VisionLog)
| ChClearLogs
| ChSelect (r : option Recipe)
| ChSetStep (n : nat).

Definition change (c : Change) (x : Content) : Content :=
  let '(ts, ls, st, rc) := x in
  match c with
  | ChTick => (fst (tick ts), ls, st, rc)
  | ChToggle id pause => (toggleTimer id pause ts, ls, st, rc)
  | ChReset id => (resetTimer id ts, ls, st, rc)
  | ChRemove id => (removeTimer id ts, ls, st, rc)
  | ChCreate newId l d => (appendTimer (newTimer newId l d) ts, ls, st, rc)
  | ChLog entry => (ts, Js.slice_last 19 ls ++ [entry], st, rc)
  | ChClearLogs => (ts, [], st, rc)
  | ChSelect r => (ts, ls, 0%nat, r)
  | ChSetStep n => (ts, ls, n, rc)
  end.

Definition changes (cs : list Change) (x : Content) : Content :=
  fold_left (fun acc c => change c acc) cs x.

(** The [durationSeconds] of the [createTimer] calls of a message. *)
Definition requestedDurations (msg : LiveServerMessage) : list Z :=
  map (fun fc => argDurationSeconds (callArgs fc))
    (filter (fun fc => callName fc = "createTimer") (default [] (toolCall msg))).

(** No [createTimer] call of the event asks for a negative duration. *)
Definition requestsNonneg (ev : Event) : bool :=
  match ev with
  | EvMessage _ msg => forallb (Z.leb 0) (requestedDurations msg)
  | _ => true
  end.

(** The updates an event can make. *)
Definition allowed (ev : Event) (c : Change) : Prop :=
  match c, ev with
  | ChTick, EvTick => True
  | ChToggle id pause, EvToggleTimer id' pause' => id = id' /\ pause = pause'
  | ChReset id, EvResetTimer id' => id = id'
  | ChRemove id, EvRemoveTimer id' => id = id'
  | ChCreate _ _ d, EvMessage _ msg => d ∈ requestedDurations msg
  | ChCreate _ _ d, EvVision _ => 0 < d
  | ChLog _, EvMessage _ _ => True
  | ChLog _, EvVision _ => True
  | ChClearLogs, EvConnect => True
  | ChClearLogs, EvClick => True
  | ChSelect r, EvSelectRecipe r' => r = r'
  | ChSetStep n, EvSetStep n' => n = n'
  | _, _ => False
  end.

(** [y] comes from [x] by updates that [ev] can make. *)
Definition explains (ev : Event) (x y : Content) : Prop :=
  exists cs : list Change, Forall (allowed ev) cs /\ y = changes cs x.

End Content.

(** ** The audio objects the component holds *)

Module Resources.
Import Wire App.

(** The audio contexts with the two refs that point to them, the source
    nodes with the live set, and the recipe ref. *)
Definition resources (s : State)
  : list AudioContext * option nat * option nat
    * list BufferSource * gset nat * option Recipe :=
  (contexts (browser s), audioContextRef (refs s), inputContextRef (refs s),
   nodes (browser s), sourcesRef (refs s), activeRecipeRef (refs s)).

(** [if (ref.current) { ref.current.close(); ... }] on the list of
    contexts. *)
Definition closeRef (r : option nat) (ctxs : list AudioContext)
  : list AudioContext :=
  match r with
  | Some c => alter markClosed c ctxs
  | None => ctxs
  end.

(** Every audio context that is still open is the one [audioContextRef] or
    the one [inputContextRef] points to. *)
Definition contextsTidy (s : State) : Prop :=
  forall (c : nat) (x : AudioContext),
    contexts (browser s) !! c = Some x -> closed x = false ->
    audioContextRef (refs s) = Some c \/ inputContextRef (refs s) = Some c.

(** A source node that was started, was not stopped and has not had its
    [ended] event delivered. *)
Definition isLive (node : BufferSource) : bool :=
  negb (stopped node) && negb (endedDispatched node).

(** [sourcesRef] holds exactly the source nodes that are live. *)
Definition liveSetExact (s : State) : Prop :=
  forall n : nat,
    n ∈ sourcesRef (refs s) <->
    exists node, nodes (browser s) !! n = Some node /\ isLive node = true.

(** The refs that mirror React state hold what the state holds. *)
Definition refsInSync (s : State) : Prop :=
  timersRef (refs s) = timers (ui s) /\
  currentStepRef (refs s) = currentStep (ui s) /\
  activeRecipeRef (refs s) = activeRecipe (ui s).

End Resources.

(** ** The card of the active recipe *)

Module RecipeCard.
Import Wire App.

(** [recipe.instructions?.length || 0] *)
Definition totalSteps (recipe : Recipe) : nat :=
  from_option length 0%nat (instructions recipe).

(** [recipe.instructions?.[currentStep] || ''] *)
Definition currentInstruction (recipe : Recipe) (currentStep : nat) : string :=
  default EmptyString (instructions recipe ≫= (fun l => l !! currentStep)).

(** The controls of the card that change the step: the three buttons and,
    for each index [i] of [recipe.instructions], a dot and a row of the step
    list, both with [onClick={() => onStepChange(i)}]. *)
Inductive Control := Previous | DoneNext | Skip | Dot (i : nat).

(** The argument with which a control calls [onStepChange], if it calls
    it: [goToPrevStep], [markStepComplete] and [goToNextStep]; a dot or row
    does so when it exists. *)
Definition stepChange (c : Control) (recipe : Recipe) (currentStep : nat)
  : option nat :=
  match c with
  | Previous =>
      if 0 <? Z.of_nat currentStep then Some (currentStep - 1)%nat else None
  | DoneNext | Skip =>
      if Z.of_nat currentStep <? Z.of_nat (totalSteps recipe) - 1
      then Some (currentStep + 1)%nat else None
  | Dot i =>
      if bool_decide (i < length (default [] (instructions recipe)))%nat
      then Some i else None
  end.

(** A click on a control.  [ChefApp] renders the card for [activeRecipe],
    when there is one, with [currentStep] and [onStepChange={setCurrentStep}]. *)
Definition click (c : Control) (s : State) : State :=
  match activeRecipe (ui s) with
  | Some recipe =>
      match stepChange c recipe (currentStep (ui s)) with
      | Some n => step (EvSetStep n) s
      | None => s
      end
  | None => s
  end.

(** What drives the component: a click on the card or an event. *)
Inductive Input :=
| Click (c : Control)
| Happens (ev : Event).

Definition drive (i : Input) (s : State) : State :=
  match i with
  | Click c => click c s
  | Happens ev => step ev s
  end.

Definition driveAll (inputs : list Input) (s : State) : State :=
  fold_left (fun acc i => drive i acc) inputs s.

(** [setCurrentStep] is called with an argument only by the card. *)
Definition throughCard (i : Input) : bool :=
  match i with
  | Happens (EvSetStep _) => false
  | _ => true
  end.

(** What the dispatcher answers to [getActiveRecipe] when the card shows
    [recipe] at [currentStep]. *)
Definition shownRecipe (recipe : option Recipe) (currentStep : nat) : ToolResult :=
  match recipe with
  | Some r =>
      ResultRecipe (title r) (ingredients r) (instructions r)
        (Z.of_nat currentStep + 1) (currentInstruction r currentStep)
        (totalSteps r)
  | None => ResultText "No active recipe selected"
  end.

End RecipeCard.

(** ** The conversation indicator *)

Module Indicator.
Import Wire App.

(** [type ConversationState = 'idle' | 'listening' | 'processing' | 'speaking'] *)
Inductive ConversationState := idle | listening | processing | speaking.

(** [const conversationState = isSpeaking ? 'speaking' : isProcessing ?
    'processing' : isListening ? 'listening' : 'idle'] *)
Definition conversationState (u : Ui) : ConversationState :=
  if isSpeaking u then speaking
  else if isProcessing u then processing
  else if isListening u then listening
  else idle.

(** The events that run [stopSession]: the [onDisconnect] prop, a click on
    the connection button while connected, the [catch] block of a suspended
    connect, and [onclose], [onerror] and the rejection handler of a channel
    that was opened. *)
Definition endsSession (ev : Event) (s : State) : bool :=
  match ev with
  | EvDisconnect => true
  | EvClick => negb (isConnecting (ui s)) && isConnected (ui s)
  | EvMediaFailed k =>
      match pendingMedia (browser s) !! k with
      | Some pc => negb (pcResumed pc)
      | None => false
      end
  | EvClose c | EvError c | EvRejected c =>
      bool_decide (is_Some (channels (browser s) !! c))
  | _ => false
  end.

End Indicator.

(** ** The diagnostics of [ChefApp] *)

Module Diagnostics.

(** [ModelActivity['type']] *)
Inductive ActivityType := ActInput | ActOutput | ActToolCall | ActConnection.

(** [interface ModelActivity]; [timestamp] in milliseconds. *)
Record ModelActivity := mkActivity {
  activityType : ActivityType;
  message : string;
  timestamp : Z
}.

(** [connectionStatus: 'disconnected' | 'connecting' | 'connected'] *)
Inductive ConnectionStatus := disconnected | connecting | connected.

(** [interface DiagnosticInfo] *)
Record DiagnosticInfo := mkInfo {
  connectionStatus : ConnectionStatus;
  modelName : string;
  apiVersion : string;
  inputTokens : Z;
  outputTokens : Z;
  sessionStartTime : option Z;
  hasVideo : bool;
  hasAudio : bool;
  lastError : option string;
  messagesSent : Z;
  messagesReceived : Z;
  lastActivity : option ModelActivity;
  activityLog : list ModelActivity
}.

Definition GEMINI_MODEL : string := "gemini-2.5-flash-native-audio-preview-12-2025".
Definition API_VERSION : string := "v1alpha".

(** The initial value of [diagnosticInfo]. *)
Definition initialInfo : DiagnosticInfo :=
  mkInfo disconnected GEMINI_MODEL API_VERSION 0 0 None false false None 0 0
    None [].

(** The updater of [logActivity(type, message)], called at time [now]. *)
Definition logActivity (type : ActivityType) (msg : string) (now : Z)
    (prev : DiagnosticInfo) : DiagnosticInfo :=
  let activity := mkActivity type msg now in
  mkInfo (connectionStatus prev) (modelName prev) (apiVersion prev)
    (inputTokens prev) (outputTokens prev) (sessionStartTime prev)
    (hasVideo prev) (hasAudio prev) (lastError prev) (messagesSent prev)
    (messagesReceived prev) (Some activity)
    (Js.slice_last 9 (activityLog prev) ++ [activity]).

(** The calls of [setDiagnosticInfo] in [ChefApp]: in [stopSession], at
    the start of [connectToGemini], once the media stream is there, in
    [onopen], for an input and for an output transcription, in [onclose] and
    [onerror], and in [logActivity]. *)
Inductive Update :=
| UpStopped
| UpConnecting
| UpMedia (video audio : bool)
| UpOpened (now : Z)
| UpSent
| UpReceived
| UpFailed (errorMsg : string)
| UpActivity (type : ActivityType) (msg : string) (now : Z).

Definition update (u : Update) (prev : DiagnosticInfo) : DiagnosticInfo :=
  match u with
  | UpStopped =>
      mkInfo disconnected (modelName prev) (apiVersion prev) (inputTokens prev)
        (outputTokens prev) (sessionStartTime prev) false false (lastError prev)
        (messagesSent prev) (messagesReceived prev) (lastActivity prev)
        (activityLog prev)
  | UpConnecting =>
      mkInfo connecting (modelName prev) (apiVersion prev) (inputTokens prev)
        (outputTokens prev) (sessionStartTime prev) (hasVideo prev)
        (hasAudio prev) None (messagesSent prev) (messagesReceived prev)
        (lastActivity prev) (activityLog prev)
  | UpMedia video audio =>
      mkInfo (connectionStatus prev) (modelName prev) (apiVersion prev)
        (inputTokens prev) (outputTokens prev) (sessionStartTime prev) video
        audio (lastError prev) (messagesSent prev) (messagesReceived prev)
        (lastActivity prev) (activityLog prev)
  | UpOpened now =>
      mkInfo connected GEMINI_MODEL (apiVersion prev) (inputTokens prev)
        (outputTokens prev) (Some now) (hasVideo prev) (hasAudio prev)
        (lastError prev) 0 0 (lastActivity prev) []
  | UpSent =>
      mkInfo (connectionStatus prev) (modelName prev) (apiVersion prev)
        (inputTokens prev) (outputTokens prev) (sessionStartTime prev)
        (hasVideo prev) (hasAudio prev) (lastError prev) (messagesSent prev + 1)
        (messagesReceived prev) (lastActivity prev) (activityLog prev)
  | UpReceived =>
      mkInfo (connectionStatus prev) (modelName prev) (apiVersion prev)
        (inputTokens prev) (outputTokens prev) (sessionStartTime prev)
        (hasVideo prev) (hasAudio prev) (lastError prev) (messagesSent prev)
        (messagesReceived prev + 1) (lastActivity prev) (activityLog prev)
  | UpFailed errorMsg =>
      mkInfo disconnected (modelName prev) (apiVersion prev) (inputTokens prev)
        (outputTokens prev) (sessionStartTime prev) (hasVideo prev)
        (hasAudio prev) (Some errorMsg) (messagesSent prev)
        (messagesReceived prev) (lastActivity prev) (activityLog prev)
  | UpActivity type msg now => logActivity type msg now prev
  end.

Definition updates (us : list Update) (info : DiagnosticInfo) : DiagnosticInfo :=
  fold_left (fun acc u => update u acc) us info.

(** [DiagnosticPanel]: [info.lastActivity && Date.now() -
    info.lastActivity.timestamp.getTime() < 2000] *)
Definition isActive (now : Z) (info : DiagnosticInfo) : bool :=
  match lastActivity info with
  | Some a => now - timestamp a <? 2000
  | None => false
  end.

End Diagnostics.

(** ** The key hook and the page *)

Module KeyGate.
Import App.

(** The state of [useGeminiKey]. *)
Record Hook := mkHook {
  hookApiKey : option string;
  loading : bool;
  hookError : option string
}.

(** As mounted: [useState(null)], [useState(true)], [useState(null)]. *)
Definition mounted : Hook := mkHook None true None.

(** What [await supabase.functions.invoke('get-gemini-token')] gives: a
    thrown exception, or [{ data, error }] with the [token] and [error]
    members of [data], where it has any. *)
Record Data := mkData {
  token : option string;
  dataError : option string
}.

Inductive Invoked :=
| Threw
| Returned (data : option Data) (fnError : bool).

(** A string member in a condition. *)
Definition present (m : option string) : bool :=
  match m with
  | Some v => Js.truthy v
  | None => false
  end.

(** [fetchApiKey], run to its end. *)
Definition fetchApiKey (r : Invoked) (h : Hook) : Hook :=
  let h := mkHook (hookApiKey h) true (hookError h) in
  let h := mkHook (hookApiKey h) (loading h) None in
  let h :=
    match r with
    | Threw =>
        mkHook (hookApiKey h) (loading h)
          (Some "Failed to connect to backend. Please try again.")
    | Returned data fnError =>
        if fnError
        then mkHook (hookApiKey h) (loading h)
               (Some "Failed to fetch token. Please try again.")
        else
          match data with
          | Some d =>
              if present (token d) then mkHook (token d) (loading h) (hookError h)
              else if present (dataError d)
                   then mkHook (hookApiKey h) (loading h) (dataError d)
                   else h
          | None => h
          end
    end in
  mkHook (hookApiKey h) false (hookError h).

(** What [Index] renders. *)
Inductive Page :=
| Spinner
| ConfigurationError (msg : string)
| ChefApp (apiKey : option string).

(** [Index] *)
Definition Index (h : Hook) : Page :=
  if loading h then Spinner
  else match hookError h with
       | Some e => if Js.truthy e then ConfigurationError e else ChefApp (hookApiKey h)
       | None => ChefApp (hookApiKey h)
       end.

End KeyGate.

(** ** The camera controls *)

Module Camera.

(** [MediaDeviceInfo], the members the component reads. *)
Record MediaDeviceInfo := mkDevice {
  deviceId : string;
  deviceLabel : string
}.

(** The [video] constraints of a [getUserMedia] request: the device asked
    for with [exact], the ideal width and height, and whether the
    [aspectRatio] and [zoom] members are present. *)
Record Constraints := mkConstraints {
  exactDevice : option string;
  idealWidth : Z;
  idealHeight : Z;
  widest : bool
}.

(** A video track, as the request that produced it and whether [stop()]
    was called. *)
Record VideoTrack := mkTrack {
  request : Constraints;
  trackStopped : bool
}.

Inductive CameraToast :=
| ToastSwitched (description : string)
| ToastSwitchFailed
| ToastWide (enabled : bool).

(** The state the camera controls work on: [cameras],
    [currentCameraIndex], [useWideAngle], the video tracks of
    [mediaStreamRef.current] when the ref is set, whether [videoRef.current]
    is set and whether its [srcObject] was assigned by a control, and the
    toasts shown. *)
Record Cam := mkCam {
  cameras : list MediaDeviceInfo;
  currentCameraIndex : nat;
  useWideAngle : bool;
  videoTracks : option (list VideoTrack);
  videoElement : bool;
  srcAssigned : bool;
  toasts : list CameraToast
}.

Definition stopTrack (t : VideoTrack) : VideoTrack := mkTrack (request t) true.

(** [mediaStreamRef.current && videoRef.current] *)
Definition cameraShown (st : Cam) : bool :=
  bool_decide (is_Some (videoTracks st)) && videoElement st.

(** [getVideoTracks().forEach(track => track.stop())] *)
Definition stopVideoTracks (st : Cam) : Cam :=
  mkCam (cameras st) (currentCameraIndex st) (useWideAngle st)
    (map stopTrack <$> videoTracks st) (videoElement st) (srcAssigned st)
    (toasts st).

Definition toast (t : CameraToast) (st : Cam) : Cam :=
  mkCam (cameras st) (currentCameraIndex st) (useWideAngle st) (videoTracks st)
    (videoElement st) (srcAssigned st) (toasts st ++ [t]).

(** The [catch] block of [switchCamera]. *)
Definition switchCamera_rejected (st : Cam) : Cam := toast ToastSwitchFailed st.

(** [switchCamera] up to its [await]: the state, and the index and the
    request the suspended call holds when it got that far.  Reading
    [deviceId] of an entry that does not exist throws into the [catch]
    block. *)
Definition switchCamera (st : Cam) : Cam * option (nat * Constraints) :=
  if (length (cameras st) <=? 1)%nat then (st, None)
  else
    let nextIndex := ((currentCameraIndex st + 1) mod length (cameras st))%nat in
    let wide := useWideAngle st in
    let st := mkCam (cameras st) nextIndex (useWideAngle st) (videoTracks st)
                (videoElement st) (srcAssigned st) (toasts st) in
    if cameraShown st then
      let st := stopVideoTracks st in
      match cameras st !! nextIndex with
      | Some d =>
          (st, Some (nextIndex,
                     mkConstraints (Some (deviceId d)) (if wide then 1280 else 640)
                       (if wide then 720 else 480) false))
      | None => (switchCamera_rejected st, None)
      end
    else (st, None).

(** The replacement of the video track once the new stream is there:
    [removeTrack] of the first old video track, [addTrack] of the new one,
    the assignment of [srcObject]. *)
Definition replaceTrack (newVideoTrack : VideoTrack) (tracks : list VideoTrack)
    (st : Cam) : Cam :=
  mkCam (cameras st) (currentCameraIndex st) (useWideAngle st)
    (Some (tl tracks ++ [newVideoTrack])) (videoElement st)
    (srcAssigned st || videoElement st) (toasts st).

(** The rest of [switchCamera] when the request resolves; [cams] is the
    camera list the call closed over.  Reading the tracks of a ref that was
    cleared meanwhile, or the label of an entry that does not exist, throws
    into the [catch] block. *)
Definition switchCamera_resolved (cams : list MediaDeviceInfo) (nextIndex : nat)
    (newVideoTrack : VideoTrack) (st : Cam) : Cam :=
  match videoTracks st with
  | Some tracks =>
      let st := replaceTrack newVideoTrack tracks st in
      match cams !! nextIndex with
      | Some d =>
          toast (ToastSwitched
                   (if Js.truthy (deviceLabel d) then deviceLabel d
                    else "Camera " +:+ pretty (Z.of_nat nextIndex + 1))) st
      | None => switchCamera_rejected st
      end
  | None => switchCamera_rejected st
  end.

(** [toggleWideAngle] up to its [await]. *)
Definition toggleWideAngle (st : Cam) : Cam * option (bool * Constraints) :=
  let newWideAngle := negb (useWideAngle st) in
  let index := currentCameraIndex st in
  let st := mkCam (cameras st) (currentCameraIndex st) newWideAngle
              (videoTracks st) (videoElement st) (srcAssigned st) (toasts st) in
  if cameraShown st then
    (stopVideoTracks st,
     Some (newWideAngle,
           mkConstraints
             (match cameras st !! index with
              | Some d => if Js.truthy (deviceId d) then Some (deviceId d) else None
              | None => None
              end)
             (if newWideAngle then 1280 else 640)
             (if newWideAngle then 720 else 480) newWideAngle))
  else (st, None).

(** [setUseWideAngle(!newWideAngle)], the [catch] block of
    [toggleWideAngle]. *)
Definition toggleWideAngle_rejected (newWideAngle : bool) (st : Cam) : Cam :=
  mkCam (cameras st) (currentCameraIndex st) (negb newWideAngle) (videoTracks st)
    (videoElement st) (srcAssigned st) (toasts st).

(** The rest of [toggleWideAngle] when the request resolves. *)
Definition toggleWideAngle_resolved (newWideAngle : bool)
    (newVideoTrack : VideoTrack) (st : Cam) : Cam :=
  match videoTracks st with
  | Some tracks =>
      toast (ToastWide newWideAngle) (replaceTrack newVideoTrack tracks st)
  | None => toggleWideAngle_rejected newWideAngle st
  end.

(** What happens to the camera controls. *)
Inductive CamEvent :=
| PressSwitch
| SwitchResolved (cams : list MediaDeviceInfo) (nextIndex : nat)
    (newVideoTrack : VideoTrack)
| SwitchRejected
| PressWide
| WideResolved (newWideAngle : bool) (newVideoTrack : VideoTrack)
| WideRejected (newWideAngle : bool).

Definition camStep (ev : CamEvent) (st : Cam) : Cam :=
  match ev with
  | PressSwitch => fst (switchCamera st)
  | SwitchResolved cams nextIndex t => switchCamera_resolved cams nextIndex t st
  | SwitchRejected => switchCamera_rejected st
  | PressWide => fst (toggleWideAngle st)
  | WideResolved w t => toggleWideAngle_resolved w t st
  | WideRejected w => toggleWideAngle_rejected w st
  end.

Definition camRun (evs : list CamEvent) (st : Cam) : Cam :=
  fold_left (fun acc ev => camStep ev acc) evs st.

Definition isPressSwitch (ev : CamEvent) : bool :=
  match ev with
  | PressSwitch => true
  | _ => false
  end.

(** How often the switch button is pressed in a run. *)
Definition presses (evs : list CamEvent) : nat :=
  length (List.filter isPressSwitch evs).

End Camera.

(** ** What a timer card displays *)

Module TimerDisplay.
Import TimerEngine.

(** [s.padStart(2, '0')] *)
Definition padStart2 (s : string) : string :=
  match s with
  | EmptyString => "00"
  | String c EmptyString => String "0" s
  | _ => s
  end.

(** [formatTime]: [Math.floor(seconds / 60)] and [seconds % 60], each
    written in decimal and padded to two characters. *)
Definition formatTime (seconds : Z) : string :=
  let m := seconds `div` 60 in
  let s := seconds `rem` 60 in
  padStart2 (pretty m) +:+ ":" +:+ padStart2 (pretty s).

(** The large text of the card. *)
Definition cardText (timer : Timer) : string :=
  if is_finished timer then "DONE!" else formatTime (durationRemaining timer).

(** [isUrgent] *)
Definition isUrgent (timer : Timer) : bool :=
  (durationRemaining timer <? 60) && is_running timer.

End TimerDisplay.

(** ** More concrete runs *)

Module Examples.
Import TimerEngine Wire App Scenarios TimerCard RecipeCard Diagnostics Camera.

(** A two-second egg timer is created, runs out, is reset and paused. *)
Definition eggActions : list Action :=
  [ActCreate "a" "Egg" 2; ActTick; ActTick; ActPress 0 BtnReset;
   ActPress 0 BtnPause].

Definition eggPaused : Timer := mkTimer "a" "Egg" 2 2 paused.

(** A session is opened, the remote engine asks for a ten-minute pasta
    timer, and a second passes. *)
Definition pastaSession : list Event :=
  [EvConnect; EvMedia 0 true; EvOpen 0;
   EvMessage 0 (toolCallMessage [call "createTimer" "Pasta" 600]); EvTick].

Definition pastaRunning : Timer := mkTimer "a" "Pasta" 600 599 running.

(** The vision sampler starts a one-second timer, which runs out. *)
Definition quickEgg : list Event :=
  [EvVision (suggest "Egg" 1 None); EvTick].

Definition eggDone : Timer := mkTimer "a" "Egg" 1 0 finished.

(** A recipe with two steps, and a walk through it on the card. *)
Definition soup : Recipe :=
  mkRecipe "Soup" (Some ["water"; "salt"]) (Some ["Boil the water"; "Add salt"]).

Definition walk : list Input :=
  [Happens (EvSelectRecipe (Some soup)); Click Skip; Click DoneNext; Click Skip;
   Click Previous; Click (Dot 1); Click (Dot 2)].

(** Two cameras, the front one showing. *)
Definition twoCameras : Cam :=
  mkCam [mkDevice "front" "Front camera"; mkDevice "back" ""] 0 false
    (Some [mkTrack (mkConstraints None 640 480 false) false]) true true [].

Definition backTrack : VideoTrack :=
  mkTrack (mkConstraints (Some "back") 640 480 false) false.

Definition thereAndBack : list CamEvent :=
  [PressSwitch;
   SwitchResolved [mkDevice "front" "Front camera"; mkDevice "back" ""] 1 backTrack;
   PressWide; WideRejected true; PressSwitch].

(** The first activity of a session. *)
Definition hello : ModelActivity := mkActivity ActConnection "Connected" 5.

End Examples.

(** * Properties *)

(** ** Timer engine *)

Module TimerFacts.
Import TimerEngine.

Lemma is_running_true (t : Timer) : is_running t = true <-> status t = running.
Proof. unfold is_running. apply bool_decide_eq_true. Qed.

Lemma is_finished_true (t : Timer) : is_finished t = true <-> status t = finished.
Proof. unfold is_finished. apply bool_decide_eq_true. Qed.

Lemma tickTimer_not_running (t : Timer) :
  status t <> running -> tickTimer t = (t, []).
Proof.
  intros H. unfold tickTimer.
  destruct (is_running t) eqn:E; [|reflexivity].
  apply is_running_true in E. contradiction.
Qed.

(** A tick of a running timer, spelled out. *)
Lemma tickTimer_running (t : Timer) :
  status t = running ->
  fst (tickTimer t) =
    mkTimer (timerId t) (label t) (durationOriginal t)
      (Z.max 0 (durationRemaining t - 1))
      (if 0 <? durationRemaining t
       then if durationRemaining t - 1 <=? 0 then finished else running
       else running).
Proof.
  intros H. unfold tickTimer.
  assert (E : is_running t = true) by (apply is_running_true; exact H).
  rewrite E. cbn [negb].
  destruct (durationRemaining t - 1 <=? 0) eqn:E1;
    destruct (0 <? durationRemaining t) eqn:E2; cbn;
    unfold with_status, with_remaining; cbn; rewrite ?H; f_equal; lia.
Qed.

(** The tick of a list acts on each position by [tickTimer]. *)
Lemma tick_lookup (ts : list Timer) (i : nat) :
  fst (tick ts) !! i = (fun t => fst (tickTimer t)) <$> (ts !! i).
Proof.
  unfold tick. destruct (existsb is_running ts) eqn:E; cbn.
  - apply list_lookup_fmap.
  - destruct (ts !! i) as [t|] eqn:Hi; cbn; [|reflexivity].
    rewrite tickTimer_not_running; [reflexivity|].
    intros Hr. apply is_running_true in Hr.
    assert (existsb is_running ts = true); [|congruence].
    apply existsb_exists. exists t. split; [|exact Hr].
    apply list_elem_of_In. eapply list_elem_of_lookup_2. exact Hi.
Qed.

Lemma tick_length (ts : list Timer) : length (fst (tick ts)) = length ts.
Proof.
  unfold tick. destruct (existsb is_running ts); cbn; [|reflexivity].
  apply length_map.
Qed.

Lemma toggleTimer_lookup (id : string) (pause : bool) (ts : list Timer) (i : nat) :
  toggleTimer id pause ts !! i =
  (fun t => if bool_decide (timerId t = id)
            then with_status (if pause then paused else running) t else t)
    <$> (ts !! i).
Proof. apply list_lookup_fmap. Qed.

Lemma resetTimer_lookup (id : string) (ts : list Timer) (i : nat) :
  resetTimer id ts !! i =
  (fun t => if bool_decide (timerId t = id)
            then with_remaining (durationOriginal t) (with_status running t)
            else t) <$> (ts !! i).
Proof. apply list_lookup_fmap. Qed.

(** The only way into [finished] is a tick of a running timer whose
    remaining time is positive; the tick leaves it at zero. *)
Lemma finishes_at_tick (i : nat) (op : TimerOp) (ts : list Timer) :
  finishes_at i ts (applyOp op ts) = true ->
  op = OpTick /\
  exists b a, ts !! i = Some b /\ applyOp op ts !! i = Some a /\
    status b = running /\ 0 < durationRemaining b /\
    status a = finished /\ durationRemaining a = 0.
Proof.
  unfold finishes_at.
  destruct (ts !! i) as [b|] eqn:Hb; [|discriminate].
  destruct (applyOp op ts !! i) as [a|] eqn:Ha; [|discriminate].
  intros H. apply andb_true_iff in H as [Hnb Hfa].
  apply negb_true_iff in Hnb. apply is_finished_true in Hfa.
  assert (Hbf : status b <> finished).
  { intros Hf. apply is_finished_true in Hf. congruence. }
  destruct op as [|id|id|id|newId l d]; cbn [applyOp] in Ha.
  - split; [reflexivity|]. exists b, a.
    rewrite tick_lookup, Hb in Ha. cbn in Ha. injection Ha as <-.
    destruct (decide (status b = running)) as [Hr|Hr].
    + rewrite (tickTimer_running b Hr) in *. cbn in *.
      destruct (0 <? durationRemaining b) eqn:E2; [|discriminate].
      destruct (durationRemaining b - 1 <=? 0) eqn:E1; [|discriminate].
      repeat split; auto; lia.
    + rewrite (tickTimer_not_running b Hr) in Hfa. cbn in Hfa. contradiction.
  - exfalso. rewrite toggleTimer_lookup, Hb in Ha. cbn in Ha. injection Ha as <-.
    destruct (bool_decide (timerId b = id)); cbn in Hfa; [discriminate|contradiction].
  - exfalso. rewrite toggleTimer_lookup, Hb in Ha. cbn in Ha. injection Ha as <-.
    destruct (bool_decide (timerId b = id)); cbn in Hfa; [discriminate|contradiction].
  - exfalso. rewrite resetTimer_lookup, Hb in Ha. cbn in Ha. injection Ha as <-.
    destruct (bool_decide (timerId b = id)); cbn in Hfa; [discriminate|contradiction].
  - exfalso. unfold appendTimer in Ha.
    rewrite lookup_app_l in Ha by (eapply lookup_lt_Some; exact Hb).
    congruence.
Qed.

Lemma potential_le_1 (i : nat) (ts : list Timer) : (potential i ts <= 1)%nat.
Proof.
  unfold potential. destruct (ts !! i) as [t|]; [|lia].
  destruct (0 <? durationRemaining t); lia.
Qed.

(** One operation: what it adds to the finish count is paid for by the
    potential or by a reset. *)
Lemma potential_step (i : nat) (op : TimerOp) (ts : list Timer) :
  ((if finishes_at i ts (applyOp op ts) then 1 else 0)
   + potential i (applyOp op ts)
   <= (if resets_at i op ts then 1 else 0) + potential i ts)%nat.
Proof.
  destruct (finishes_at i ts (applyOp op ts)) eqn:Hf.
  - apply finishes_at_tick in Hf as (-> & b & a & Hb & Ha & _ & Hpos & _ & Hz).
    unfold potential, resets_at. rewrite Hb, Ha, Hz.
    replace (0 <? durationRemaining b) with true by (symmetry; apply Z.ltb_lt; lia).
    cbn. lia.
  - cbn [Nat.add]. destruct (resets_at i op ts) eqn:Hr.
    + pose proof (potential_le_1 i (applyOp op ts)). lia.
    + cbn [Nat.add]. unfold potential at 2.
      destruct (ts !! i) as [b|] eqn:Hb; [|apply potential_le_1].
      unfold potential.
      destruct op as [|id|id|id|newId l d]; cbn [applyOp].
      * rewrite tick_lookup, Hb. cbn.
        destruct (decide (status b = running)) as [Hs|Hs].
        -- rewrite (tickTimer_running b Hs). cbn.
           destruct (0 <? durationRemaining b) eqn:E.
           ++ destruct (0 <? Z.max 0 (durationRemaining b - 1)); lia.
           ++ replace (0 <? Z.max 0 (durationRemaining b - 1)) with false; [lia|].
              symmetry. apply Z.ltb_ge. apply Z.ltb_ge in E. lia.
        -- rewrite (tickTimer_not_running b Hs). cbn. lia.
      * rewrite toggleTimer_lookup, Hb. cbn.
        destruct (bool_decide (timerId b = id)); cbn; lia.
      * rewrite toggleTimer_lookup, Hb. cbn.
        destruct (bool_decide (timerId b = id)); cbn; lia.
      * unfold resets_at in Hr. rewrite Hb in Hr.
        rewrite resetTimer_lookup, Hb. cbn. rewrite Hr. lia.
      * unfold appendTimer.
        rewrite lookup_app_l by (eapply lookup_lt_Some; exact Hb).
        rewrite Hb. lia.
Qed.

Lemma finish_count_potential (i : nat) (ops : list TimerOp) :
  forall ts : list Timer,
    (finish_count i ops ts <= reset_count i ops ts + potential i ts)%nat.
Proof.
  induction ops as [|op rest IH]; intros ts; cbn [finish_count reset_count].
  - lia.
  - specialize (IH (applyOp op ts)).
    pose proof (potential_step i op ts). lia.
Qed.


Lemma ticks_lookup (n : nat) (ts : list Timer) (i : nat) :
  ticks n ts !! i = Nat.iter n (fun t => fst (tickTimer t)) <$> (ts !! i).
Proof.
  unfold ticks. induction n as [|n IH].
  - symmetry. apply option_fmap_id.
  - rewrite !Nat.iter_succ, tick_lookup, IH. destruct (ts !! i); reflexivity.
Qed.



End TimerFacts.

(** ** What the handlers leave alone *)

Module Frame.
Import TimerEngine Wire App.

(** Evaluation of handlers on a state whose records are spelled out. *)
Ltac eval_handlers :=
  cbv beta iota zeta delta
    [step handle onChannel onopen onclose onerror onrejected
     connectToGemini connectToGemini_resume connectToGemini_catch handleClick
     apiKeyMissing dispatchEnded onended analyzeVision_response handleSuggestion
     elapse fireTimeouts selectRecipe handleTurnComplete handleInterrupted
     handleTranscription handleAudio render visionEffect setInterval stopSession
     flushSources releaseCamera addTimer notifyCompletion appendLog toast send
     clearInterval closeContext stopTracks
     upd_ui upd_refs upd_browser
     set_isConnected set_isConnecting set_isCameraActive set_isSpeaking
     set_isListening set_isProcessing set_timers set_logs set_error
     set_currentStep set_activeRecipe
     set_timersRef set_activeRecipeRef set_currentStepRef set_nextStartTimeRef
     set_audioContextRef set_inputContextRef set_sourcesRef
     set_sessionPromiseRef set_mediaStreamRef set_videoRef set_videoIntervalRef
     set_visionIntervalRef set_recentTimerLabelsRef set_visionEffectDep
     set_nowMs set_entropy set_contexts set_nodes set_streams set_channels
     set_toasts set_timeouts set_intervals set_nextHandle set_pendingMedia
     set_ui set_refs set_browser
     apiKey ui refs browser
     isConnected isConnecting isCameraActive isSpeaking isListening isProcessing
     timers logs error currentStep activeRecipe
     timersRef activeRecipeRef currentStepRef nextStartTimeRef audioContextRef
     inputContextRef sourcesRef sessionPromiseRef mediaStreamRef videoRef
     videoIntervalRef visionIntervalRef recentTimerLabelsRef visionEffectDep
     nowMs entropy contexts nodes streams channels toasts timeouts intervals
     nextHandle pendingMedia view sched recency
     negb andb orb fst snd Bool.eqb default from_option].

(** Case analysis on whatever a handler branches on. *)
Ltac crush :=
  repeat (eval_handlers; try reflexivity;
          match goal with
          | |- context [match ?x with _ => _ end] =>
              lazymatch x with
              | context [match _ with _ => _ end] => fail
              | _ => destruct x eqn:?
              end
          end).

(** A state given by its fields. *)
Ltac open_state s :=
  destruct s as
    [key [conn cing cam spk lis prc tms lgs err stp rcp]
         [tref rref sref cur actx ictx srcs sess strm vid vint visint recent vdep]
         [now ent ctxs nds strs chans tsts touts ints nh pend]].

Ltac crush_state s := open_state s; crush.

(** The same, split on the refs that [stopSession] branches on. *)
Ltac teardown_cases s :=
  destruct s as
    [key [conn cing cam spk lis prc tms lgs err stp rcp]
         [tref rref sref cur [actx|] [ictx|] srcs sess [strm|] [vid|]
            [vint|] [visint|] recent vdep]
         [now ent ctxs nds strs chans tsts touts ints nh pend]].

(** The same, split on what [render] branches on. *)
Ltac render_cases s :=
  destruct s as
    [key [[|] cing [|] spk lis prc tms lgs err stp rcp]
         [tref rref sref cur actx ictx srcs sess strm [vid|]
            vint [visint|] recent [|]]
         [now ent ctxs nds strs chans tsts touts ints nh pend]].

Lemma run_nil (s : State) : run [] s = s.
Proof. reflexivity. Qed.

Lemma run_cons (ev : Event) (evs : list Event) (s : State) :
  run (ev :: evs) s = run evs (step ev s).
Proof. reflexivity. Qed.

Lemma run_snoc (evs : list Event) (ev : Event) (s : State) :
  run (evs ++ [ev]) s = step ev (run evs s).
Proof. unfold run. rewrite fold_left_app. reflexivity. Qed.

Lemma ui_render (s : State) : ui (render s) = ui s.
Proof. render_cases s; reflexivity. Qed.

Lemma browser_toast (t : Toast) (s : State) :
  browser (toast t s) = set_toasts (toasts (browser s) ++ [t]) (browser s).
Proof. reflexivity. Qed.

Lemma ui_toast (t : Toast) (s : State) : ui (toast t s) = ui s.
Proof. reflexivity. Qed.

Lemma refs_toast (t : Toast) (s : State) : refs (toast t s) = refs s.
Proof. reflexivity. Qed.

Lemma ui_send (c : nat) (o : Outbound) (s : State) : ui (send c o s) = ui s.
Proof. reflexivity. Qed.

Lemma refs_send (c : nat) (o : Outbound) (s : State) : refs (send c o s) = refs s.
Proof. reflexivity. Qed.

Lemma ui_notifyCompletion (t : Timer) (s : State) :
  ui (notifyCompletion t s) = ui s.
Proof. crush_state s. Qed.

Lemma ui_notifyCompletions (l : list Timer) :
  forall s : State, ui (fold_left (fun acc t => notifyCompletion t acc) l s) = ui s.
Proof.
  induction l as [|t l IH]; intros s; cbn; [reflexivity|].
  rewrite IH. apply ui_notifyCompletion.
Qed.

(** The tick callback changes the timer list by [tick] and nothing else
    of the React state. *)
Lemma ui_onTick (s : State) :
  ui (onTick s) = set_timers (fst (tick (timers (ui s)))) (ui s).
Proof.
  unfold onTick. destruct (tick (timers (ui s))) as [next completed].
  rewrite ui_notifyCompletions. reflexivity.
Qed.



End Frame.

(** ** Claims about the timer engine *)

Module TimerClaims.
Import TimerEngine Wire App TimerFacts Frame Scenarios.

(** C5, as the claim states it, fails: a timer that has finished and is
    reset finishes a second time. *)
Lemma finished_twice_after_reset :
  ~ (finish_count 0 [OpTick; OpReset "t1"; OpTick] [egg] <= 1)%nat.
Proof. vm_compute. lia. Qed.

(** C5 (amended).  Along every sequence of tick, pause, resume, reset and
    create operations, a timer enters [finished] at most once more than it
    is reset, and it enters [finished] only by a tick that finds it running
    with a positive remaining time and leaves it with remaining time 0. *)
Theorem finished_once_per_reset (i : nat) (ops : list TimerOp) (ts : list Timer) :
  (finish_count i ops ts <= 1 + reset_count i ops ts)%nat /\
  forall op : TimerOp,
    finishes_at i ts (applyOp op ts) = true ->
    op = OpTick /\
    exists b a, ts !! i = Some b /\ applyOp op ts !! i = Some a /\
      status b = running /\ 0 < durationRemaining b /\
      status a = finished /\ durationRemaining a = 0.
Proof.
  split.
  - pose proof (finish_count_potential i ops ts).
    pose proof (potential_le_1 i ts). lia.
  - intros op. apply finishes_at_tick.
Qed.

Lemma finished_once_per_reset_witness :
  finishes_at 0 [egg] (applyOp OpTick [egg]) = true /\
  (finish_count 0 [OpTick; OpTick] [egg] <= 1 + reset_count 0 [OpTick; OpTick] [egg])%nat /\
  exists b a, [egg] !! 0%nat = Some b /\ applyOp OpTick [egg] !! 0%nat = Some a /\
    status b = running /\ 0 < durationRemaining b /\
    status a = finished /\ durationRemaining a = 0.
Proof.
  split; [reflexivity|]. split.
  - apply (finished_once_per_reset 0 [OpTick; OpTick] [egg]).
  - apply (proj2 (finished_once_per_reset 0 [] [egg]) OpTick). reflexivity.
Defined.

(** C6, as the claim states it, fails for a running timer whose remaining
    time is negative: the tick raises it to 0. *)
Lemma tick_raises_negative_remaining :
  timers (ui owedState) = [owed] /\ status owed = running /\
  exists t', timers (ui (step EvTick owedState)) = [t'] /\
    ~ (durationRemaining t' <= durationRemaining owed).
Proof.
  split; [reflexivity|]. split; [reflexivity|].
  exists (with_remaining 0 owed). split; [reflexivity|].
  vm_compute. intros H. apply H. reflexivity.
Qed.

(** C6 (amended).  A tick replaces the remaining time of every running
    timer by [max 0 (remaining - 1)] and leaves every paused or finished
    timer as it is; so the remaining time of a timer that is not negative
    does not grow under a tick, and only a running timer's changes. *)
Theorem tick_decrements_running_only (ts : list Timer) (i : nat) (t : Timer) :
  ts !! i = Some t ->
  exists t', fst (tick ts) !! i = Some t' /\
    (status t = running ->
       durationRemaining t' = Z.max 0 (durationRemaining t - 1) /\
       timerId t' = timerId t /\ label t' = label t /\
       durationOriginal t' = durationOriginal t) /\
    (status t <> running -> t' = t) /\
    (0 <= durationRemaining t -> durationRemaining t' <= durationRemaining t).
Proof.
  intros Hi. exists (fst (tickTimer t)). split.
  - rewrite tick_lookup, Hi. reflexivity.
  - destruct (decide (status t = running)) as [Hr|Hr].
    + rewrite (tickTimer_running t Hr). cbn. repeat split; try lia; contradiction.
    + rewrite (tickTimer_not_running t Hr). cbn.
      repeat split; try lia; try contradiction; reflexivity.
Qed.

Lemma tick_decrements_running_only_witness :
  [egg; with_status paused egg] !! 0%nat = Some egg /\
  exists t', fst (tick [egg; with_status paused egg]) !! 0%nat = Some t' /\
    (status egg = running ->
       durationRemaining t' = Z.max 0 (durationRemaining egg - 1) /\
       timerId t' = timerId egg /\ label t' = label egg /\
       durationOriginal t' = durationOriginal egg) /\
    (status egg <> running -> t' = egg) /\
    (0 <= durationRemaining egg -> durationRemaining t' <= durationRemaining egg).
Proof.
  split; [reflexivity|].
  apply (tick_decrements_running_only [egg; with_status paused egg] 0 egg).
  reflexivity.
Defined.

End TimerClaims.

(** ** Claims about timers created through the tool dispatcher *)

Module CreateTimerClaims.
Import TimerEngine Wire App TimerFacts Frame Scenarios.

Lemma timers_addTimer (l : string) (d : Z) (r : option string) (s : State) :
  timers (ui (addTimer l d r s)) =
  timers (ui s) ++ [newTimer (hd EmptyString (entropy (browser s))) l d].
Proof. reflexivity. Qed.




End CreateTimerClaims.

(** ** The tool dispatcher *)

Module DispatchFacts.
Import TimerEngine Wire App Frame.

Lemma refs_appendLog (txt : string) (s : State) : refs (appendLog txt s) = refs s.
Proof. reflexivity. Qed.

Lemma channels_appendLog (txt : string) (s : State) :
  channels (browser (appendLog txt s)) = channels (browser s).
Proof. reflexivity. Qed.

(** Resolving a call touches neither the refs nor the channels. *)
Lemma resolveCall_frame (fc : FunctionCall) (s : State) :
  refs (fst (resolveCall fc s)) = refs s /\
  channels (browser (fst (resolveCall fc s))) = channels (browser s).
Proof.
  unfold resolveCall.
  repeat (match goal with
          | |- context [bool_decide ?P] => destruct (bool_decide P)
          | |- context [match ?x with _ => _ end] => destruct x
          end); split; reflexivity.
Qed.

(** A name that is none of the four tools falls through every branch. *)
Lemma resolveCall_unknown (fc : FunctionCall) (s : State) :
  callName fc ∉ ["createTimer"; "getTimers"; "logObservation"; "getActiveRecipe"] ->
  resolveCall fc s = (s, ResultText "ok").
Proof.
  intros H. unfold resolveCall.
  rewrite !bool_decide_eq_false_2; [reflexivity| | | |];
    intros E; apply H; rewrite E; set_solver.
Qed.

Lemma resolveCall_createTimer (id : string) (a : Args) (s : State) :
  resolveCall (mkFunctionCall id "createTimer" a) s =
  (addTimer (argLabel a) (argDurationSeconds a) None s,
   ResultText (timerSetText (argLabel a) (argDurationSeconds a))).
Proof. reflexivity. Qed.

Lemma resolveCall_getTimers (id : string) (a : Args) (s : State) :
  resolveCall (mkFunctionCall id "getTimers" a) s =
  (s, ResultTimers (timersRef (refs s))).
Proof. reflexivity. Qed.

Lemma resolveCall_getActiveRecipe (id : string) (a : Args) (s : State) :
  fst (resolveCall (mkFunctionCall id "getActiveRecipe" a) s) = s.
Proof.
  change (fst (let step := currentStepRef (refs s) in
               match activeRecipeRef (refs s) with
               | Some recipe =>
                   (s, ResultRecipe (title recipe) (ingredients recipe)
                         (instructions recipe) (Z.of_nat step + 1)
                         (default EmptyString
                            (instructions recipe ≫= (fun l => l !! step)))
                         (from_option length 0%nat (instructions recipe)))
               | None => (s, ResultText "No active recipe selected")
               end) = s).
  cbn zeta. destruct (activeRecipeRef (refs s)); reflexivity.
Qed.

Lemma dispatchCall_eq (fc : FunctionCall) (s : State) (rs : list FunctionResponse) :
  dispatchCall fc (s, rs) =
  (fst (resolveCall fc s),
   rs ++ [mkFunctionResponse (callId fc) (callName fc) (snd (resolveCall fc s))]).
Proof. unfold dispatchCall. cbn [fst snd]. destruct (resolveCall fc s). reflexivity. Qed.

(** The dispatch loop: the refs and the channels are as before, and the
    responses pushed are, position by position, the resolved calls with
    their identifiers and names. *)
Lemma dispatch_loop (calls : list FunctionCall) :
  forall (s : State) (rs : list FunctionResponse),
    let r := fold_left (fun acc fc => dispatchCall fc acc) calls (s, rs) in
    refs (fst r) = refs s /\
    channels (browser (fst r)) = channels (browser s) /\
    exists new, snd r = rs ++ new /\ length new = length calls /\
      map respId new = map callId calls /\
      map respName new = map callName calls /\
      forall i fc, calls !! i = Some fc ->
        exists s_i, refs s_i = refs s /\
          new !! i = Some (mkFunctionResponse (callId fc) (callName fc)
                             (snd (resolveCall fc s_i))).
Proof.
  induction calls as [|fc calls IH]; intros s rs; cbn zeta.
  - cbn. repeat split; try reflexivity. exists []. rewrite app_nil_r.
    repeat split; try reflexivity. intros i fc H. discriminate.
  - cbn [fold_left]. rewrite dispatchCall_eq.
    destruct (resolveCall fc s) as [s1 result] eqn:E. cbn [fst snd].
    pose proof (resolveCall_frame fc s) as [Hr Hc]. rewrite E in Hr, Hc.
    cbn [fst] in Hr, Hc.
    specialize (IH s1 (rs ++ [mkFunctionResponse (callId fc) (callName fc) result])).
    cbn zeta in IH. destruct IH as (IH1 & IH2 & new & Hnew & Hlen & Hids & Hnames & Hall).
    split; [rewrite IH1; exact Hr|]. split; [rewrite IH2; exact Hc|].
    exists (mkFunctionResponse (callId fc) (callName fc) result :: new).
    split; [rewrite Hnew, <- app_assoc; reflexivity|].
    split; [cbn; congruence|]. split; [cbn; congruence|]. split; [cbn; congruence|].
    intros [|i] fc' H; cbn in H.
    + injection H as <-. exists s. split; [reflexivity|]. rewrite E. reflexivity.
    + destruct (Hall i fc' H) as (s_i & Hs & Hl). exists s_i. split; [congruence|exact Hl].
Qed.

(** The tool-call branch writes one message to the channel of the
    notification and nothing to any other channel. *)
Lemma handleToolCall_sends (c : nat) (calls : list FunctionCall) (s : State)
    (ch : Channel) :
  channels (browser s) !! c = Some ch ->
  channels (browser (handleToolCall c calls s)) =
    <[c := mkChannel (outputCtx ch) (sent ch ++ [ToolResponse (batchResponses calls s)])]>
      (channels (browser s)) /\
  refs (handleToolCall c calls s) = refs s.
Proof.
  intros Hch. unfold handleToolCall, batchResponses, dispatchAll.
  pose proof (dispatch_loop calls
                (upd_ui (fun u => set_isListening false (set_isProcessing true u)) s) [])
    as H. cbn zeta in H.
  destruct (fold_left _ calls _) as [s1 responses].
  cbn [fst snd] in H. destruct H as (Hr & Hc & _).
  split; [|exact Hr].
  cbn. rewrite Hc. cbn. apply list_eq. intros j.
  destruct (decide (j = c)) as [->|Hne].
  - rewrite list_lookup_alter_eq, Hch. cbn.
    rewrite list_lookup_insert_eq by (eapply lookup_lt_Some; exact Hch). reflexivity.
  - rewrite list_lookup_alter_ne by congruence.
    rewrite list_lookup_insert_ne by congruence. reflexivity.
Qed.

(** The responses of a batch, position by position. *)
Lemma batchResponses_spec (calls : list FunctionCall) (s : State) :
  length (batchResponses calls s) = length calls /\
  map respId (batchResponses calls s) = map callId calls /\
  map respName (batchResponses calls s) = map callName calls /\
  forall i fc, calls !! i = Some fc ->
    exists s_i, refs s_i = refs s /\
      batchResponses calls s !! i =
      Some (mkFunctionResponse (callId fc) (callName fc) (snd (resolveCall fc s_i))).
Proof.
  unfold batchResponses, dispatchAll.
  pose proof (dispatch_loop calls
                (upd_ui (fun u => set_isListening false (set_isProcessing true u)) s) [])
    as H. cbn zeta in H.
  destruct H as (_ & _ & new & Hnew & Hlen & Hids & Hnames & Hall).
  cbn [app] in Hnew. rewrite Hnew. repeat split; assumption.
Qed.

Lemma timersRef_render (s : State) : timersRef (refs (render s)) = timers (ui s).
Proof. render_cases s; reflexivity. Qed.

End DispatchFacts.

(** ** Claims about the tool dispatcher *)

Module DispatchClaims.
Import TimerEngine Wire App Frame DispatchFacts Scenarios.

(** The dispatch of a batch.  For a batch delivered in one notification
    the branch writes exactly one message to the channel, with one response
    per invocation, in order, each carrying the identifier and name of its
    call.  For a batch [createTimer, getTimers, getActiveRecipe] there are
    three responses; the one for [getTimers] is read from [timersRef], and
    the timer made by [createTimer] is in the timer state after the batch and
    in [timersRef] after the render that follows. *)
Theorem tool_batch_round_trip (s : State) (c : nat) (ch : Channel)
    (calls : list FunctionCall) :
  channels (browser s) !! c = Some ch ->
  channels (browser (handleToolCall c calls s)) =
    <[c := mkChannel (outputCtx ch) (sent ch ++ [ToolResponse (batchResponses calls s)])]>
      (channels (browser s)) /\
  length (batchResponses calls s) = length calls /\
  map respId (batchResponses calls s) = map callId calls /\
  map respName (batchResponses calls s) = map callName calls /\
  forall (id1 id2 id3 : string) (a1 a2 a3 : Args),
    calls = [mkFunctionCall id1 "createTimer" a1; mkFunctionCall id2 "getTimers" a2;
             mkFunctionCall id3 "getActiveRecipe" a3] ->
    let created := newTimer (hd EmptyString (entropy (browser s)))
                     (argLabel a1) (argDurationSeconds a1) in
    exists r1 r3,
      batchResponses calls s =
        [mkFunctionResponse id1 "createTimer" r1;
         mkFunctionResponse id2 "getTimers" (ResultTimers (timersRef (refs s)));
         mkFunctionResponse id3 "getActiveRecipe" r3] /\
      timers (ui (handleToolCall c calls s)) = timers (ui s) ++ [created] /\
      timersRef (refs (render (handleToolCall c calls s))) = timers (ui s) ++ [created].
Proof.
  intros Hch.
  destruct (handleToolCall_sends c calls s ch Hch) as [Hsend _].
  destruct (batchResponses_spec calls s) as (Hlen & Hids & Hnames & _).
  repeat (split; [assumption|]).
  intros id1 id2 id3 a1 a2 a3 -> created.
  assert (Ht : timers (ui (handleToolCall c
                 [mkFunctionCall id1 "createTimer" a1; mkFunctionCall id2 "getTimers" a2;
                  mkFunctionCall id3 "getActiveRecipe" a3] s))
               = timers (ui s) ++ [created]).
  { unfold handleToolCall, dispatchAll. cbn [fold_left]. rewrite !dispatchCall_eq.
    rewrite resolveCall_createTimer. cbn [fst snd].
    rewrite resolveCall_getTimers. cbn [fst snd].
    destruct (resolveCall (mkFunctionCall id3 "getActiveRecipe" a3) _) as [s3 r3] eqn:E.
    pose proof (resolveCall_getActiveRecipe id3 a3
                  (addTimer (argLabel a1) (argDurationSeconds a1) None
                     (upd_ui (fun u => set_isListening false (set_isProcessing true u)) s)))
      as H3.
    rewrite E in H3. cbn [fst] in H3. subst s3. reflexivity. }
  unfold batchResponses, dispatchAll. cbn [fold_left]. rewrite !dispatchCall_eq.
  rewrite resolveCall_createTimer. cbn [fst snd].
  rewrite resolveCall_getTimers. cbn [fst snd].
  eexists _, _. split; [|split].
  - reflexivity.
  - exact Ht.
  - rewrite timersRef_render. exact Ht.
Qed.

Lemma tool_batch_round_trip_witness :
  channels (browser connected) !! 0%nat = Some (mkChannel 1 []) /\
  length (batchResponses roundTrip connected) = length roundTrip /\
  map respId (batchResponses roundTrip connected) = map callId roundTrip.
Proof.
  assert (Hc : channels (browser connected) !! 0%nat = Some (mkChannel 1 []))
    by (vm_compute; reflexivity).
  split; [exact Hc|].
  pose proof (tool_batch_round_trip connected 0 (mkChannel 1 []) roundTrip Hc)
    as (_ & Hlen & Hids & _).
  split; [exact Hlen|exact Hids].
Defined.

(** C3.  The code at the failing input: the batch [createTimer "Pasta"
    600], [getTimers], [getActiveRecipe] arrives in one notification on the
    open channel of a session without timers.  One message with three
    responses is written, each with the identifier and name of its call.  The
    response to [createTimer] says that the timer is set; the response to
    [getTimers] holds no timer, since it is read from [timersRef], which the
    handler leaves as it was; the Pasta timer is in the timer state when the
    handler returns, and in [timersRef] only after the render that
    follows. *)
Lemma getTimers_misses_timer_of_same_batch :
  let answered := handle (EvMessage 0 (toolCallMessage roundTrip)) connected in
  timers (ui connected) = [] /\
  channels (browser answered) =
    [mkChannel 1
       [ToolResponse
          [mkFunctionResponse "call-createTimer" "createTimer"
             (ResultText "Timer 'Pasta' set for 600s");
           mkFunctionResponse "call-getTimers" "getTimers" (ResultTimers []);
           mkFunctionResponse "call-getActiveRecipe" "getActiveRecipe"
             (ResultText "No active recipe selected")]]] /\
  timers (ui answered) = [newTimer "a" "Pasta" 600] /\
  timersRef (refs answered) = [] /\
  timersRef (refs (render answered)) = [newTimer "a" "Pasta" 600].
Proof. vm_compute. repeat split; reflexivity. Qed.

(** C9.  A call whose name is none of [createTimer], [getTimers],
    [logObservation], [getActiveRecipe] resolves to [{result: "ok"}] without
    changing anything, and that response, with the identifier and name of
    the call, is at the call's position in the one message sent for the
    batch. *)
Theorem unknown_tool_resolves_ok (s : State) (c : nat) (ch : Channel)
    (calls : list FunctionCall) (i : nat) (fc : FunctionCall) :
  channels (browser s) !! c = Some ch ->
  calls !! i = Some fc ->
  callName fc ∉ ["createTimer"; "getTimers"; "logObservation"; "getActiveRecipe"] ->
  (forall s' : State, resolveCall fc s' = (s', ResultText "ok")) /\
  channels (browser (handleToolCall c calls s)) !! c =
    Some (mkChannel (outputCtx ch)
            (sent ch ++ [ToolResponse (batchResponses calls s)])) /\
  length (batchResponses calls s) = length calls /\
  batchResponses calls s !! i =
    Some (mkFunctionResponse (callId fc) (callName fc) (ResultText "ok")).
Proof.
  intros Hch Hi Hname.
  split; [intros s'; apply resolveCall_unknown; exact Hname|].
  destruct (handleToolCall_sends c calls s ch Hch) as [Hsend _].
  destruct (batchResponses_spec calls s) as (Hlen & _ & _ & Hall).
  split; [|split; [exact Hlen|]].
  - rewrite Hsend. apply list_lookup_insert_eq. eapply lookup_lt_Some. exact Hch.
  - destruct (Hall i fc Hi) as (s_i & _ & Hl). rewrite Hl.
    rewrite (resolveCall_unknown fc s_i Hname). reflexivity.
Qed.

Lemma unknown_tool_resolves_ok_witness :
  channels (browser connected) !! 0%nat = Some (mkChannel 1 []) /\
  [call "getTimers" "" 0; call "setOven" "" 0] !! 1%nat = Some (call "setOven" "" 0) /\
  (callName (call "setOven" "" 0)
     ∉ ["createTimer"; "getTimers"; "logObservation"; "getActiveRecipe"]) /\
  batchResponses [call "getTimers" "" 0; call "setOven" "" 0] connected !! 1%nat =
    Some (mkFunctionResponse (callId (call "setOven" "" 0))
            (callName (call "setOven" "" 0)) (ResultText "ok")).
Proof.
  assert (Hc : channels (browser connected) !! 0%nat = Some (mkChannel 1 []))
    by (vm_compute; reflexivity).
  assert (Hn : callName (call "setOven" "" 0)
                 ∉ ["createTimer"; "getTimers"; "logObservation"; "getActiveRecipe"]).
  { intros H. repeat (apply elem_of_cons in H as [H|H]; [discriminate H|]).
    apply elem_of_nil in H. exact H. }
  split; [exact Hc|]. split; [reflexivity|]. split; [exact Hn|].
  apply (unknown_tool_resolves_ok connected 0 (mkChannel 1 [])
           [call "getTimers" "" 0; call "setOven" "" 0] 1 (call "setOven" "" 0)
           Hc eq_refl Hn).
Defined.

End DispatchClaims.


(** ** What the handlers do to the connection view *)

Module ViewFacts.
Import TimerEngine Wire App Frame DispatchFacts.

Ltac view_eq :=
  eval_handlers; rewrite ?length_alter, ?length_insert; try reflexivity.

Lemma view_render (s : State) : view (render s) = view s.
Proof. render_cases s; reflexivity. Qed.

Lemma view_toast (t : Toast) (s : State) : view (toast t s) = view s.
Proof. reflexivity. Qed.

Lemma view_send (c : nat) (o : Outbound) (s : State) : view (send c o s) = view s.
Proof. open_state s. view_eq. Qed.

Lemma view_appendLog (txt : string) (s : State) : view (appendLog txt s) = view s.
Proof. reflexivity. Qed.

Lemma view_addTimer (l : string) (d : Z) (r : option string) (s : State) :
  view (addTimer l d r s) = view s.
Proof. reflexivity. Qed.

Lemma view_notifyCompletion (t : Timer) (s : State) :
  view (notifyCompletion t s) = view s.
Proof. open_state s. destruct sess; view_eq. Qed.

Lemma view_onTick (s : State) : view (onTick s) = view s.
Proof.
  unfold onTick. destruct (tick (timers (ui s))) as [next completed].
  assert (H : forall l s0, view (fold_left (fun acc t => notifyCompletion t acc) l s0)
                           = view s0).
  { induction l as [|t l IH]; intros s0; cbn; [reflexivity|].
    rewrite IH. apply view_notifyCompletion. }
  rewrite H. reflexivity.
Qed.

(** Teardown closes no channel and forgets no suspended call; it lowers
    both connection flags and leaves the cursor. *)
Lemma view_stopSession (keepCamera : bool) (s : State) :
  view (stopSession keepCamera s) =
  (apiKey s, false, false, length (channels (browser s)),
   length (pendingMedia (browser s)), nextStartTimeRef (refs s)).
Proof. teardown_cases s; destruct keepCamera; reflexivity. Qed.

Lemma view_onopen (s : State) :
  view (onopen s) =
  (apiKey s, false, true, length (channels (browser s)),
   length (pendingMedia (browser s)), nextStartTimeRef (refs s)).
Proof. reflexivity. Qed.

Lemma view_onclose (s : State) :
  view (onclose s) =
  (apiKey s, false, false, length (channels (browser s)),
   length (pendingMedia (browser s)), nextStartTimeRef (refs s)).
Proof. unfold onclose. rewrite view_stopSession. reflexivity. Qed.

Lemma view_onerror (s : State) :
  view (onerror s) =
  (apiKey s, false, false, length (channels (browser s)),
   length (pendingMedia (browser s)), nextStartTimeRef (refs s)).
Proof. unfold onerror. rewrite view_stopSession. reflexivity. Qed.

Lemma view_onrejected (s : State) :
  view (onrejected s) =
  (apiKey s, false, false, length (channels (browser s)),
   length (pendingMedia (browser s)), nextStartTimeRef (refs s)).
Proof. unfold onrejected. rewrite view_stopSession. reflexivity. Qed.

Lemma view_handleTurnComplete (s : State) : view (handleTurnComplete s) = view s.
Proof. reflexivity. Qed.

Lemma view_handleTranscription (prefix : string) (t : option string) (s : State) :
  view (handleTranscription prefix t s) = view s.
Proof. unfold handleTranscription. destruct t as [txt|]; [destruct (Js.truthy txt)|]; reflexivity. Qed.

Lemma view_resolveCall (fc : FunctionCall) (s : State) :
  view (fst (resolveCall fc s)) = view s.
Proof.
  unfold resolveCall.
  repeat (match goal with
          | |- context [bool_decide ?P] => destruct (bool_decide P)
          | |- context [match ?x with _ => _ end] => destruct x
          end); reflexivity.
Qed.

Lemma view_dispatch (calls : list FunctionCall) :
  forall (s : State) (rs : list FunctionResponse),
    view (fst (fold_left (fun acc fc => dispatchCall fc acc) calls (s, rs))) = view s.
Proof.
  induction calls as [|fc calls IH]; intros s rs; [reflexivity|].
  cbn [fold_left]. rewrite dispatchCall_eq, IH. apply view_resolveCall.
Qed.

Lemma view_handleToolCall (c : nat) (calls : list FunctionCall) (s : State) :
  view (handleToolCall c calls s) = view s.
Proof.
  unfold handleToolCall, dispatchAll.
  pose proof (view_dispatch calls
                (upd_ui (fun u => set_isListening false (set_isProcessing true u)) s) [])
    as H.
  destruct (fold_left _ calls _) as [s1 responses]. cbn [fst] in H.
  rewrite view_send, H. reflexivity.
Qed.

Lemma view_dispatchEnded (n : nat) (s : State) : view (dispatchEnded n s) = view s.
Proof.
  unfold dispatchEnded. destruct (ended_due n (browser s)); [|reflexivity].
  unfold onended.
  match goal with |- context [bool_decide ?P] => destruct (bool_decide P) end;
    reflexivity.
Qed.

Lemma view_analyzeVision_response (data : VisionData) (s : State) :
  view (analyzeVision_response data s) = view s.
Proof.
  unfold analyzeVision_response.
  assert (H : forall sg s0, view (handleSuggestion sg s0) = view s0).
  { intros sg s0. unfold handleSuggestion.
    match goal with |- context [if ?b then _ else _] => destruct b end;
      [|reflexivity].
    destruct (sugReason sg) as [r|]; [destruct (Js.truthy r)|]; reflexivity. }
  destruct (timerSuggestion data) as [sg|]; [rewrite H|];
    (destruct (description data) as [d|]; [destruct (Js.truthy d)|]); reflexivity.
Qed.

Lemma view_elapse (ms : Z) (s : State) : view (elapse ms s) = view s.
Proof. reflexivity. Qed.

Lemma view_selectRecipe (r : option Recipe) (s : State) :
  view (selectRecipe r s) = view s.
Proof. open_state s. destruct sess, r; view_eq. Qed.

End ViewFacts.

(** ** The playback scheduler *)

Module PlaybackFacts.
Import TimerEngine Wire App Frame DispatchFacts ViewFacts.

Lemma cursor_of_view (a : State) (k : option string) (b1 b2 : bool) (n m : nat)
    (c : Z) :
  view a = (k, b1, b2, n, m, c) -> nextStartTimeRef (refs a) = c.
Proof. unfold view. intros H. injection H. auto. Qed.

Lemma cursor_resume (k : nat) (video : bool) (s : State) :
  nextStartTimeRef (refs (connectToGemini_resume k video s))
  = nextStartTimeRef (refs s).
Proof.
  unfold connectToGemini_resume.
  destruct (pendingMedia (browser s) !! k) as [pc|]; [|reflexivity].
  destruct (pcResumed pc); [reflexivity|].
  open_state s. destruct video, vid; reflexivity.
Qed.

Lemma cursor_catch (k : nat) (s : State) :
  nextStartTimeRef (refs (connectToGemini_catch k s)) = nextStartTimeRef (refs s).
Proof.
  unfold connectToGemini_catch.
  destruct (pendingMedia (browser s) !! k) as [pc|]; [|reflexivity].
  destruct (pcResumed pc); [reflexivity|].
  erewrite cursor_of_view by apply view_stopSession. reflexivity.
Qed.

(** A message that carries neither an interruption nor audio leaves the
    connection view as it is. *)
Lemma view_onmessage_quiet (c : nat) (msg : LiveServerMessage) (s : State) :
  interrupted msg = false -> audioData msg = None ->
  view (onmessage c msg s) = view s.
Proof.
  intros Hi Ha. unfold onmessage.
  destruct (channels (browser s) !! c); [|reflexivity].
  rewrite Hi, Ha.
  destruct (toolCall msg) as [calls|]; [rewrite view_handleToolCall|];
    rewrite !view_handleTranscription; destruct (turnComplete msg); reflexivity.
Qed.

(** An event that is neither an interruption nor an audio chunk nor a
    request to connect leaves the cursor where it is. *)
Lemma cursor_step (ev : Event) (s : State) :
  keepsCursor ev = true ->
  nextStartTimeRef (refs (step ev s)) = nextStartTimeRef (refs s).
Proof.
  intros H. unfold step.
  erewrite (cursor_of_view (render _)) by (rewrite view_render; reflexivity).
  destruct ev; try discriminate H; cbn [handle]; unfold onChannel;
    try (destruct (channels (browser s) !! c); [|reflexivity]).
  - erewrite cursor_of_view by apply view_onTick. reflexivity.
  - erewrite cursor_of_view by apply view_stopSession. reflexivity.
  - apply cursor_resume.
  - apply cursor_catch.
  - reflexivity.
  - cbn [keepsCursor] in H. apply andb_true_iff in H as [Hi Ha].
    apply negb_true_iff in Hi. apply negb_true_iff in Ha.
    destruct (audioData msg) as [d|] eqn:Hd.
    { exfalso. rewrite bool_decide_eq_true_2 in Ha by (eexists; reflexivity).
      discriminate. }
    erewrite cursor_of_view by (apply view_onmessage_quiet; assumption).
    reflexivity.
  - erewrite cursor_of_view by apply view_onclose. reflexivity.
  - erewrite cursor_of_view by apply view_onerror. reflexivity.
  - erewrite cursor_of_view by apply view_onrejected. reflexivity.
  - erewrite cursor_of_view by apply view_dispatchEnded. reflexivity.
  - erewrite cursor_of_view by apply view_analyzeVision_response. reflexivity.
  - destruct (0 <=? ms); reflexivity.
  - reflexivity.
  - reflexivity.
  - reflexivity.
  - erewrite cursor_of_view by apply view_selectRecipe. reflexivity.
  - reflexivity.
Qed.

Lemma cursor_run (evs : list Event) :
  forall s : State,
    forallb keepsCursor evs = true ->
    nextStartTimeRef (refs (run evs s)) = nextStartTimeRef (refs s).
Proof.
  induction evs as [|ev evs IH]; intros s H; [reflexivity|].
  cbn in H. apply andb_true_iff in H as [H1 H2].
  cbn [run fold_left]. fold (run evs (step ev s)).
  rewrite (IH _ H2). apply cursor_step. exact H1.
Qed.

(** Scheduling one decoded buffer: it is started at the cursor, snapped
    forward to the clock if the cursor is behind, and the cursor moves on by
    the buffer's duration. *)
Lemma handleAudio_spec (out : nat) (d : Z) (s : State) :
  let now := readCurrentTime out (browser s) in
  let start := Z.max (nextStartTimeRef (refs s)) now in
  nodes (browser (handleAudio out d s)) =
    nodes (browser s) ++ [mkBufferSource out start d false false] /\
  nextStartTimeRef (refs (handleAudio out d s)) = start + d /\
  sourcesRef (refs (handleAudio out d s)) =
    {[length (nodes (browser s))]} ∪ sourcesRef (refs s) /\
  contexts (browser (handleAudio out d s)) = contexts (browser s).
Proof.
  cbn zeta. unfold handleAudio. cbn.
  destruct (nextStartTimeRef (refs s) <? readCurrentTime out (browser s)) eqn:E; cbn.
  - apply Z.ltb_lt in E. rewrite Z.max_r by lia. repeat split; reflexivity.
  - apply Z.ltb_ge in E. rewrite Z.max_l by lia. repeat split; reflexivity.
Qed.

Lemma sched_render (s : State) : sched (render s) = sched s.
Proof. render_cases s; reflexivity. Qed.

Lemma sched_handleTranscription (prefix : string) (t : option string) (s : State) :
  sched (handleTranscription prefix t s) = sched s.
Proof.
  unfold handleTranscription.
  destruct t as [txt|]; [destruct (Js.truthy txt)|]; reflexivity.
Qed.

Lemma sched_resolveCall (fc : FunctionCall) (s : State) :
  sched (fst (resolveCall fc s)) = sched s.
Proof.
  unfold resolveCall.
  repeat (match goal with
          | |- context [bool_decide ?P] => destruct (bool_decide P)
          | |- context [match ?x with _ => _ end] => destruct x
          end); reflexivity.
Qed.

Lemma sched_handleToolCall (c : nat) (calls : list FunctionCall) (s : State) :
  sched (handleToolCall c calls s) = sched s.
Proof.
  unfold handleToolCall, dispatchAll.
  assert (H : forall l s0 rs,
             sched (fst (fold_left (fun acc fc => dispatchCall fc acc) l (s0, rs)))
             = sched s0).
  { induction l as [|fc l IH]; intros s0 rs; [reflexivity|].
    cbn [fold_left]. rewrite dispatchCall_eq, IH. apply sched_resolveCall. }
  specialize (H calls
    (upd_ui (fun u => set_isListening false (set_isProcessing true u)) s) []).
  destruct (fold_left _ calls _) as [s1 responses]. cbn [fst] in H.
  change (sched s1 = sched s). rewrite H. reflexivity.
Qed.

(** An interruption keeps every node in its place and touches no clock. *)
Lemma handleInterrupted_frame (s : State) :
  length (nodes (browser (handleInterrupted s))) = length (nodes (browser s)) /\
  contexts (browser (handleInterrupted s)) = contexts (browser s).
Proof.
  split; [|reflexivity]. unfold handleInterrupted, flushSources, stopAll. cbn.
  apply length_imap.
Qed.

Lemma readCurrentTime_contexts (out : nat) (b b' : Browser) :
  contexts b' = contexts b -> readCurrentTime out b' = readCurrentTime out b.
Proof. unfold readCurrentTime. intros ->. reflexivity. Qed.

(** A message with audio: where its buffer is scheduled and where the
    cursor ends up.  [cur] is the cursor the audio branch finds; it is the
    cursor of [s] unless the message also carries an interruption. *)
Lemma step_audio (c : nat) (ch : Channel) (msg : LiveServerMessage) (d : Z)
    (s : State) :
  channels (browser s) !! c = Some ch ->
  audioData msg = Some d ->
  exists cur,
    (interrupted msg = false -> cur = nextStartTimeRef (refs s)) /\
    nodes (browser (step (EvMessage c msg) s)) !! length (nodes (browser s)) =
      Some (mkBufferSource (outputCtx ch)
              (Z.max cur (readCurrentTime (outputCtx ch) (browser s))) d false false) /\
    nextStartTimeRef (refs (step (EvMessage c msg) s)) =
      Z.max cur (readCurrentTime (outputCtx ch) (browser s)) + d.
Proof.
  intros Hch Ha.
  set (s0 := if turnComplete msg then handleTurnComplete s else s).
  set (s1 := if interrupted msg then handleInterrupted s0 else s0).
  set (pre := handleTranscription "🤖 Chef: " (outputTranscription msg)
                (handleTranscription "🎤 You: " (inputTranscription msg) s1)).
  assert (H0 : sched s0 = sched s) by (unfold s0; destruct (turnComplete msg); reflexivity).
  assert (H1 : length (nodes (browser s1)) = length (nodes (browser s)) /\
               contexts (browser s1) = contexts (browser s) /\
               (interrupted msg = false ->
                nextStartTimeRef (refs s1) = nextStartTimeRef (refs s))).
  { pose proof (f_equal (fun v => fst (fst v)) H0) as Hn.
    pose proof (f_equal (fun v => snd (fst v)) H0) as Hc.
    pose proof (f_equal snd H0) as Hcur. cbn [sched fst snd] in Hn, Hc, Hcur.
    unfold s1.
    destruct (interrupted msg).
    - destruct (handleInterrupted_frame s0) as [Hl Hx].
      rewrite Hl, Hx, Hn, Hc. repeat split; congruence.
    - rewrite Hn, Hc, Hcur. repeat split; reflexivity. }
  assert (Hpre : sched pre = sched s1)
    by (unfold pre; rewrite !sched_handleTranscription; reflexivity).
  pose proof (f_equal (fun v => fst (fst v)) Hpre) as Hpn.
  pose proof (f_equal (fun v => snd (fst v)) Hpre) as Hpc.
  pose proof (f_equal snd Hpre) as Hpcur. cbn [sched fst snd] in Hpn, Hpc, Hpcur.
  destruct H1 as (Hl & Hc & Hcur).
  exists (nextStartTimeRef (refs pre)).
  split; [intros Hi; rewrite Hpcur; apply Hcur; exact Hi|].
  assert (Hs : sched (step (EvMessage c msg) s) =
               sched (handleAudio (outputCtx ch) d pre)).
  { unfold step. rewrite sched_render. cbn [handle]. unfold onmessage.
    rewrite Hch, Ha. fold s0. fold s1. fold pre.
    destruct (toolCall msg); [apply sched_handleToolCall|reflexivity]. }
  pose proof (f_equal (fun v => fst (fst v)) Hs) as Hsn.
  pose proof (f_equal snd Hs) as Hscur. cbn [sched fst snd] in Hsn, Hscur.
  destruct (handleAudio_spec (outputCtx ch) d pre) as (Hn & Hcu & _ & _).
  cbn zeta in Hn, Hcu.
  rewrite (readCurrentTime_contexts (outputCtx ch) (browser s) (browser pre)) in Hn, Hcu
    by congruence.
  split.
  - rewrite Hsn, Hn, <- Hl, <- Hpn. rewrite lookup_app_r by lia.
    rewrite Nat.sub_diag. reflexivity.
  - rewrite Hscur, Hcu. reflexivity.
Qed.

End PlaybackFacts.

(** ** Claims about the playback scheduler *)

Module PlaybackClaims.
Import TimerEngine Wire App Frame PlaybackFacts Scenarios.

(** C1, as the claim states it, fails: with no interruption in between, a
    chunk that arrives after the previous one has played out starts at the
    clock, later than the previous start plus the previous duration. *)
Lemma late_chunk_leaves_a_gap :
  forallb (fun ev => match ev with
                     | EvMessage _ msg => negb (interrupted msg)
                     | _ => true
                     end) lateChunk = true /\
  map startedAt (nodes (browser (run lateChunk connected))) = [0; 1200] /\
  map bufferDuration (nodes (browser (run lateChunk connected))) = [240; 240] /\
  1200 <> 0 + 240.
Proof. repeat split; try reflexivity. discriminate. Qed.

(** C1 (amended).  A decoded chunk is started at the cursor, or at the
    output clock if the cursor has fallen behind it, and the cursor is then
    the start plus the chunk's duration.  So when no interruption, no other
    chunk and no connect request comes between two chunks, the second starts
    at the later of the first start plus the first duration and the clock at
    its arrival; it starts exactly at the first start plus the first
    duration whenever the clock has not passed that point. *)
Theorem chunk_follows_previous_or_clock
    (s : State) (c1 c2 : nat) (ch1 ch2 : Channel) (msg1 msg2 : LiveServerMessage)
    (d1 d2 : Z) (evs : list Event) :
  channels (browser s) !! c1 = Some ch1 ->
  audioData msg1 = Some d1 ->
  forallb keepsCursor evs = true ->
  channels (browser (run evs (step (EvMessage c1 msg1) s))) !! c2 = Some ch2 ->
  audioData msg2 = Some d2 ->
  interrupted msg2 = false ->
  let s1 := step (EvMessage c1 msg1) s in
  let s2 := run evs s1 in
  let s3 := step (EvMessage c2 msg2) s2 in
  let now1 := readCurrentTime (outputCtx ch1) (browser s) in
  let now2 := readCurrentTime (outputCtx ch2) (browser s2) in
  exists start1 start2,
    startedAt <$> (nodes (browser s1) !! length (nodes (browser s))) = Some start1 /\
    (interrupted msg1 = false ->
     start1 = Z.max (nextStartTimeRef (refs s)) now1) /\
    nextStartTimeRef (refs s1) = start1 + d1 /\
    startedAt <$> (nodes (browser s3) !! length (nodes (browser s2))) = Some start2 /\
    start2 = Z.max (start1 + d1) now2 /\
    nextStartTimeRef (refs s3) = start2 + d2 /\
    (now2 <= start1 + d1 -> start2 = start1 + d1).
Proof.
  intros Hc1 Ha1 Hevs Hc2 Ha2 Hi2 s1 s2 s3 now1 now2.
  destruct (step_audio c1 ch1 msg1 d1 s Hc1 Ha1) as (cur1 & Hcur1 & Hn1 & Hx1).
  destruct (step_audio c2 ch2 msg2 d2 s2 Hc2 Ha2) as (cur2 & Hcur2 & Hn2 & Hx2).
  specialize (Hcur2 Hi2).
  assert (Hrun : nextStartTimeRef (refs s2) = nextStartTimeRef (refs s1))
    by (apply cursor_run; exact Hevs).
  fold s1 in Hn1, Hx1. fold s3 in Hn2, Hx2. fold now1 in Hn1, Hx1. fold now2 in Hn2, Hx2.
  exists (Z.max cur1 now1), (Z.max cur2 now2).
  rewrite Hn1, Hn2. cbn [fmap option_fmap option_map startedAt].
  repeat split; try assumption.
  - intros Hi1. rewrite (Hcur1 Hi1). reflexivity.
  - rewrite Hcur2, Hrun, Hx1. reflexivity.
  - intros Hle. rewrite Hcur2, Hrun, Hx1. lia.
Qed.

Lemma chunk_follows_previous_or_clock_witness :
  channels (browser connected) !! 0%nat = Some (mkChannel 1 []) /\
  channels (browser (run [EvElapse 5] (step (EvMessage 0 (audioMessage 240)) connected)))
    !! 0%nat = Some (mkChannel 1 []) /\
  let s1 := step (EvMessage 0 (audioMessage 240)) connected in
  let s2 := run [EvElapse 5] s1 in
  let s3 := step (EvMessage 0 (audioMessage 240)) s2 in
  let now1 := readCurrentTime (outputCtx (mkChannel 1 [])) (browser connected) in
  let now2 := readCurrentTime (outputCtx (mkChannel 1 [])) (browser s2) in
  exists start1 start2,
    startedAt <$> (nodes (browser s1) !! length (nodes (browser connected)))
      = Some start1 /\
    (interrupted (audioMessage 240) = false ->
     start1 = Z.max (nextStartTimeRef (refs connected)) now1) /\
    nextStartTimeRef (refs s1) = start1 + 240 /\
    startedAt <$> (nodes (browser s3) !! length (nodes (browser s2))) = Some start2 /\
    start2 = Z.max (start1 + 240) now2 /\
    nextStartTimeRef (refs s3) = start2 + 240 /\
    (now2 <= start1 + 240 -> start2 = start1 + 240).
Proof.
  assert (Hc1 : channels (browser connected) !! 0%nat = Some (mkChannel 1 []))
    by (vm_compute; reflexivity).
  assert (Hc2 : channels (browser (run [EvElapse 5]
                  (step (EvMessage 0 (audioMessage 240)) connected))) !! 0%nat
                = Some (mkChannel 1 [])) by (vm_compute; reflexivity).
  split; [exact Hc1|]. split; [exact Hc2|].
  exact (chunk_follows_previous_or_clock connected 0 0 (mkChannel 1 [])
           (mkChannel 1 []) (audioMessage 240) (audioMessage 240) 240 240
           [EvElapse 5] Hc1 eq_refl eq_refl Hc2 eq_refl eq_refl).
Defined.

End PlaybackClaims.

(** ** Claims about interruption *)

Module InterruptionClaims.
Import TimerEngine Wire App Frame DispatchFacts PlaybackFacts Scenarios.

(** C2, as the claim states it, fails in its last part: the interruption
    stops node 0 and empties the live set, yet the node's [ended] event is
    still due, and when it is delivered the callback runs and turns the
    listening indicator on again. *)
Lemma stopped_unit_still_fires_callback :
  sourcesRef (refs bargeIn) = ∅ /\
  stopped <$> (nodes (browser bargeIn) !! 0%nat) = Some true /\
  ended_due 0 (browser bargeIn) = true /\
  isListening (ui bargeIn) = false /\
  isListening (ui (step (EvEnded 0) bargeIn)) = true.
Proof. repeat split; vm_compute; reflexivity. Qed.

Lemma stopAll_lookup (sources : gset nat) (ns : list BufferSource) (n : nat) :
  stopAll sources ns !! n =
  (fun node => if bool_decide (n ∈ sources) then stopNode node else node)
    <$> (ns !! n).
Proof. unfold stopAll. apply list_lookup_imap. Qed.

(** C2 (amended).  The interruption branch stops exactly the units of the
    live set, empties the set, and resets the cursor to the current time of
    the output context held in [audioContextRef], hence to no less than that
    clock, or to 0 when none is held.  The completion callback of a unit
    stays attached: if its [ended] event is delivered later, the live set
    only loses that unit and the cursor and the scheduled units stay as they
    are, apart from the mark that the event was delivered. *)
Theorem interruption_flushes_playback (s : State) (n : nat) :
  let s' := handleInterrupted s in
  sourcesRef (refs s') = ∅ /\
  nodes (browser s') !! n =
    (fun node => if bool_decide (n ∈ sourcesRef (refs s)) then stopNode node else node)
      <$> (nodes (browser s) !! n) /\
  contexts (browser s') = contexts (browser s) /\
  nextStartTimeRef (refs s') =
    match audioContextRef (refs s) with
    | Some out => readCurrentTime out (browser s')
    | None => 0
    end /\
  match audioContextRef (refs s) with
  | Some out => readCurrentTime out (browser s') <= nextStartTimeRef (refs s')
  | None => True
  end /\
  forall t : State,
    let t' := dispatchEnded n t in
    sourcesRef (refs t') =
      (if ended_due n (browser t) then sourcesRef (refs t) ∖ {[n]}
       else sourcesRef (refs t)) /\
    nextStartTimeRef (refs t') = nextStartTimeRef (refs t) /\
    nodes (browser t') =
      (if ended_due n (browser t) then alter markEnded n (nodes (browser t))
       else nodes (browser t)).
Proof.
  cbn zeta. split; [reflexivity|]. split.
  { unfold handleInterrupted, flushSources. cbn. apply stopAll_lookup. }
  split; [reflexivity|]. split.
  { unfold handleInterrupted, flushSources. cbn.
    destruct (audioContextRef (refs s)); reflexivity. }
  split.
  { unfold handleInterrupted, flushSources. cbn.
    destruct (audioContextRef (refs s)); [|exact I]. unfold readCurrentTime. cbn. lia. }
  intros t. unfold dispatchEnded.
  destruct (ended_due n (browser t)); [|repeat split; reflexivity].
  unfold onended. cbn.
  match goal with |- context [bool_decide ?P] => destruct (bool_decide P) end;
    repeat split; reflexivity.
Qed.

End InterruptionClaims.

(** ** Claims about teardown *)

Module TeardownClaims.
Import TimerEngine Wire App Frame Scenarios.

(** The camera handle does not enter into anything a teardown with
    [keepCamera = true] does. *)
Lemma stopSession_keeps_camera (s : State) :
  mediaStreamRef (refs (stopSession true s)) = mediaStreamRef (refs s) /\
  videoRef (refs (stopSession true s)) = videoRef (refs s) /\
  streams (browser (stopSession true s)) = streams (browser s) /\
  isCameraActive (ui (stopSession true s)) = isCameraActive (ui s).
Proof. teardown_cases s; eval_handlers; repeat split; reflexivity. Qed.

(** What every teardown does, whichever way the camera goes. *)
Lemma stopSession_common (keepCamera : bool) (s : State) :
  let s' := stopSession keepCamera s in
  audioContextRef (refs s') = None /\ inputContextRef (refs s') = None /\
  sourcesRef (refs s') = ∅ /\ sessionPromiseRef (refs s') = None /\
  videoIntervalRef (refs s') = None /\ visionIntervalRef (refs s') = None /\
  isConnected (ui s') = false /\ isConnecting (ui s') = false /\
  isSpeaking (ui s') = false /\ isListening (ui s') = false /\
  isProcessing (ui s') = false /\
  nodes (browser s') = stopAll (sourcesRef (refs s)) (nodes (browser s)) /\
  contexts (browser s') =
    (match inputContextRef (refs s) with
     | Some c => alter markClosed c
     | None => fun l => l
     end)
      ((match audioContextRef (refs s) with
        | Some c => alter markClosed c
        | None => fun l => l
        end) (contexts (browser s))) /\
  intervals (browser s') =
    (match visionIntervalRef (refs s) with
     | Some h => fun i => i ∖ {[h]}
     | None => fun i => i
     end)
      ((match videoIntervalRef (refs s) with
        | Some h => fun i => i ∖ {[h]}
        | None => fun i => i
        end) (intervals (browser s))).
Proof.
  teardown_cases s; destruct keepCamera; eval_handlers; repeat split; reflexivity.
Qed.

(** What the two teardowns do to one state.  A remote close or error
    tears the session down with the camera kept: the stream handle, its
    tracks and the camera flag are as before and both connection flags are
    down.  A user disconnect stops the tracks of the held stream and drops
    the handle.  Apart from the camera (stream handle, video element, tracks,
    camera flag) the two teardowns produce the same state: contexts closed,
    live set stopped and emptied, intervals cleared, session forgotten, flags
    lowered. *)
Theorem teardown_keeps_camera_unless_user_disconnects (s : State) :
  (mediaStreamRef (refs (onclose s)) = mediaStreamRef (refs s) /\
   streams (browser (onclose s)) = streams (browser s) /\
   isCameraActive (ui (onclose s)) = isCameraActive (ui s) /\
   isConnected (ui (onclose s)) = false /\ isConnecting (ui (onclose s)) = false) /\
  (mediaStreamRef (refs (onerror s)) = mediaStreamRef (refs s) /\
   streams (browser (onerror s)) = streams (browser s) /\
   isCameraActive (ui (onerror s)) = isCameraActive (ui s) /\
   isConnected (ui (onerror s)) = false /\ isConnecting (ui (onerror s)) = false) /\
  (mediaStreamRef (refs (stopSession false s)) = None /\
   streams (browser (stopSession false s)) =
     match mediaStreamRef (refs s) with
     | Some stream => alter markStopped stream (streams (browser s))
     | None => streams (browser s)
     end /\
   isCameraActive (ui (stopSession false s)) =
     match mediaStreamRef (refs s) with
     | Some _ => false
     | None => isCameraActive (ui s)
     end /\
   isConnected (ui (stopSession false s)) = false /\
   isConnecting (ui (stopSession false s)) = false) /\
  (forall (cam : bool) (stream : option nat) (video : option (option nat))
          (tracks : list MediaStream),
     set_isCameraActive cam (ui (stopSession true s)) =
       set_isCameraActive cam (ui (stopSession false s)) /\
     set_videoRef video (set_mediaStreamRef stream (refs (stopSession true s))) =
       set_videoRef video (set_mediaStreamRef stream (refs (stopSession false s))) /\
     set_streams tracks (browser (stopSession true s)) =
       set_streams tracks (browser (stopSession false s))) /\
  (audioContextRef (refs (stopSession true s)) = None /\
   inputContextRef (refs (stopSession true s)) = None /\
   sourcesRef (refs (stopSession true s)) = ∅ /\
   videoIntervalRef (refs (stopSession true s)) = None /\
   visionIntervalRef (refs (stopSession true s)) = None /\
   nodes (browser (stopSession true s)) =
     stopAll (sourcesRef (refs s)) (nodes (browser s)) /\
   contexts (browser (stopSession true s)) =
     (match inputContextRef (refs s) with
      | Some c => alter markClosed c
      | None => fun l => l
      end)
       ((match audioContextRef (refs s) with
         | Some c => alter markClosed c
         | None => fun l => l
         end) (contexts (browser s))) /\
   intervals (browser (stopSession true s)) =
     (match visionIntervalRef (refs s) with
      | Some h => fun i => i ∖ {[h]}
      | None => fun i => i
      end)
       ((match videoIntervalRef (refs s) with
         | Some h => fun i => i ∖ {[h]}
         | None => fun i => i
         end) (intervals (browser s)))).
Proof.
  split; [unfold onclose|split; [unfold onerror|split; [|split]]].
  - pose proof (stopSession_keeps_camera
                  (toast ToastAiDisconnected (upd_ui (set_error (Some ErrSessionClosed)) s)))
      as (H1 & _ & H3 & H4).
    pose proof (stopSession_common true
                  (toast ToastAiDisconnected (upd_ui (set_error (Some ErrSessionClosed)) s)))
      as (_ & _ & _ & _ & _ & _ & H5 & H6 & _).
    split; [exact H1|]. split; [exact H3|]. split; [exact H4|].
    split; [exact H5|exact H6].
  - pose proof (stopSession_keeps_camera
                  (toast ToastConnectionError
                     (upd_ui (set_error (Some ErrConnectionError)) s)))
      as (H1 & _ & H3 & H4).
    pose proof (stopSession_common true
                  (toast ToastConnectionError
                     (upd_ui (set_error (Some ErrConnectionError)) s)))
      as (_ & _ & _ & _ & _ & _ & H5 & H6 & _).
    split; [exact H1|]. split; [exact H3|]. split; [exact H4|].
    split; [exact H5|exact H6].
  - teardown_cases s; eval_handlers; repeat split; reflexivity.
  - intros cam0 stream video tracks.
    teardown_cases s; eval_handlers; repeat split; reflexivity.
  - pose proof (stopSession_common true s) as H. cbn zeta in H.
    destruct H as (H1 & H2 & H3 & _ & H5 & H6 & _ & _ & _ & _ & _ & H12 & H13 & H14).
    split; [exact H1|]. split; [exact H2|]. split; [exact H3|]. split; [exact H5|].
    split; [exact H6|]. split; [exact H12|]. split; [exact H13|exact H14].
Qed.

(** A user disconnect stops the tracks of the stream the component
    holds. *)
Lemma user_disconnect_stops_held_stream (s : State) (i : nat) (x : MediaStream) :
  mediaStreamRef (refs s) = Some i ->
  streams (browser s) !! i = Some x ->
  exists x' : MediaStream,
    streams (browser (stopSession false s)) !! i = Some x' /\
    tracksStopped x' = true /\ hasVideo x' = hasVideo x.
Proof.
  intros Hi Hx.
  assert (H : streams (browser (stopSession false s)) =
              alter markStopped i (streams (browser s))).
  { revert Hi. teardown_cases s; eval_handlers; intros Hi; try discriminate Hi;
      injection Hi as ->; reflexivity. }
  rewrite H, list_lookup_alter_eq, Hx. cbn.
  eexists. split; [reflexivity|]. split; reflexivity.
Qed.

(** Every teardown closes the two audio contexts the component holds. *)
Lemma teardown_closes_held_contexts (keepCamera : bool) (s : State) (c : nat)
    (x : AudioContext) :
  audioContextRef (refs s) = Some c \/ inputContextRef (refs s) = Some c ->
  contexts (browser s) !! c = Some x ->
  exists x' : AudioContext,
    contexts (browser (stopSession keepCamera s)) !! c = Some x' /\
    closed x' = true /\ currentTime x' = currentTime x.
Proof.
  intros Hc Hx.
  pose proof (stopSession_common keepCamera s) as H. cbn zeta in H.
  destruct H as (_ & _ & _ & _ & _ & _ & _ & _ & _ & _ & _ & _ & H & _).
  rewrite H. clear H.
  destruct (inputContextRef (refs s)) as [ci|], (audioContextRef (refs s)) as [ca|];
    destruct Hc as [Hc|Hc]; try discriminate Hc; injection Hc as ->.
  - destruct (decide (ci = c)) as [->|Hne].
    + rewrite list_lookup_alter_eq, list_lookup_alter_eq, Hx. cbn.
      eexists. split; [reflexivity|]. split; reflexivity.
    + rewrite list_lookup_alter_ne by exact Hne. rewrite list_lookup_alter_eq, Hx. cbn.
      eexists. split; [reflexivity|]. split; reflexivity.
  - rewrite list_lookup_alter_eq.
    destruct (decide (ca = c)) as [->|Hne].
    + rewrite list_lookup_alter_eq, Hx. cbn.
      eexists. split; [reflexivity|]. split; reflexivity.
    + rewrite list_lookup_alter_ne by exact Hne. rewrite Hx. cbn.
      eexists. split; [reflexivity|]. split; reflexivity.
  - rewrite list_lookup_alter_eq, Hx. cbn.
    eexists. split; [reflexivity|]. split; reflexivity.
  - rewrite list_lookup_alter_eq, Hx. cbn.
    eexists. split; [reflexivity|]. split; reflexivity.
Qed.

(** C8.  The code at the failing input: the user connects, the remote
    side closes the session, the user connects again and then ends the
    session with the button.  The remote close leaves the first stream live
    and its handle in place, with the state disconnected, as the claim says.
    The second connect is given a second stream and stores its handle over
    the first.  The user's disconnect tears the session down and stops the
    tracks of the second stream only: no handle is held any more, and the
    tracks of the first stream are still live. *)
Lemma user_disconnect_leaves_first_stream_live :
  let closed1 :=
    run [EvClick; EvMedia 0 true; EvOpen 0; EvClose 0]
      (initial (Some "token") ["a"; "b"; "c"]) in
  let ended := step EvClick reconnected in
  (isConnected (ui closed1) = false /\
   mediaStreamRef (refs closed1) = Some 0%nat /\
   streams (browser closed1) = [mkMediaStream true false]) /\
  (isConnected (ui reconnected) = true /\
   mediaStreamRef (refs reconnected) = Some 1%nat /\
   streams (browser reconnected) =
     [mkMediaStream true false; mkMediaStream true false]) /\
  (ended = render (stopSession false reconnected) /\
   isConnected (ui ended) = false /\
   mediaStreamRef (refs ended) = None /\
   streams (browser ended) =
     [mkMediaStream true false; mkMediaStream true true]).
Proof. vm_compute. repeat split; reflexivity. Qed.

End TeardownClaims.

(** ** The connection guard *)

Module ConnectFacts.
Import TimerEngine Wire App Frame DispatchFacts ViewFacts PlaybackFacts.













(** Rendering twice is rendering once. *)
Lemma render_idem (s : State) : render (render s) = render s.
Proof. render_cases s; eval_handlers; reflexivity. Qed.

Lemma render_initial (key : option string) (ids : list string) :
  render (initial key ids) = initial key ids.
Proof. reflexivity. Qed.

(** The state a run ends in is a rendered one. *)
Lemma render_run (evs : list Event) (key : option string) (ids : list string) :
  render (run evs (initial key ids)) = run evs (initial key ids).
Proof.
  destruct evs as [|ev evs] using rev_ind; [apply render_initial|].
  unfold run. rewrite fold_left_app. cbn [fold_left]. unfold step.
  apply render_idem.
Qed.


Lemma sessionPromiseRef_render (s : State) :
  sessionPromiseRef (refs (render s)) = sessionPromiseRef (refs s).
Proof. render_cases s; reflexivity. Qed.









End ConnectFacts.

(** ** Claims about the connection guard *)

Module ConnectClaims.
Import TimerEngine Wire App Frame ViewFacts ConnectFacts Scenarios.



End ConnectClaims.

(** ** Label matching *)

Module CaselessFacts.
Import TimerEngine Wire App Caseless.

Lemma isCapital_lower_ascii (c : ascii) : isCapital (Js.lower_ascii c) = false.
Proof.
  unfold Js.lower_ascii, isCapital. cbn zeta.
  destruct ((65 <=? nat_of_ascii c)%nat && (nat_of_ascii c <=? 90)%nat) eqn:E;
    [|exact E].
  apply andb_true_iff in E as [E1 E2].
  apply Nat.leb_le in E1. apply Nat.leb_le in E2.
  rewrite nat_ascii_embedding by lia.
  apply andb_false_iff. right. apply Nat.leb_gt. lia.
Qed.

Lemma lower_ascii_not_capital (c : ascii) :
  isCapital c = false -> Js.lower_ascii c = c.
Proof. unfold Js.lower_ascii, isCapital. cbn zeta. intros ->. reflexivity. Qed.

Lemma lower_ascii_capital (c : ascii) :
  isCapital c = true ->
  nat_of_ascii (Js.lower_ascii c) = (nat_of_ascii c + 32)%nat.
Proof.
  unfold Js.lower_ascii, isCapital. cbn zeta. intros E. rewrite E.
  apply andb_true_iff in E as [E1 E2].
  apply Nat.leb_le in E1. apply Nat.leb_le in E2.
  apply nat_ascii_embedding. lia.
Qed.

Lemma nat_of_ascii_inj (a b : ascii) : nat_of_ascii a = nat_of_ascii b -> a = b.
Proof.
  intros H. rewrite <- (ascii_nat_embedding a), <- (ascii_nat_embedding b), H.
  reflexivity.
Qed.

(** Lowercasing identifies exactly the characters that are the same
    letter. *)
Lemma lower_ascii_same (a b : ascii) :
  Js.lower_ascii a = Js.lower_ascii b <-> sameLetter a b.
Proof.
  unfold sameLetter. split.
  - intros H. apply (f_equal nat_of_ascii) in H.
    destruct (isCapital a) eqn:Ea, (isCapital b) eqn:Eb.
    + rewrite (lower_ascii_capital a Ea), (lower_ascii_capital b Eb) in H.
      left. apply nat_of_ascii_inj. lia.
    + rewrite (lower_ascii_capital a Ea), (lower_ascii_not_capital b Eb) in H.
      right. left. split; [reflexivity|]. lia.
    + rewrite (lower_ascii_not_capital a Ea), (lower_ascii_capital b Eb) in H.
      right. right. split; [reflexivity|]. lia.
    + rewrite (lower_ascii_not_capital a Ea), (lower_ascii_not_capital b Eb) in H.
      left. apply nat_of_ascii_inj. exact H.
  - intros [->|[[Ea H]|[Eb H]]]; [reflexivity| |]; apply nat_of_ascii_inj.
    + assert (Eb : isCapital b = false).
      { unfold isCapital in *. apply andb_true_iff in Ea as [E1 E2].
        apply Nat.leb_le in E1. apply Nat.leb_le in E2.
        apply andb_false_iff. right. apply Nat.leb_gt. lia. }
      rewrite (lower_ascii_capital a Ea), (lower_ascii_not_capital b Eb). lia.
    + assert (Ea : isCapital a = false).
      { unfold isCapital in *. apply andb_true_iff in Eb as [E1 E2].
        apply Nat.leb_le in E1. apply Nat.leb_le in E2.
        apply andb_false_iff. right. apply Nat.leb_gt. lia. }
      rewrite (lower_ascii_capital b Eb), (lower_ascii_not_capital a Ea). lia.
Qed.

Lemma toLowerCase_same (a b : string) :
  Js.toLowerCase a = Js.toLowerCase b <-> sameText a b.
Proof.
  split.
  - revert b. induction a as [|c a IH]; intros [|d b] H; try discriminate H.
    + constructor.
    + cbn in H. injection H as Hc Hr. constructor.
      * apply lower_ascii_same. exact Hc.
      * apply IH. exact Hr.
  - induction 1 as [|c d s t Hc _ IH]; [reflexivity|]. cbn.
    rewrite IH. f_equal. apply lower_ascii_same. exact Hc.
Qed.

Lemma toLowerCase_app (a b : string) :
  Js.toLowerCase (a +:+ b) = Js.toLowerCase a +:+ Js.toLowerCase b.
Proof.
  induction a as [|c a IH]; [reflexivity|].
  change (Js.toLowerCase (String c a +:+ b))
    with (String (Js.lower_ascii c) (Js.toLowerCase (a +:+ b))).
  rewrite IH. reflexivity.
Qed.

(** A text whose small form is [x] followed by [y] splits accordingly. *)
Lemma toLowerCase_split (a x y : string) :
  Js.toLowerCase a = x +:+ y ->
  exists a1 a2 : string,
    a = a1 +:+ a2 /\ Js.toLowerCase a1 = x /\ Js.toLowerCase a2 = y.
Proof.
  revert a. induction x as [|c x IH]; intros a H.
  - exists EmptyString, a. repeat split. exact H.
  - destruct a as [|d a]; [discriminate H|]. cbn in H. injection H as Hc Hr.
    destruct (IH a Hr) as (a1 & a2 & -> & H1 & H2).
    exists (String d a1), a2. repeat split; [|exact H2]. cbn. rewrite Hc, H1.
    reflexivity.
Qed.

Lemma prefix_spec (sub s : string) :
  String.prefix sub s = true <-> exists post : string, s = sub +:+ post.
Proof.
  revert s. induction sub as [|c sub IH]; intros s.
  - split; [intros _; exists s; reflexivity|]. intros _. destruct s; reflexivity.
  - destruct s as [|d s].
    + split; [discriminate|]. intros [post H]. discriminate H.
    + change (String.prefix (String c sub) (String d s))
        with (if ascii_dec c d then String.prefix sub s else false).
      destruct (ascii_dec c d) as [->|Hne].
      * rewrite IH. split; intros [post H]; exists post.
        -- rewrite H. reflexivity.
        -- injection H as H. exact H.
      * split; [discriminate|]. intros [post H]. injection H as Hc _.
        congruence.
Qed.

(** [includes] finds exactly the runs of consecutive characters. *)
Lemma includes_spec (s sub : string) :
  Js.includes s sub = true <-> occursIn sub s.
Proof.
  unfold occursIn. induction s as [|c s IH].
  - cbn [Js.includes]. destruct (String.prefix sub EmptyString) eqn:E.
    + split; [intros _|reflexivity].
      apply prefix_spec in E as [post E]. exists EmptyString, post. exact E.
    + split; [discriminate|]. intros (pre & post & H).
      destruct pre; [|discriminate H]. cbn in H.
      assert (E' : String.prefix sub EmptyString = true)
        by (apply prefix_spec; exists post; exact H).
      congruence.
  - cbn [Js.includes]. destruct (String.prefix sub (String c s)) eqn:E.
    + split; [intros _|reflexivity].
      apply prefix_spec in E as [post E]. exists EmptyString, post. exact E.
    + rewrite IH. split.
      * intros (pre & post & ->). exists (String c pre), post. reflexivity.
      * intros (pre & post & H). destruct pre as [|d pre].
        -- cbn in H.
           assert (E' : String.prefix sub (String c s) = true)
             by (apply prefix_spec; exists post; exact H).
           congruence.
        -- cbn in H. injection H as _ H. exists pre, post. exact H.
Qed.

(** The small form of [a] includes the small form of [b] exactly when a
    run of [a] is [b] up to case. *)
Lemma includes_lower (a b : string) :
  Js.includes (Js.toLowerCase a) (Js.toLowerCase b) = true <->
  exists m : string, occursIn m a /\ sameText m b.
Proof.
  rewrite includes_spec. unfold occursIn. split.
  - intros (pre & post & H).
    destruct (toLowerCase_split a pre _ H) as (a1 & a2 & -> & H1 & H2).
    destruct (toLowerCase_split a2 _ post H2) as (m & a3 & -> & H3 & H4).
    exists m. split; [exists a1, a3; reflexivity|].
    apply toLowerCase_same. exact H3.
  - intros (m & (pre & post & ->) & Hm).
    exists (Js.toLowerCase pre), (Js.toLowerCase post).
    rewrite !toLowerCase_app. apply toLowerCase_same in Hm. rewrite Hm.
    reflexivity.
Qed.

(** The test on the mirrored timers is the overlap of the specification. *)
Lemma hasExistingTimer_spec (l : string) (ts : list Timer) :
  hasExistingTimer (Js.toLowerCase l) ts = true <->
  exists t : Timer, t ∈ ts /\ overlaps (label t) l.
Proof.
  unfold hasExistingTimer, overlaps. rewrite existsb_exists. split.
  - intros (t & Hin & H). exists t. split; [apply list_elem_of_In; exact Hin|].
    apply orb_true_iff in H as [H|H]; [left|right]; apply includes_lower; exact H.
  - intros (t & Hin & H). exists t. split; [apply list_elem_of_In; exact Hin|].
    apply orb_true_iff. destruct H as [H|H]; [left|right]; apply includes_lower;
      exact H.
Qed.

Lemma toLowerCase_no_capital (l : string) (c : ascii) :
  In c (String.list_ascii_of_string (Js.toLowerCase l)) -> isCapital c = false.
Proof.
  induction l as [|d l IH]; cbn; [contradiction|].
  intros [<-|H]; [apply isCapital_lower_ascii|apply IH; exact H].
Qed.

Lemma toLowerCase_fixed (k : string) :
  (forall c : ascii, In c (String.list_ascii_of_string k) -> isCapital c = false) ->
  Js.toLowerCase k = k.
Proof.
  induction k as [|d k IH]; cbn; [reflexivity|]. intros H.
  rewrite lower_ascii_not_capital by (apply H; left; reflexivity).
  rewrite IH by (intros c Hc; apply H; right; exact Hc). reflexivity.
Qed.

(** The label key of the code is the small form of the label. *)
Lemma smallForm_spec (l k : string) : smallForm l k <-> k = Js.toLowerCase l.
Proof.
  unfold smallForm. split.
  - intros [Hs Hc]. apply toLowerCase_same in Hs. rewrite Hs.
    symmetry. apply toLowerCase_fixed. exact Hc.
  - intros ->. split; [|apply toLowerCase_no_capital].
    apply toLowerCase_same. symmetry. apply toLowerCase_fixed.
    apply toLowerCase_no_capital.
Qed.

End CaselessFacts.

(** ** The vision sampler *)

Module VisionFacts.
Import TimerEngine Wire App Frame DispatchFacts.

Lemma recency_render (s : State) : recency (render s) = recency s.
Proof. render_cases s; reflexivity. Qed.

Lemma recency_notifyCompletion (t : Timer) (s : State) :
  recency (notifyCompletion t s) = recency s.
Proof. open_state s. destruct sess; reflexivity. Qed.

Lemma recency_onTick (s : State) : recency (onTick s) = recency s.
Proof.
  unfold onTick. destruct (tick (timers (ui s))) as [next completed].
  assert (H : forall l s0,
             recency (fold_left (fun acc t => notifyCompletion t acc) l s0)
             = recency s0).
  { induction l as [|t l IH]; intros s0; cbn; [reflexivity|].
    rewrite IH. apply recency_notifyCompletion. }
  rewrite H. reflexivity.
Qed.

Lemma recency_stopSession (keepCamera : bool) (s : State) :
  recency (stopSession keepCamera s) = recency s.
Proof. teardown_cases s; destruct keepCamera; reflexivity. Qed.

Lemma recency_connectToGemini (s : State) : recency (connectToGemini s) = recency s.
Proof.
  unfold connectToGemini. destruct (apiKeyMissing s); [reflexivity|].
  destruct (isConnecting (ui s) || isConnected (ui s)); [reflexivity|].
  teardown_cases s; reflexivity.
Qed.

Lemma recency_resume (k : nat) (video : bool) (s : State) :
  recency (connectToGemini_resume k video s) = recency s.
Proof.
  unfold connectToGemini_resume.
  destruct (pendingMedia (browser s) !! k) as [pc|]; [|reflexivity].
  destruct (pcResumed pc); [reflexivity|]. destruct video; reflexivity.
Qed.

Lemma recency_catch (k : nat) (s : State) :
  recency (connectToGemini_catch k s) = recency s.
Proof.
  unfold connectToGemini_catch.
  destruct (pendingMedia (browser s) !! k) as [pc|]; [|reflexivity].
  destruct (pcResumed pc); [reflexivity|]. rewrite recency_stopSession. reflexivity.
Qed.

Lemma recency_handleTranscription (prefix : string) (t : option string) (s : State) :
  recency (handleTranscription prefix t s) = recency s.
Proof.
  unfold handleTranscription.
  destruct t as [txt|]; [destruct (Js.truthy txt)|]; reflexivity.
Qed.

Lemma recency_resolveCall (fc : FunctionCall) (s : State) :
  recency (fst (resolveCall fc s)) = recency s.
Proof.
  unfold resolveCall.
  repeat (match goal with
          | |- context [bool_decide ?P] => destruct (bool_decide P)
          | |- context [match ?x with _ => _ end] => destruct x
          end); reflexivity.
Qed.

Lemma recency_handleToolCall (c : nat) (calls : list FunctionCall) (s : State) :
  recency (handleToolCall c calls s) = recency s.
Proof.
  unfold handleToolCall, dispatchAll.
  assert (H : forall l s0 rs,
             recency (fst (fold_left (fun acc fc => dispatchCall fc acc) l (s0, rs)))
             = recency s0).
  { induction l as [|fc l IH]; intros s0 rs; [reflexivity|].
    cbn [fold_left]. rewrite dispatchCall_eq, IH. apply recency_resolveCall. }
  specialize (H calls
    (upd_ui (fun u => set_isListening false (set_isProcessing true u)) s) []).
  destruct (fold_left _ calls _) as [s1 responses]. cbn [fst] in H.
  change (recency s1 = recency s). rewrite H. reflexivity.
Qed.

Lemma recency_onmessage (c : nat) (msg : LiveServerMessage) (s : State) :
  recency (onmessage c msg s) = recency s.
Proof.
  unfold onmessage. destruct (channels (browser s) !! c) as [ch|]; [|reflexivity].
  set (s0 := if turnComplete msg then handleTurnComplete s else s).
  set (s1 := if interrupted msg then handleInterrupted s0 else s0).
  set (s2 := handleTranscription "🤖 Chef: " (outputTranscription msg)
               (handleTranscription "🎤 You: " (inputTranscription msg) s1)).
  set (s3 := match audioData msg with
             | Some duration => handleAudio (outputCtx ch) duration s2
             | None => s2
             end).
  assert (H0 : recency s0 = recency s)
    by (unfold s0; destruct (turnComplete msg); reflexivity).
  assert (H1 : recency s1 = recency s0)
    by (unfold s1; destruct (interrupted msg); reflexivity).
  assert (H2 : recency s2 = recency s1)
    by (unfold s2; rewrite !recency_handleTranscription; reflexivity).
  assert (H3 : recency s3 = recency s2).
  { unfold s3. destruct (audioData msg) as [d|]; [|reflexivity].
    unfold handleAudio. cbn zeta.
    match goal with |- context [if ?b then _ else _] => destruct b end; reflexivity. }
  destruct (toolCall msg) as [calls|];
    [rewrite recency_handleToolCall|]; congruence.
Qed.

Lemma recency_dispatchEnded (n : nat) (s : State) :
  recency (dispatchEnded n s) = recency s.
Proof.
  unfold dispatchEnded. destruct (ended_due n (browser s)); [|reflexivity].
  unfold onended.
  match goal with |- context [bool_decide ?P] => destruct (bool_decide P) end;
    reflexivity.
Qed.

Lemma recency_selectRecipe (r : option Recipe) (s : State) :
  recency (selectRecipe r s) = recency s.
Proof. open_state s. destruct sess, r; reflexivity. Qed.

(** Only the vision sampler and the passing of time touch the clock, the
    pending deletions or the recent set. *)
Lemma recency_step (ev : Event) (s : State) :
  match ev with EvVision _ | EvElapse _ => False | _ => True end ->
  recency (step ev s) = recency s.
Proof.
  intros H. unfold step. rewrite recency_render.
  destruct ev; try contradiction; cbn [handle]; unfold onChannel;
    try (destruct (channels (browser s) !! c); [|reflexivity]);
    try reflexivity.
  - apply recency_onTick.
  - apply recency_connectToGemini.
  - unfold handleClick. destruct (isConnecting (ui s)); [reflexivity|].
    destruct (isConnected (ui s));
      [apply recency_stopSession|apply recency_connectToGemini].
  - apply recency_stopSession.
  - apply recency_resume.
  - apply recency_catch.
  - apply recency_onmessage.
  - unfold onclose. rewrite recency_stopSession. reflexivity.
  - unfold onerror. rewrite recency_stopSession. reflexivity.
  - unfold onrejected. rewrite recency_stopSession. reflexivity.
  - apply recency_dispatchEnded.
  - apply recency_selectRecipe.
Qed.

(** A suggestion that is not accepted changes nothing. *)
Lemma handleSuggestion_rejected (sg : TimerSuggestion) (s : State) :
  accepts sg s = false -> handleSuggestion sg s = s.
Proof. unfold accepts, handleSuggestion. cbn zeta. intros ->. reflexivity. Qed.

(** An accepted suggestion adds its timer, remembers the label key and
    schedules its deletion one suppression window later. *)
Lemma handleSuggestion_accepted (sg : TimerSuggestion) (s : State) :
  accepts sg s = true ->
  timers (ui (handleSuggestion sg s)) =
    timers (ui s) ++
    [newTimer (hd EmptyString (entropy (browser s))) (sugLabel sg)
       (sugDurationSeconds sg)] /\
  recency (handleSuggestion sg s) =
    (nowMs (browser s),
     timeouts (browser s) ++
       [(nowMs (browser s) + suppressionWindow, Js.toLowerCase (sugLabel sg))],
     {[Js.toLowerCase (sugLabel sg)]} ∪ recentTimerLabelsRef (refs s)).
Proof.
  unfold accepts, handleSuggestion. cbn zeta. intros ->.
  destruct (sugReason sg) as [r|]; [destruct (Js.truthy r)|]; split; reflexivity.
Qed.

Lemma accepts_appendLog (sg : TimerSuggestion) (txt : string) (s : State) :
  accepts sg (appendLog txt s) = accepts sg s.
Proof. reflexivity. Qed.

(** The state in which [analyzeVision] looks at the suggestion. *)
Lemma analyzeVision_response_eq (d : option string) (sg : TimerSuggestion)
    (s : State) :
  exists s0,
    analyzeVision_response (mkVisionData d (Some sg)) s = handleSuggestion sg s0 /\
    timers (ui s0) = timers (ui s) /\ refs s0 = refs s /\
    browser s0 = browser s /\ accepts sg s0 = accepts sg s.
Proof.
  unfold analyzeVision_response. cbn [description timerSuggestion].
  destruct d as [txt|]; [destruct (Js.truthy txt)|];
    eexists; repeat split; reflexivity.
Qed.

Lemma timers_step_vision (d : option string) (sg : TimerSuggestion) (s : State) :
  timers (ui (step (EvVision (mkVisionData d (Some sg))) s)) =
  if accepts sg s
  then timers (ui s) ++
       [newTimer (hd EmptyString (entropy (browser s))) (sugLabel sg)
          (sugDurationSeconds sg)]
  else timers (ui s).
Proof.
  unfold step. rewrite ui_render. cbn [handle].
  destruct (analyzeVision_response_eq d sg s) as (s0 & -> & Ht & Hr & Hb & Ha).
  rewrite <- Ha. destruct (accepts sg s0) eqn:E.
  - destruct (handleSuggestion_accepted sg s0 E) as [H _]. rewrite H, Ht, Hb.
    reflexivity.
  - rewrite (handleSuggestion_rejected sg s0 E). exact Ht.
Qed.

Lemma recency_step_vision (d : option string) (sg : TimerSuggestion) (s : State) :
  recency (step (EvVision (mkVisionData d (Some sg))) s) =
  if accepts sg s
  then (nowMs (browser s),
        timeouts (browser s) ++
          [(nowMs (browser s) + suppressionWindow, Js.toLowerCase (sugLabel sg))],
        {[Js.toLowerCase (sugLabel sg)]} ∪ recentTimerLabelsRef (refs s))
  else recency s.
Proof.
  unfold step. rewrite recency_render. cbn [handle].
  destruct (analyzeVision_response_eq d sg s) as (s0 & -> & Ht & Hr & Hb & Ha).
  rewrite <- Ha. destruct (accepts sg s0) eqn:E.
  - destruct (handleSuggestion_accepted sg s0 E) as [_ H]. rewrite H, Hr, Hb.
    reflexivity.
  - rewrite (handleSuggestion_rejected sg s0 E). unfold recency. rewrite Hr, Hb.
    reflexivity.
Qed.

Lemma recency_step_vision_none (d : option string) (s : State) :
  recency (step (EvVision (mkVisionData d None)) s) = recency s.
Proof.
  unfold step. rewrite recency_render. cbn [handle].
  unfold analyzeVision_response. cbn [description timerSuggestion].
  destruct d as [txt|]; [destruct (Js.truthy txt)|]; reflexivity.
Qed.

Lemma recency_step_elapse (ms : Z) (s : State) :
  recency (step (EvElapse ms) s) =
  if 0 <=? ms
  then (nowMs (browser s) + ms,
        filter (fun p => ¬ fst p ≤ nowMs (browser s) + ms) (timeouts (browser s)),
        recentTimerLabelsRef (refs s)
          ∖ list_to_set
              (map snd (filter (fun p => fst p ≤ nowMs (browser s) + ms)
                          (timeouts (browser s)))))
  else recency s.
Proof.
  unfold step. rewrite recency_render. cbn [handle].
  destruct (0 <=? ms); reflexivity.
Qed.

Lemma timers_step_elapse (ms : Z) (s : State) :
  timers (ui (step (EvElapse ms) s)) = timers (ui s).
Proof.
  unfold step. rewrite ui_render. cbn [handle]. destruct (0 <=? ms); reflexivity.
Qed.

(** How one event moves the clock, the pending deletions and the recent
    set: not at all, by an accepted suggestion, or by the passing of time. *)
Lemma recency_step_cases (ev : Event) (s : State) :
  recency (step ev s) = recency s \/
  (exists key : string,
     (key ∉ recentTimerLabelsRef (refs s)) /\
     recency (step ev s) =
       (nowMs (browser s),
        timeouts (browser s) ++ [(nowMs (browser s) + suppressionWindow, key)],
        {[key]} ∪ recentTimerLabelsRef (refs s))) \/
  (exists ms : Z,
     0 <= ms /\
     recency (step ev s) =
       (nowMs (browser s) + ms,
        filter (fun p => ¬ fst p ≤ nowMs (browser s) + ms) (timeouts (browser s)),
        recentTimerLabelsRef (refs s)
          ∖ list_to_set
              (map snd (filter (fun p => fst p ≤ nowMs (browser s) + ms)
                          (timeouts (browser s)))))).
Proof.
  destruct ev as [| | | | | | | | | | | |data|ms| | | | |];
    try (left; apply recency_step; exact I).
  - destruct data as [d [sg|]].
    + rewrite recency_step_vision. destruct (accepts sg s) eqn:E; [|left; reflexivity].
      right. left. exists (Js.toLowerCase (sugLabel sg)). split; [|reflexivity].
      unfold accepts in E. cbn zeta in E.
      apply andb_true_iff in E as [E _]. apply andb_true_iff in E as [_ E].
      apply negb_true_iff in E. apply bool_decide_eq_false in E. exact E.
    + left. apply recency_step_vision_none.
  - rewrite recency_step_elapse. destruct (0 <=? ms) eqn:E; [|left; reflexivity].
    right. right. exists ms. split; [apply Z.leb_le; exact E|reflexivity].
Qed.

Lemma timeoutsOk_recency (a : State) (n : Z) (ts : list (Z * string))
    (r : gset string) :
  recency a = (n, ts, r) ->
  (timeoutsOk a <-> NoDup (map snd ts) /\ forall key, key ∈ map snd ts -> key ∈ r).
Proof. unfold recency, timeoutsOk. intros H. injection H as _ -> ->. reflexivity. Qed.

Lemma not_in_both_parts (ts : list (Z * string)) (P : Z * string -> Prop)
    `{forall p, Decision (P p)} (key : string) :
  NoDup (map snd ts) ->
  key ∈ map snd (filter (fun p => ¬ P p) ts) ->
  key ∈ map snd (filter P ts) -> False.
Proof.
  induction ts as [|p ts IH]; intros Hnd H1 H2.
  - cbn in H1. apply elem_of_nil in H1. exact H1.
  - cbn [map] in Hnd. apply NoDup_cons in Hnd as [Hp Hnd].
    assert (Hsub : forall (Q : Z * string -> Prop) `{forall p, Decision (Q p)} k,
               k ∈ map snd (filter Q ts) -> k ∈ map snd ts).
    { intros Q ? k Hk. apply list_elem_of_fmap in Hk as (q & -> & Hq).
      apply list_elem_of_fmap. exists q. split; [reflexivity|].
      apply list_elem_of_filter in Hq as [_ Hq]. exact Hq. }
    rewrite filter_cons in H1, H2.
    destruct (decide (P p)) as [HP|HP].
    + rewrite decide_False in H1 by tauto.
      cbn [map] in H2. apply elem_of_cons in H2 as [H2|H2].
      * apply Hp. rewrite <- H2. eapply Hsub. exact H1.
      * exact (IH Hnd H1 H2).
    + rewrite decide_True in H1 by exact HP.
      cbn [map] in H1. apply elem_of_cons in H1 as [H1|H1].
      * apply Hp. rewrite <- H1. eapply Hsub. exact H2.
      * exact (IH Hnd H1 H2).
Qed.

(** The bookkeeping of pending deletions stays sound under every event. *)
Lemma timeoutsOk_step (ev : Event) (s : State) :
  timeoutsOk s -> timeoutsOk (step ev s).
Proof.
  intros [Hnd Hin].
  destruct (recency_step_cases ev s) as [H|[(key & Hk & H)|(ms & Hms & H)]];
    apply (timeoutsOk_recency _ _ _ _ H).
  - split; assumption.
  - split.
    + rewrite map_app. cbn [map snd]. apply NoDup_app. split; [exact Hnd|].
      split; [|apply NoDup_singleton].
      intros x Hx Hx'. apply list_elem_of_singleton in Hx'. subst x.
      apply Hk, Hin, Hx.
    + intros x Hx. rewrite map_app in Hx. cbn [map snd] in Hx.
      apply elem_of_app in Hx as [Hx|Hx].
      * apply elem_of_union_r, Hin, Hx.
      * apply list_elem_of_singleton in Hx. subst x. apply elem_of_union_l.
        apply elem_of_singleton. reflexivity.
  - split.
    + refine (sublist_NoDup _ (map snd (timeouts (browser s))) Hnd _).
      apply (fmap_sublist snd). apply sublist_filter.
    + intros x Hx. apply elem_of_difference. split.
      * apply Hin. apply list_elem_of_fmap in Hx as (q & -> & Hq).
        apply list_elem_of_fmap. exists q. split; [reflexivity|].
        apply list_elem_of_filter in Hq as [_ Hq]. exact Hq.
      * intros Hd. apply elem_of_list_to_set in Hd.
        exact (not_in_both_parts (timeouts (browser s))
                 (fun p => fst p ≤ nowMs (browser s) + ms) x Hnd Hx Hd).
Qed.

Lemma timeoutsOk_run (evs : list Event) :
  forall s : State, timeoutsOk s -> timeoutsOk (run evs s).
Proof.
  induction evs as [|ev evs IH]; intros s H; [exact H|].
  cbn [run fold_left]. fold (run evs (step ev s)). apply IH, timeoutsOk_step, H.
Qed.

Lemma timeoutsOk_initial (key : option string) (ids : list string) :
  timeoutsOk (initial key ids).
Proof.
  split; [apply NoDup_nil_2|]. intros x Hx. cbn in Hx. apply elem_of_nil in Hx.
  contradiction.
Qed.

(** The wall clock never runs backwards. *)
Lemma nowMs_step (ev : Event) (s : State) :
  nowMs (browser s) <= nowMs (browser (step ev s)).
Proof.
  destruct (recency_step_cases ev s) as [H|[(key & Hk & H)|(ms & Hms & H)]];
    pose proof (f_equal (fun v => fst (fst v)) H) as Hn; cbn in Hn; lia.
Qed.

Lemma nowMs_run (evs : list Event) :
  forall s : State, nowMs (browser s) <= nowMs (browser (run evs s)).
Proof.
  induction evs as [|ev evs IH]; intros s; [reflexivity|].
  cbn [run fold_left]. fold (run evs (step ev s)).
  pose proof (nowMs_step ev s). pose proof (IH (step ev s)). lia.
Qed.

(** A pending deletion stays pending until its time has come. *)
Lemma pending_step (ev : Event) (s : State) (due : Z) (key : string) :
  (due, key) ∈ timeouts (browser s) ->
  nowMs (browser (step ev s)) < due ->
  (due, key) ∈ timeouts (browser (step ev s)).
Proof.
  intros Hin Hlt.
  destruct (recency_step_cases ev s) as [H|[(k & Hk & H)|(ms & Hms & H)]];
    pose proof (f_equal (fun v => fst (fst v)) H) as Hn;
    pose proof (f_equal (fun v => snd (fst v)) H) as Ht; cbn in Hn, Ht; rewrite Ht.
  - exact Hin.
  - apply elem_of_app. left. exact Hin.
  - apply list_elem_of_filter. split; [|exact Hin]. cbn. lia.
Qed.

Lemma pending_run (evs : list Event) (due : Z) (key : string) :
  forall s : State,
    (due, key) ∈ timeouts (browser s) ->
    nowMs (browser (run evs s)) < due ->
    (due, key) ∈ timeouts (browser (run evs s)).
Proof.
  induction evs as [|ev evs IH]; intros s Hin Hlt; [exact Hin|].
  cbn [run fold_left] in *. fold (run evs (step ev s)) in *.
  apply IH; [|exact Hlt]. apply pending_step; [exact Hin|].
  pose proof (nowMs_run evs (step ev s)). lia.
Qed.

Lemma accepts_true_iff (sg : TimerSuggestion) (s : State) :
  accepts sg s = true <->
  0 < sugDurationSeconds sg /\
  hasExistingTimer (Js.toLowerCase (sugLabel sg)) (timersRef (refs s)) = false /\
  Js.toLowerCase (sugLabel sg) ∉ recentTimerLabelsRef (refs s).
Proof.
  unfold accepts. cbn zeta.
  rewrite !andb_true_iff, !negb_true_iff, bool_decide_eq_false, Z.ltb_lt. tauto.
Qed.

(** A step of the vision sampler changes the timer list only by an
    accepted suggestion. *)
Lemma vision_changed_accepts (d : option string) (sg : TimerSuggestion) (s : State) :
  timers (ui (step (EvVision (mkVisionData d (Some sg))) s)) <> timers (ui s) ->
  accepts sg s = true.
Proof.
  rewrite timers_step_vision. destruct (accepts sg s); [reflexivity|].
  intros H. contradiction.
Qed.

(** Within the suppression window after an accepted suggestion, the label
    key is still in the recent set, whatever happened in between. *)
Lemma recent_within_window (key : option string) (ids : list string)
    (evs0 evs : list Event) (d : option string) (sg : TimerSuggestion) :
  accepts sg (run evs0 (initial key ids)) = true ->
  nowMs (browser (run evs (step (EvVision (mkVisionData d (Some sg)))
                             (run evs0 (initial key ids)))))
  < nowMs (browser (run evs0 (initial key ids))) + suppressionWindow ->
  Js.toLowerCase (sugLabel sg)
  ∈ recentTimerLabelsRef
      (refs (run evs (step (EvVision (mkVisionData d (Some sg)))
                        (run evs0 (initial key ids))))).
Proof.
  intros Ha Hlt.
  pose proof (recency_step_vision d sg (run evs0 (initial key ids))) as Hr.
  rewrite Ha in Hr.
  pose proof (f_equal (fun v => snd (fst v)) Hr) as Ht. cbn in Ht.
  assert (Hok : timeoutsOk (run evs (step (EvVision (mkVisionData d (Some sg)))
                                      (run evs0 (initial key ids))))).
  { apply timeoutsOk_run, timeoutsOk_step, timeoutsOk_run, timeoutsOk_initial. }
  destruct Hok as [_ Hin]. apply Hin.
  apply list_elem_of_fmap.
  exists (nowMs (browser (run evs0 (initial key ids))) + suppressionWindow,
          Js.toLowerCase (sugLabel sg)).
  split; [reflexivity|].
  apply pending_run; [|exact Hlt].
  rewrite Ht. apply elem_of_app. right. apply list_elem_of_singleton. reflexivity.
Qed.

Lemma recent_rejects (d : option string) (sg : TimerSuggestion) (s : State) :
  Js.toLowerCase (sugLabel sg) ∈ recentTimerLabelsRef (refs s) ->
  timers (ui (step (EvVision (mkVisionData d (Some sg))) s)) = timers (ui s).
Proof.
  intros Hin. rewrite timers_step_vision.
  destruct (accepts sg s) eqn:E; [|reflexivity].
  apply accepts_true_iff in E as (_ & _ & E). contradiction.
Qed.

(** Two analyses five seconds apart that suggest the same label. *)
Lemma two_suggestions_one_timer (key : option string) (ids : list string)
    (evs0 : list Event) (l : string) (d1 d2 : Z) (r1 r2 desc1 desc2 : option string) :
  (length (timers (ui (run [EvVision (mkVisionData desc1 (Some (mkSuggestion l d1 r1)));
                            EvElapse 5000;
                            EvVision (mkVisionData desc2 (Some (mkSuggestion l d2 r2)))]
                         (run evs0 (initial key ids)))))
   <= S (length (timers (ui (run evs0 (initial key ids))))))%nat /\
  (accepts (mkSuggestion l d1 r1) (run evs0 (initial key ids)) = true ->
   length (timers (ui (run [EvVision (mkVisionData desc1 (Some (mkSuggestion l d1 r1)));
                            EvElapse 5000;
                            EvVision (mkVisionData desc2 (Some (mkSuggestion l d2 r2)))]
                         (run evs0 (initial key ids)))))
   = S (length (timers (ui (run evs0 (initial key ids)))))).
Proof.
  rewrite !run_cons, run_nil.
  pose proof (recent_within_window key ids evs0 [EvElapse 5000] desc1
                (mkSuggestion l d1 r1)) as Hw.
  rewrite run_cons, run_nil in Hw.
  revert Hw. generalize (run evs0 (initial key ids)). intros s Hw.
  pose proof (timers_step_vision desc1 (mkSuggestion l d1 r1) s) as T1.
  pose proof (recency_step_vision desc1 (mkSuggestion l d1 r1) s) as R1.
  revert Hw T1 R1.
  generalize (step (EvVision (mkVisionData desc1 (Some (mkSuggestion l d1 r1)))) s).
  intros s1 Hw T1 R1.
  pose proof (timers_step_elapse 5000 s1) as T2.
  pose proof (recency_step_elapse 5000 s1) as R2.
  revert Hw T2 R2. generalize (step (EvElapse 5000) s1). intros s2 Hw T2 R2.
  pose proof (timers_step_vision desc2 (mkSuggestion l d2 r2) s2) as T3.
  pose proof (recent_rejects desc2 (mkSuggestion l d2 r2) s2) as J3.
  revert T3 J3.
  generalize (step (EvVision (mkVisionData desc2 (Some (mkSuggestion l d2 r2)))) s2).
  intros s3 T3 J3. cbn [sugLabel] in Hw, J3.
  pose proof (f_equal (fun v => fst (fst v)) R2) as N2. cbn [recency fst snd] in N2.
  replace (0 <=? 5000) with true in N2 by reflexivity. cbn [fst] in N2.
  destruct (accepts (mkSuggestion l d1 r1) s) eqn:Ha.
  - pose proof (f_equal (fun v => fst (fst v)) R1) as N1. cbn [recency fst snd] in N1.
    assert (Hlt : nowMs (browser s2) < nowMs (browser s) + suppressionWindow)
      by (rewrite N2, N1; unfold suppressionWindow; lia).
    rewrite (J3 (Hw eq_refl Hlt)), T2, T1, length_app. cbn [length].
    split; [lia|intros _; lia].
  - split; [|discriminate]. rewrite T3.
    destruct (accepts (mkSuggestion l d2 r2) s2);
      rewrite ?length_app, T2, T1; cbn [length]; lia.
Qed.

(** Two analyses five seconds apart: when the first adds its timer, the
    second adds none. *)
Lemma second_suggestion_adds_nothing (key : option string) (ids : list string)
    (evs0 : list Event) (sg : TimerSuggestion) (d d' : option string) (d2 : Z)
    (r2 : option string) :
  accepts sg (run evs0 (initial key ids)) = true ->
  timers (ui (run [EvVision (mkVisionData d (Some sg)); EvElapse 5000;
                   EvVision (mkVisionData d'
                               (Some (mkSuggestion (sugLabel sg) d2 r2)))]
                (run evs0 (initial key ids)))) =
  timers (ui (step (EvVision (mkVisionData d (Some sg))) (run evs0 (initial key ids)))).
Proof.
  intros Ha.
  rewrite !run_cons, run_nil.
  pose proof (recent_within_window key ids evs0 [EvElapse 5000] d sg Ha) as Hw.
  rewrite run_cons, run_nil in Hw.
  pose proof (recency_step_vision d sg (run evs0 (initial key ids))) as R1.
  rewrite Ha in R1.
  revert Hw R1.
  generalize (run evs0 (initial key ids)). intros s.
  generalize (step (EvVision (mkVisionData d (Some sg))) s). intros s1 Hw R1.
  pose proof (recency_step_elapse 5000 s1) as R2.
  replace (0 <=? 5000) with true in R2 by reflexivity.
  pose proof (timers_step_elapse 5000 s1) as T2.
  revert Hw R2 T2. generalize (step (EvElapse 5000) s1). intros s2 Hw R2 T2.
  pose proof (f_equal (fun v => fst (fst v)) R1) as N1.
  pose proof (f_equal (fun v => fst (fst v)) R2) as N2.
  cbn [recency fst snd] in N1, N2.
  rewrite (recent_rejects d' (mkSuggestion (sugLabel sg) d2 r2) s2).
  - exact T2.
  - cbn [sugLabel]. apply Hw. rewrite N2, N1. unfold suppressionWindow. lia.
Qed.

End VisionFacts.

(** ** Claims about the vision sampler *)

Module VisionClaims.
Import TimerEngine Wire App Caseless Frame DispatchFacts ConnectFacts CaselessFacts
  VisionFacts Scenarios.

(** The condition of [analyzeVision], in the words of the specification. *)
Lemma accepts_spec (sg : TimerSuggestion) (s : State) :
  accepts sg s = true <->
  0 < sugDurationSeconds sg /\
  (forall t : Timer, t ∈ timersRef (refs s) -> ~ overlaps (label t) (sugLabel sg)) /\
  (forall k : string, smallForm (sugLabel sg) k -> k ∉ recentTimerLabelsRef (refs s)).
Proof.
  rewrite accepts_true_iff. split.
  - intros (Hd & Hex & Hrec). split; [exact Hd|]. split.
    + intros t Hin Hov.
      assert (H : hasExistingTimer (Js.toLowerCase (sugLabel sg)) (timersRef (refs s))
                  = true) by (apply hasExistingTimer_spec; exists t; split; assumption).
      congruence.
    + intros k Hk. apply smallForm_spec in Hk. subst k. exact Hrec.
  - intros (Hd & Hex & Hrec). split; [exact Hd|]. split.
    + destruct (hasExistingTimer (Js.toLowerCase (sugLabel sg)) (timersRef (refs s)))
        eqn:E; [|reflexivity].
      apply hasExistingTimer_spec in E as (t & Hin & Hov).
      exfalso. exact (Hex t Hin Hov).
    + apply Hrec. apply smallForm_spec. reflexivity.
Qed.

(** Once the window has passed, the label key has left the recent set. *)
Lemma recent_expires (d : option string) (sg : TimerSuggestion) (s : State) (ms : Z) :
  accepts sg s = true -> 30000 <= ms ->
  Js.toLowerCase (sugLabel sg)
  ∉ recentTimerLabelsRef
      (refs (step (EvElapse ms) (step (EvVision (mkVisionData d (Some sg))) s))).
Proof.
  intros Ha Hms.
  pose proof (recency_step_vision d sg s) as R1. rewrite Ha in R1.
  pose proof (recency_step_elapse ms (step (EvVision (mkVisionData d (Some sg))) s))
    as R2.
  replace (0 <=? ms) with true in R2 by (symmetry; apply Z.leb_le; lia).
  revert R1 R2. generalize (step (EvVision (mkVisionData d (Some sg))) s). intros s1 R1 R2.
  revert R2. generalize (step (EvElapse ms) s1). intros s2 R2.
  unfold recency in R1, R2.
  injection R1 as N1 T1 S1. injection R2 as N2 T2 S2.
  rewrite S2. intros Hin. apply elem_of_difference in Hin as [_ Hin]. apply Hin.
  apply elem_of_list_to_set. apply list_elem_of_fmap.
  exists (nowMs (browser s) + suppressionWindow, Js.toLowerCase (sugLabel sg)).
  split; [reflexivity|]. apply list_elem_of_filter. split.
  - cbn [fst]. rewrite N1. unfold suppressionWindow. lia.
  - rewrite T1. apply elem_of_app. right. apply list_elem_of_singleton. reflexivity.
Qed.

(** C7.  Labels are ASCII, where [Js.toLowerCase] is the platform's
    function.  Take a state reached by events each followed by its render,
    so that the list the sampler reads, [timersRef], is the timer list.
    There an analysis result that suggests a timer leaves the timer list as
    it is or adds the suggested timer at its end.  It adds the timer exactly
    when the suggested duration is positive, no timer has a label of which a
    run of characters is the suggested label up to case, or the other way
    round, and the suggested label in small letters is not in the set of
    recently created ones.  After it has added the timer, every suggestion of
    the same label up to case is ignored as long as less than 30000 ms have
    passed on the clock, whatever else happened in between; once 30000 ms
    have passed the label has left the set.  So two analyses five seconds
    apart that suggest the same label add at most one timer, and when the
    first one adds its timer, that timer is the only one added. *)
Theorem vision_timer_created_once
    (key : option string) (ids : list string) (evs0 : list Event)
    (sg : TimerSuggestion) (d : option string) :
  forallb asciiEvent evs0 = true ->
  Js.isAscii (sugLabel sg) = true ->
  let s := run evs0 (initial key ids) in
  let s1 := step (EvVision (mkVisionData d (Some sg))) s in
  let created :=
    newTimer (hd EmptyString (entropy (browser s))) (sugLabel sg)
      (sugDurationSeconds sg) in
  (timers (ui s1) = timers (ui s) \/ timers (ui s1) = timers (ui s) ++ [created]) /\
  (timers (ui s1) = timers (ui s) ++ [created] <->
   0 < sugDurationSeconds sg /\
   (forall t : Timer, t ∈ timers (ui s) -> ~ overlaps (label t) (sugLabel sg)) /\
   (forall k : string,
      smallForm (sugLabel sg) k -> k ∉ recentTimerLabelsRef (refs s))) /\
  (timers (ui s1) = timers (ui s) ++ [created] ->
   (forall (evs : list Event) (sg' : TimerSuggestion) (d' : option string),
      forallb asciiEvent evs = true ->
      sameText (sugLabel sg') (sugLabel sg) ->
      nowMs (browser (run evs s1)) < nowMs (browser s) + 30000 ->
      timers (ui (step (EvVision (mkVisionData d' (Some sg'))) (run evs s1)))
      = timers (ui (run evs s1))) /\
   (forall (ms : Z) (k : string),
      30000 <= ms -> smallForm (sugLabel sg) k ->
      k ∉ recentTimerLabelsRef (refs (step (EvElapse ms) s1)))) /\
  (forall (d2 : Z) (r2 d' : option string),
     let final :=
       run [EvVision (mkVisionData d (Some sg)); EvElapse 5000;
            EvVision (mkVisionData d' (Some (mkSuggestion (sugLabel sg) d2 r2)))]
         s in
     (length (timers (ui final)) <= S (length (timers (ui s))))%nat /\
     (timers (ui s1) = timers (ui s) ++ [created] ->
      timers (ui final) = timers (ui s) ++ [created])).
Proof.
  intros _ _ s s1 created.
  assert (Hsync : timersRef (refs s) = timers (ui s)).
  { unfold s. rewrite <- (render_run evs0 key ids) at 1. apply timersRef_render. }
  assert (Hstep : timers (ui s1) =
                  if accepts sg s then timers (ui s) ++ [created] else timers (ui s))
    by apply timers_step_vision.
  assert (Hiff : timers (ui s1) = timers (ui s) ++ [created] <-> accepts sg s = true).
  { rewrite Hstep. destruct (accepts sg s); split; try reflexivity; try discriminate.
    intros H. exfalso. apply (f_equal length) in H. rewrite length_app in H.
    cbn [length] in H. lia. }
  split; [|split; [|split]].
  - rewrite Hstep. destruct (accepts sg s); [right|left]; reflexivity.
  - rewrite Hiff, accepts_spec, Hsync. reflexivity.
  - intros Hc. apply Hiff in Hc. split.
    + intros evs sg' d' _ Hsame Hlt. apply recent_rejects.
      apply toLowerCase_same in Hsame. rewrite Hsame.
      exact (recent_within_window key ids evs0 evs d sg Hc Hlt).
    + intros ms k Hms Hk. apply smallForm_spec in Hk. subst k.
      exact (recent_expires d sg s ms Hc Hms).
  - intros d2 r2 d' final. split.
    + destruct sg as [l d1 r1].
      exact (proj1 (two_suggestions_one_timer key ids evs0 l d1 d2 r1 r2 d d')).
    + intros Hc. pose proof Hc as Ha. apply Hiff in Ha.
      subst final s1 created s.
      rewrite (second_suggestion_adds_nothing key ids evs0 sg d d' d2 r2 Ha).
      exact Hc.
Qed.

Lemma vision_timer_created_once_witness :
  let s := run [EvVision (suggest "Eggs" 300 None)] (initial (Some "token") ["a"; "b"]) in
  let s1 := step (EvVision (mkVisionData None (Some pasta))) s in
  forallb asciiEvent [EvVision (suggest "Eggs" 300 None)] = true /\
  Js.isAscii (sugLabel pasta) = true /\
  timers (ui s1) = [newTimer "a" "Eggs" 300; newTimer "b" "Pasta" 480] /\
  0 < sugDurationSeconds pasta /\
  (forall t : Timer, t ∈ timers (ui s) -> ~ overlaps (label t) "Pasta") /\
  timers (ui (step (EvVision (suggest "PASTA" 480 None)) (run [EvElapse 5000] s1)))
  = timers (ui (run [EvElapse 5000] s1)).
Proof.
  intros s s1.
  assert (Hev : forallb asciiEvent [EvVision (suggest "Eggs" 300 None)] = true)
    by reflexivity.
  assert (Hsg : Js.isAscii (sugLabel pasta) = true) by reflexivity.
  assert (Hc : timers (ui s1) = [newTimer "a" "Eggs" 300; newTimer "b" "Pasta" 480])
    by (vm_compute; reflexivity).
  assert (Hlt : nowMs (browser (run [EvElapse 5000] s1)) < nowMs (browser s) + 30000)
    by (vm_compute; reflexivity).
  assert (Hsame : sameText (sugLabel (mkSuggestion "PASTA" 480 None)) (sugLabel pasta)).
  { apply toLowerCase_same. reflexivity. }
  pose proof (vision_timer_created_once (Some "token") ["a"; "b"]
                [EvVision (suggest "Eggs" 300 None)] pasta None Hev Hsg)
    as (_ & H2 & H3 & _).
  fold s in H2, H3. fold s1 in H2, H3.
  assert (Hc' : timers (ui s1) =
                timers (ui s) ++
                [newTimer (hd EmptyString (entropy (browser s))) (sugLabel pasta)
                   (sugDurationSeconds pasta)])
    by (rewrite Hc; vm_compute; reflexivity).
  destruct (proj1 H2 Hc') as (A & B & _).
  split; [exact Hev|]. split; [exact Hsg|]. split; [exact Hc|]. split; [exact A|].
  split; [exact B|].
  exact (proj1 (H3 Hc') [EvElapse 5000] (mkSuggestion "PASTA" 480 None) None
           eq_refl Hsame Hlt).
Defined.

End VisionClaims.

(** * Further properties *)

(** ** Counting down *)

Module CountdownFacts.
Import TimerEngine TimerFacts.

(** A tick of a running timer with more than a second left. *)
Lemma tickTimer_counting (t : Timer) :
  status t = running -> 1 < durationRemaining t ->
  tickTimer t = (with_remaining (durationRemaining t - 1) t, []).
Proof.
  intros Hr Hlt. unfold tickTimer.
  assert (E : is_running t = true) by (apply is_running_true; exact Hr).
  rewrite E. cbn [negb].
  replace (durationRemaining t - 1 <=? 0) with false
    by (symmetry; apply Z.leb_gt; lia).
  cbn [andb]. f_equal. f_equal. lia.
Qed.

(** The tick that takes the last second. *)
Lemma tickTimer_last (t : Timer) :
  status t = running -> durationRemaining t = 1 ->
  tickTimer t = (with_status finished (with_remaining 0 t), [t]).
Proof.
  intros Hr H1. unfold tickTimer.
  assert (E : is_running t = true) by (apply is_running_true; exact Hr).
  rewrite E, H1. reflexivity.
Qed.

Lemma iter_tick_counting (k : nat) (t : Timer) :
  status t = running -> Z.of_nat k < durationRemaining t ->
  Nat.iter k (fun t => fst (tickTimer t)) t =
  with_remaining (durationRemaining t - Z.of_nat k) t.
Proof.
  intros Hr. induction k as [|k IH]; intros Hlt.
  - cbn [Nat.iter]. destruct t; unfold with_remaining; cbn. f_equal. lia.
  - rewrite Nat.iter_succ, IH by lia.
    rewrite tickTimer_counting by (cbn; first [exact Hr | lia]).
    unfold with_remaining; cbn. f_equal. lia.
Qed.

Lemma iter_tick_finished (k : nat) (t : Timer) :
  status t = finished -> Nat.iter k (fun t => fst (tickTimer t)) t = t.
Proof.
  intros Hf. induction k as [|k IH]; [reflexivity|].
  rewrite Nat.iter_succ, IH, tickTimer_not_running; [reflexivity|congruence].
Qed.

Lemma iter_tick_add (a b : nat) (t : Timer) :
  Nat.iter (a + b) (fun t => fst (tickTimer t)) t =
  Nat.iter a (fun t => fst (tickTimer t)) (Nat.iter b (fun t => fst (tickTimer t)) t).
Proof. apply Nat.iter_add. Qed.

(** After as many ticks as it had seconds, and ever after, the timer is
    finished with nothing left. *)
Lemma iter_tick_done (k : nat) (t : Timer) :
  status t = running -> 0 < durationRemaining t ->
  (Z.to_nat (durationRemaining t) <= k)%nat ->
  Nat.iter k (fun t => fst (tickTimer t)) t =
  with_status finished (with_remaining 0 t).
Proof.
  intros Hr Hpos Hle.
  remember (Z.to_nat (durationRemaining t)) as r eqn:Er.
  replace k with ((k - r) + S (r - 1))%nat by lia.
  rewrite iter_tick_add, Nat.iter_succ.
  rewrite (iter_tick_counting (r - 1) t) by (first [exact Hr | lia]).
  rewrite tickTimer_last by (cbn; first [exact Hr | lia]).
  cbn [fst]. apply iter_tick_finished. reflexivity.
Qed.

Lemma paused_iter_tick (k : nat) (t : Timer) :
  status t = paused -> Nat.iter k (fun t => fst (tickTimer t)) t = t.
Proof.
  intros Hp. induction k as [|k IH]; [reflexivity|].
  rewrite Nat.iter_succ, IH, tickTimer_not_running; [reflexivity|congruence].
Qed.

End CountdownFacts.

Module CountdownProperties.
Import TimerEngine TimerFacts CountdownFacts.

(** X1.  A running timer with [r > 0] seconds left counts down one second
    per tick: after [k < r] ticks it is still running with [r - k] seconds
    left, the tick number [r] (and no earlier one) raises its completion
    event, and from then on it is finished with nothing left and raises no
    further event. *)
Theorem countdown_finishes_on_time (ts : list Timer) (i : nat) (t : Timer) (k : nat) :
  ts !! i = Some t -> status t = running -> 0 < durationRemaining t ->
  ((k < Z.to_nat (durationRemaining t))%nat ->
     ticks k ts !! i = Some (with_remaining (durationRemaining t - Z.of_nat k) t) /\
     completions_at i (ticks k ts) =
       if decide (S k = Z.to_nat (durationRemaining t))
       then [with_remaining 1 t] else []) /\
  ((Z.to_nat (durationRemaining t) <= k)%nat ->
     ticks k ts !! i = Some (with_status finished (with_remaining 0 t)) /\
     completions_at i (ticks k ts) = []).
Proof.
  intros Hi Hr Hpos. split; intros Hk.
  - assert (Hl : ticks k ts !! i =
                 Some (with_remaining (durationRemaining t - Z.of_nat k) t)).
    { rewrite ticks_lookup, Hi. cbn. rewrite iter_tick_counting by (first [exact Hr | lia]).
      reflexivity. }
    split; [exact Hl|]. unfold completions_at. rewrite Hl.
    destruct (decide (S k = Z.to_nat (durationRemaining t))) as [E|E].
    + rewrite tickTimer_last by (cbn; first [exact Hr | lia]).
      cbn [snd]. unfold with_remaining; cbn. do 2 f_equal. lia.
    + rewrite tickTimer_counting by (cbn; first [exact Hr | lia]). reflexivity.
  - assert (Hl : ticks k ts !! i = Some (with_status finished (with_remaining 0 t))).
    { rewrite ticks_lookup, Hi. cbn. rewrite iter_tick_done by assumption.
      reflexivity. }
    split; [exact Hl|]. unfold completions_at. rewrite Hl.
    rewrite tickTimer_not_running; [reflexivity|]. cbn. discriminate.
Qed.

Lemma countdown_finishes_on_time_witness :
  ((1 < Z.to_nat (durationRemaining (newTimer "t1" "Egg" 3)))%nat ->
     ticks 1 [newTimer "t1" "Egg" 3] !! 0%nat =
       Some (with_remaining (durationRemaining (newTimer "t1" "Egg" 3) - Z.of_nat 1)
               (newTimer "t1" "Egg" 3)) /\
     completions_at 0 (ticks 1 [newTimer "t1" "Egg" 3]) =
       if decide (2%nat = Z.to_nat (durationRemaining (newTimer "t1" "Egg" 3)))
       then [with_remaining 1 (newTimer "t1" "Egg" 3)] else []) /\
  ((Z.to_nat (durationRemaining (newTimer "t1" "Egg" 3)) <= 1)%nat ->
     ticks 1 [newTimer "t1" "Egg" 3] !! 0%nat =
       Some (with_status finished (with_remaining 0 (newTimer "t1" "Egg" 3))) /\
     completions_at 0 (ticks 1 [newTimer "t1" "Egg" 3]) = []).
Proof.
  apply (countdown_finishes_on_time [newTimer "t1" "Egg" 3] 0 (newTimer "t1" "Egg" 3) 1).
  - reflexivity.
  - reflexivity.
  - reflexivity.
Defined.

(** X2.  Pausing freezes a timer: paused, left through any number of
    ticks and resumed, it is running again with the remaining time it was
    paused at. *)
Theorem pause_freezes_remaining (ts : list Timer) (i : nat) (t : Timer) (n : nat) :
  ts !! i = Some t ->
  toggleTimer (timerId t) false (ticks n (toggleTimer (timerId t) true ts)) !! i =
  Some (with_status running t).
Proof.
  intros Hi.
  rewrite toggleTimer_lookup, ticks_lookup, toggleTimer_lookup, Hi.
  cbn [fmap option_fmap option_map].
  rewrite (bool_decide_true (timerId t = timerId t)) by reflexivity.
  rewrite paused_iter_tick by reflexivity.
  cbn [with_status timerId].
  rewrite bool_decide_true by reflexivity. reflexivity.
Qed.

Lemma pause_freezes_remaining_witness :
  toggleTimer (timerId (newTimer "t1" "Egg" 3)) false
    (ticks 5 (toggleTimer (timerId (newTimer "t1" "Egg" 3)) true
                [newTimer "t1" "Egg" 3])) !! 0%nat =
  Some (with_status running (newTimer "t1" "Egg" 3)).
Proof.
  apply (pause_freezes_remaining [newTimer "t1" "Egg" 3] 0 (newTimer "t1" "Egg" 3) 5).
  reflexivity.
Defined.

End CountdownProperties.

(** ** The buttons of the timer card *)

Module TimerCardFacts.
Import TimerEngine TimerFacts TimerCard.

Lemma ids_tick (ts : list Timer) : map timerId (fst (tick ts)) = map timerId ts.
Proof.
  unfold tick. destruct (existsb is_running ts); cbn [fst negb]; [|reflexivity].
  rewrite map_map. apply map_ext. intros t. unfold tickTimer.
  destruct (is_running t); cbn [negb]; [|reflexivity].
  match goal with |- context [if ?b then _ else _] => destruct b end; reflexivity.
Qed.

Lemma ids_toggleTimer (id : string) (pause : bool) (ts : list Timer) :
  map timerId (toggleTimer id pause ts) = map timerId ts.
Proof.
  unfold toggleTimer. rewrite map_map. apply map_ext. intros t.
  destruct (bool_decide (timerId t = id)); reflexivity.
Qed.

Lemma ids_resetTimer (id : string) (ts : list Timer) :
  map timerId (resetTimer id ts) = map timerId ts.
Proof.
  unfold resetTimer. rewrite map_map. apply map_ext. intros t.
  destruct (bool_decide (timerId t = id)); reflexivity.
Qed.

Lemma ids_removeTimer (id : string) (ts : list Timer) :
  map timerId (removeTimer id ts) `sublist_of` map timerId ts.
Proof. apply fmap_sublist, sublist_filter. Qed.

(** With distinct ids an id names one timer. *)
Lemma same_id_same_timer (ts : list Timer) (a b : Timer) :
  NoDup (map timerId ts) -> a ∈ ts -> b ∈ ts -> timerId a = timerId b -> a = b.
Proof.
  intros Hnd Ha Hb Hid.
  apply list_elem_of_lookup in Ha as [i Hi].
  apply list_elem_of_lookup in Hb as [j Hj].
  assert (i = j).
  { eapply NoDup_lookup; [exact Hnd| |].
    - change (map timerId ts) with (timerId <$> ts).
      rewrite list_lookup_fmap, Hi. reflexivity.
    - change (map timerId ts) with (timerId <$> ts).
      rewrite list_lookup_fmap, Hj. cbn. congruence. }
  subst j. congruence.
Qed.

Lemma sound_tickTimer (t : Timer) : sound t -> sound (fst (tickTimer t)).
Proof.
  intros (Ho & Hle & Hf & Hnf).
  destruct (decide (status t = running)) as [Hr|Hr].
  - rewrite (tickTimer_running t Hr). unfold sound. cbn.
    assert (0 < durationRemaining t) by (apply Hnf; congruence).
    replace (0 <? durationRemaining t) with true by (symmetry; apply Z.ltb_lt; lia).
    destruct (durationRemaining t - 1 <=? 0) eqn:E.
    + apply Z.leb_le in E. repeat split; try lia. intros; congruence.
    + apply Z.leb_gt in E. repeat split; try lia. discriminate.
  - rewrite (tickTimer_not_running t Hr). repeat split; assumption.
Qed.

Lemma sound_newTimer (id l : string) (d : Z) : 0 < d -> sound (newTimer id l d).
Proof. intros Hd. unfold sound; cbn. repeat split; try lia. discriminate. Qed.

Ltac shown H :=
  unfold buttons in H;
  repeat match type of H with
         | context [if ?b then _ else _] => destruct b eqn:?
         end;
  repeat (apply elem_of_cons in H as [H|H]; [try discriminate H|]);
  try (apply elem_of_nil in H; contradiction).

(** What a button on a card says about the status of its timer. *)
Lemma pause_shown (t : Timer) : BtnPause ∈ buttons t -> status t = running.
Proof. intros H. shown H. apply is_running_true. assumption. Qed.

Lemma resume_shown (t : Timer) : BtnResume ∈ buttons t -> status t <> finished.
Proof.
  intros H. shown H. intros Hf. apply is_finished_true in Hf. congruence.
Qed.

Lemma reset_shown (t : Timer) : BtnReset ∈ buttons t -> status t = finished.
Proof. intros H. shown H. apply is_finished_true. assumption. Qed.

(** The state the card buttons keep: every timer is sound and no two
    timers share an id. *)
Lemma perform_keeps_sound (a : Action) (ts : list Timer) :
  regular a ts = true ->
  Forall sound ts /\ NoDup (map timerId ts) ->
  Forall sound (perform a ts) /\ NoDup (map timerId (perform a ts)).
Proof.
  intros Hreg [Hs Hnd]. destruct a as [|i b|newId l d]; cbn [perform].
  - rewrite ids_tick. split; [|exact Hnd].
    apply Forall_lookup. intros j t' Hj. rewrite tick_lookup in Hj.
    destruct (ts !! j) as [t|] eqn:Ht; [|discriminate]. cbn in Hj.
    injection Hj as <-. apply sound_tickTimer.
    eapply Forall_lookup_1; eassumption.
  - destruct (ts !! i) as [timer|] eqn:Hi; [|split; assumption].
    case_bool_decide as Hb; [|split; assumption].
    assert (Hin : timer ∈ ts) by (eapply list_elem_of_lookup_2; exact Hi).
    assert (Hst : sound timer) by (eapply Forall_lookup_1; eassumption).
    destruct Hst as (Ho & Hle & Hf & Hnf).
    assert (Hone : forall t, t ∈ ts -> timerId t = timerId timer -> t = timer).
    { intros t Ht Hid. eapply same_id_same_timer; eassumption. }
    destruct b; cbn [press].
    + (* pause *)
      rewrite ids_toggleTimer. split; [|exact Hnd].
      unfold toggleTimer. apply Forall_fmap, Forall_forall. intros t Ht. cbn.
      pose proof (proj1 (Forall_forall _ _) Hs t Ht) as Hsound.
      case_bool_decide as Hid; [|exact Hsound].
      apply Hone in Hid; [|exact Ht]. subst t.
      apply pause_shown in Hb.
      unfold sound; cbn. repeat split; try assumption; try discriminate.
      intros _. apply Hnf. congruence.
    + (* resume *)
      rewrite ids_toggleTimer. split; [|exact Hnd].
      unfold toggleTimer. apply Forall_fmap, Forall_forall. intros t Ht. cbn.
      pose proof (proj1 (Forall_forall _ _) Hs t Ht) as Hsound.
      case_bool_decide as Hid; [|exact Hsound].
      apply Hone in Hid; [|exact Ht]. subst t.
      apply resume_shown in Hb.
      unfold sound; cbn. repeat split; try assumption; try discriminate.
      intros _. apply Hnf. exact Hb.
    + (* reset *)
      rewrite ids_resetTimer. split; [|exact Hnd].
      unfold resetTimer. apply Forall_fmap, Forall_forall. intros t Ht. cbn.
      pose proof (proj1 (Forall_forall _ _) Hs t Ht) as Hsound.
      case_bool_decide as Hid; [|exact Hsound].
      unfold sound; cbn. destruct Hsound as (Ho' & _).
      repeat split; try lia. discriminate.
    + (* delete *)
      split.
      * unfold removeTimer. apply Forall_forall. intros t Ht.
        apply list_elem_of_filter in Ht as [_ Ht].
        exact (proj1 (Forall_forall _ _) Hs t Ht).
      * eapply sublist_NoDup; [exact Hnd|apply ids_removeTimer].
  - cbn [regular] in Hreg. apply andb_true_iff in Hreg as [Hd Hfresh].
    apply Z.ltb_lt in Hd. apply bool_decide_eq_true in Hfresh.
    unfold appendTimer. split.
    + apply Forall_app. split; [exact Hs|].
      apply Forall_singleton, sound_newTimer, Hd.
    + rewrite map_app. cbn [map newTimer timerId]. apply NoDup_app.
      split; [exact Hnd|]. split; [|apply NoDup_singleton].
      intros x Hx Hx'. apply list_elem_of_singleton in Hx'. subst x.
      exact (Hfresh Hx).
Qed.

Lemma performAll_keeps_sound (acts : list Action) :
  forall ts : list Timer,
    regularAll acts ts = true ->
    Forall sound ts /\ NoDup (map timerId ts) ->
    Forall sound (performAll acts ts) /\ NoDup (map timerId (performAll acts ts)).
Proof.
  induction acts as [|a acts IH]; intros ts Hreg Hinv; [exact Hinv|].
  cbn [regularAll] in Hreg. apply andb_true_iff in Hreg as [Ha Hrest].
  cbn [performAll fold_left]. apply IH; [exact Hrest|].
  apply perform_keeps_sound; assumption.
Qed.

End TimerCardFacts.

Module TimerCardProperties.
Import TimerEngine TimerFacts TimerCard TimerCardFacts.

(** X3.  Through ticks, the buttons that the timer cards show and
    creations with a positive duration and an unused id, every timer of the
    list keeps a positive original duration and a remaining time that does
    not exceed it, is finished exactly when no time is left, and no two timers
    share an id. *)
Theorem card_buttons_keep_timers_sound (acts : list Action) (t : Timer) :
  regularAll acts [] = true ->
  t ∈ performAll acts [] ->
  0 < durationOriginal t /\
  0 <= durationRemaining t <= durationOriginal t /\
  (status t = finished <-> durationRemaining t = 0) /\
  NoDup (map timerId (performAll acts [])).
Proof.
  intros Hreg Ht.
  destruct (performAll_keeps_sound acts [] Hreg) as [Hs Hnd].
  { split; [constructor|]. cbn. apply NoDup_nil_2. }
  pose proof (proj1 (Forall_forall _ _) Hs t Ht) as (Ho & Hle & Hf & Hnf).
  split; [exact Ho|].
  assert (0 <= durationRemaining t).
  { destruct (decide (status t = finished)) as [E|E]; [rewrite Hf by exact E; lia|].
    specialize (Hnf E). lia. }
  split; [lia|]. split; [|exact Hnd].
  split; [exact Hf|]. intros Hz.
  destruct (decide (status t = finished)) as [E|E]; [exact E|].
  specialize (Hnf E). lia.
Qed.

Lemma card_buttons_keep_timers_sound_witness :
  0 < durationOriginal Examples.eggPaused /\
  0 <= durationRemaining Examples.eggPaused <= durationOriginal Examples.eggPaused /\
  (status Examples.eggPaused = finished <-> durationRemaining Examples.eggPaused = 0) /\
  NoDup (map timerId (performAll Examples.eggActions [])).
Proof.
  assert (Hreg : regularAll Examples.eggActions [] = true) by (vm_compute; reflexivity).
  assert (Hin : Examples.eggPaused ∈ performAll Examples.eggActions [])
    by (vm_compute; apply list_elem_of_here).
  exact (card_buttons_keep_timers_sound Examples.eggActions Examples.eggPaused Hreg Hin).
Defined.

End TimerCardProperties.

(** ** What the handlers do to the content *)

Module ContentFacts.
Import TimerEngine Wire App Frame DispatchFacts Content.

Lemma changes_app (cs1 cs2 : list Change) (x : Content) :
  changes (cs1 ++ cs2) x = changes cs2 (changes cs1 x).
Proof. unfold changes. apply fold_left_app. Qed.

Lemma explains_refl (ev : Event) (x : Content) : explains ev x x.
Proof. exists []. split; [constructor|reflexivity]. Qed.

Lemma explains_eq (ev : Event) (x y : Content) : y = x -> explains ev x y.
Proof. intros ->. apply explains_refl. Qed.

Lemma explains_one (ev : Event) (c : Change) (x : Content) :
  allowed ev c -> explains ev x (change c x).
Proof. intros H. exists [c]. split; [repeat constructor; exact H|reflexivity]. Qed.

Lemma explains_trans (ev : Event) (x y z : Content) :
  explains ev x y -> explains ev y z -> explains ev x z.
Proof.
  intros (cs1 & H1 & ->) (cs2 & H2 & ->). exists (cs1 ++ cs2).
  split; [apply Forall_app; split; assumption|].
  symmetry. apply changes_app.
Qed.

Lemma content_render (s : State) : content (render s) = content s.
Proof. unfold content. rewrite ui_render. reflexivity. Qed.

Lemma content_onTick (s : State) : content (onTick s) = change ChTick (content s).
Proof. unfold content. rewrite ui_onTick. reflexivity. Qed.

Lemma content_stopSession (keepCamera : bool) (s : State) :
  content (stopSession keepCamera s) = content s.
Proof. teardown_cases s; destruct keepCamera; reflexivity. Qed.

Lemma content_connectToGemini (s : State) :
  content (connectToGemini s) = content s \/
  content (connectToGemini s) = change ChClearLogs (content s).
Proof.
  unfold connectToGemini. destruct (apiKeyMissing s); [left; reflexivity|].
  destruct (isConnecting (ui s) || isConnected (ui s)); [left; reflexivity|].
  right. teardown_cases s; reflexivity.
Qed.

Lemma content_resume (k : nat) (video : bool) (s : State) :
  content (connectToGemini_resume k video s) = content s.
Proof.
  unfold connectToGemini_resume.
  destruct (pendingMedia (browser s) !! k) as [pc|]; [|reflexivity].
  destruct (pcResumed pc); [reflexivity|]. destruct video; reflexivity.
Qed.

Lemma content_catch (k : nat) (s : State) :
  content (connectToGemini_catch k s) = content s.
Proof.
  unfold connectToGemini_catch.
  destruct (pendingMedia (browser s) !! k) as [pc|]; [|reflexivity].
  destruct (pcResumed pc); [reflexivity|]. rewrite content_stopSession. reflexivity.
Qed.

Lemma content_appendLog (txt : string) (s : State) :
  content (appendLog txt s) =
  change (ChLog (mkVisionLog (nowMs (browser s)) txt)) (content s).
Proof. reflexivity. Qed.

Lemma content_addTimer (l : string) (d : Z) (r : option string) (s : State) :
  content (addTimer l d r s) =
  change (ChCreate (hd EmptyString (entropy (browser s))) l d) (content s).
Proof. reflexivity. Qed.

Lemma content_handleTranscription (ev : Event) (prefix : string)
    (t : option string) (s : State) :
  (forall e, allowed ev (ChLog e)) ->
  explains ev (content s) (content (handleTranscription prefix t s)).
Proof.
  intros Hlog. unfold handleTranscription.
  destruct t as [txt|]; [destruct (Js.truthy txt)|]; try apply explains_refl.
  rewrite content_appendLog. apply explains_one, Hlog.
Qed.

(** One call of a batch. *)
Lemma content_resolveCall (ev : Event) (fc : FunctionCall) (s : State) :
  (forall e, allowed ev (ChLog e)) ->
  (callName fc = "createTimer" ->
   forall id l, allowed ev (ChCreate id l (argDurationSeconds (callArgs fc)))) ->
  explains ev (content s) (content (fst (resolveCall fc s))).
Proof.
  intros Hlog Hcreate. unfold resolveCall.
  case_bool_decide as H1.
  { cbn [fst]. rewrite content_addTimer. apply explains_one, Hcreate, H1. }
  case_bool_decide as H2; [apply explains_refl|].
  case_bool_decide as H3.
  { cbn [fst]. rewrite content_appendLog. apply explains_one, Hlog. }
  case_bool_decide as H4; [|apply explains_refl].
  destruct (activeRecipeRef (refs s)); apply explains_refl.
Qed.

Lemma content_dispatch (ev : Event) (calls : list FunctionCall) :
  (forall e, allowed ev (ChLog e)) ->
  (forall fc, fc ∈ calls -> callName fc = "createTimer" ->
   forall id l, allowed ev (ChCreate id l (argDurationSeconds (callArgs fc)))) ->
  forall (s : State) (rs : list FunctionResponse),
    explains ev (content s)
      (content (fst (fold_left (fun acc fc => dispatchCall fc acc) calls (s, rs)))).
Proof.
  intros Hlog. induction calls as [|fc calls IH]; intros Hcreate s rs.
  - apply explains_refl.
  - cbn [fold_left]. rewrite dispatchCall_eq.
    eapply explains_trans; [|apply IH].
    + apply content_resolveCall; [exact Hlog|].
      apply Hcreate. apply list_elem_of_here.
    + intros fc' Hin. apply Hcreate. apply list_elem_of_further, Hin.
Qed.

Lemma content_send (c : nat) (o : Outbound) (s : State) :
  content (send c o s) = content s.
Proof. reflexivity. Qed.

Lemma content_handleToolCall (ev : Event) (c : nat) (calls : list FunctionCall)
    (s : State) :
  (forall e, allowed ev (ChLog e)) ->
  (forall fc, fc ∈ calls -> callName fc = "createTimer" ->
   forall id l, allowed ev (ChCreate id l (argDurationSeconds (callArgs fc)))) ->
  explains ev (content s) (content (handleToolCall c calls s)).
Proof.
  intros Hlog Hcreate. unfold handleToolCall, dispatchAll.
  pose proof (content_dispatch ev calls Hlog Hcreate
                (upd_ui (fun u => set_isListening false (set_isProcessing true u)) s) [])
    as H.
  destruct (fold_left _ calls _) as [s1 responses]. cbn [fst] in H.
  rewrite content_send. exact H.
Qed.

Lemma requested_duration (msg : LiveServerMessage) (calls : list FunctionCall)
    (fc : FunctionCall) :
  toolCall msg = Some calls -> fc ∈ calls -> callName fc = "createTimer" ->
  argDurationSeconds (callArgs fc) ∈ requestedDurations msg.
Proof.
  intros Hm Hin Hname. unfold requestedDurations. rewrite Hm. cbn [default].
  apply list_elem_of_fmap. exists fc. split; [reflexivity|].
  apply list_elem_of_filter. split; assumption.
Qed.

Lemma content_onmessage (c : nat) (msg : LiveServerMessage) (s : State) :
  explains (EvMessage c msg) (content s) (content (onmessage c msg s)).
Proof.
  unfold onmessage. destruct (channels (browser s) !! c) as [ch|];
    [|apply explains_refl].
  set (s0 := if turnComplete msg then handleTurnComplete s else s).
  set (s1 := if interrupted msg then handleInterrupted s0 else s0).
  set (s2a := handleTranscription "🎤 You: " (inputTranscription msg) s1).
  set (s2 := handleTranscription "🤖 Chef: " (outputTranscription msg) s2a).
  set (s3 := match audioData msg with
             | Some duration => handleAudio (outputCtx ch) duration s2
             | None => s2
             end).
  assert (H0 : content s0 = content s)
    by (unfold s0; destruct (turnComplete msg); reflexivity).
  assert (H1 : content s1 = content s0)
    by (unfold s1; destruct (interrupted msg); reflexivity).
  assert (Hlog : forall e, allowed (EvMessage c msg) (ChLog e)) by (intros e; exact I).
  assert (H2a : explains (EvMessage c msg) (content s1) (content s2a))
    by (apply content_handleTranscription, Hlog).
  assert (H2 : explains (EvMessage c msg) (content s2a) (content s2))
    by (apply content_handleTranscription, Hlog).
  assert (H3 : content s3 = content s2).
  { unfold s3. destruct (audioData msg) as [d|]; [|reflexivity].
    unfold handleAudio. cbn zeta.
    match goal with |- context [if ?b then _ else _] => destruct b end; reflexivity. }
  assert (H : explains (EvMessage c msg) (content s) (content s3)).
  { rewrite H3, <- H0, <- H1. eapply explains_trans; eassumption. }
  destruct (toolCall msg) as [calls|] eqn:Hm; [|exact H].
  eapply explains_trans; [exact H|].
  apply content_handleToolCall; [exact Hlog|].
  intros fc Hin Hname id l. cbn [allowed].
  eapply requested_duration; eassumption.
Qed.

Lemma content_dispatchEnded (n : nat) (s : State) :
  content (dispatchEnded n s) = content s.
Proof.
  unfold dispatchEnded. destruct (ended_due n (browser s)); [|reflexivity].
  unfold onended.
  match goal with |- context [bool_decide ?P] => destruct (bool_decide P) end;
    reflexivity.
Qed.

Lemma content_handleSuggestion (data : VisionData) (sg : TimerSuggestion) (s : State) :
  explains (EvVision data) (content s) (content (handleSuggestion sg s)).
Proof.
  unfold handleSuggestion.
  match goal with |- context [if ?b then _ else _] => destruct b eqn:E end;
    [|apply explains_refl].
  apply andb_true_iff in E as [_ Hd]. apply Z.ltb_lt in Hd.
  assert (H : explains (EvVision data) (content s)
                (change (ChCreate (hd EmptyString (entropy (browser s)))
                           (sugLabel sg) (sugDurationSeconds sg)) (content s)))
    by (apply explains_one; exact Hd).
  destruct (sugReason sg) as [r|]; [destruct (Js.truthy r)|]; try exact H.
  eapply explains_trans; [exact H|].
  rewrite content_appendLog. apply explains_one. exact I.
Qed.

Lemma content_analyzeVision_response (data : VisionData) (s : State) :
  explains (EvVision data) (content s) (content (analyzeVision_response data s)).
Proof.
  unfold analyzeVision_response.
  set (s1 := match description data with
             | Some d => if Js.truthy d then appendLog d s else s
             | None => s
             end).
  assert (H1 : explains (EvVision data) (content s) (content s1)).
  { unfold s1. destruct (description data) as [d|]; [destruct (Js.truthy d)|];
      try apply explains_refl.
    rewrite content_appendLog. apply explains_one. exact I. }
  destruct (timerSuggestion data) as [sg|]; [|exact H1].
  eapply explains_trans; [exact H1|apply content_handleSuggestion].
Qed.

Lemma content_selectRecipe (r : option Recipe) (s : State) :
  content (selectRecipe r s) = change (ChSelect r) (content s).
Proof. open_state s. destruct sess, r; reflexivity. Qed.

(** Every event changes the content by updates it is allowed to make. *)
Lemma step_explains (ev : Event) (s : State) :
  explains ev (content s) (content (step ev s)).
Proof.
  unfold step. rewrite content_render.
  destruct ev; cbn [handle]; unfold onChannel;
    try (destruct (channels (browser s) !! c); [|apply explains_refl]).
  - rewrite content_onTick. apply explains_one. exact I.
  - destruct (content_connectToGemini s) as [-> | ->];
      [apply explains_refl|apply explains_one; exact I].
  - unfold handleClick. destruct (isConnecting (ui s)); [apply explains_refl|].
    destruct (isConnected (ui s)).
    + rewrite content_stopSession. apply explains_refl.
    + destruct (content_connectToGemini s) as [-> | ->];
        [apply explains_refl|apply explains_one; exact I].
  - rewrite content_stopSession. apply explains_refl.
  - rewrite content_resume. apply explains_refl.
  - rewrite content_catch. apply explains_refl.
  - apply explains_refl.
  - apply content_onmessage.
  - unfold onclose. rewrite content_stopSession. apply explains_refl.
  - unfold onerror. rewrite content_stopSession. apply explains_refl.
  - unfold onrejected. rewrite content_stopSession. apply explains_refl.
  - rewrite content_dispatchEnded. apply explains_refl.
  - apply content_analyzeVision_response.
  - destruct (0 <=? ms); apply explains_refl.
  - apply (explains_one _ (ChToggle id pause)). split; reflexivity.
  - apply (explains_one _ (ChReset id)). reflexivity.
  - apply (explains_one _ (ChRemove id)). reflexivity.
  - rewrite content_selectRecipe. apply explains_one. reflexivity.
  - apply (explains_one _ (ChSetStep n)). reflexivity.
Qed.

(** A property of the content that every allowed update keeps holds in
    every state the component reaches. *)
Lemma explains_keeps (R : Content -> Prop) (ev : Event) (x y : Content) :
  (forall c x, allowed ev c -> R x -> R (change c x)) ->
  explains ev x y -> R x -> R y.
Proof.
  intros Hstep (cs & Hcs & ->). revert x.
  induction Hcs as [|c cs Hc _ IH]; intros x Hx; [exact Hx|].
  cbn [changes fold_left]. apply IH, Hstep; assumption.
Qed.

Lemma run_keeps (R : Content -> Prop) (ok : Event -> bool) (evs : list Event) :
  (forall ev c x, ok ev = true -> allowed ev c -> R x -> R (change c x)) ->
  forall s : State,
    forallb ok evs = true -> R (content s) -> R (content (run evs s)).
Proof.
  intros Hstep. induction evs as [|ev evs IH]; intros s Hok Hs; [exact Hs|].
  cbn [forallb] in Hok. apply andb_true_iff in Hok as [Hev Hrest].
  rewrite run_cons. apply IH; [exact Hrest|].
  eapply explains_keeps; [|apply step_explains|exact Hs].
  intros c x. apply Hstep, Hev.
Qed.

End ContentFacts.

(** ** Invariants of the timer list and of the log *)

Module ContentProperties.
Import TimerEngine TimerFacts Wire App Frame Content ContentFacts.

Lemma Forall_tick (P : Timer -> Prop) (ts : list Timer) :
  (forall t, P t -> P (fst (tickTimer t))) ->
  Forall P ts -> Forall P (fst (tick ts)).
Proof.
  intros Hp Hts. apply Forall_lookup. intros j t' Hj. rewrite tick_lookup in Hj.
  destruct (ts !! j) as [t|] eqn:Ht; [|discriminate]. cbn in Hj.
  injection Hj as <-. apply Hp. eapply Forall_lookup_1; eassumption.
Qed.

Lemma Forall_removeTimer (P : Timer -> Prop) (id : string) (ts : list Timer) :
  Forall P ts -> Forall P (removeTimer id ts).
Proof.
  intros Hts. apply Forall_forall. intros t Ht.
  apply list_elem_of_filter in Ht as [_ Ht].
  exact (proj1 (Forall_forall _ _) Hts t Ht).
Qed.

(** What the timer operations keep, for a property of single timers. *)
Lemma timers_keep (P : Timer -> Prop) (ok : Event -> bool) :
  (forall t, P t -> P (fst (tickTimer t))) ->
  (forall t st, st <> finished -> P t -> P (with_status st t)) ->
  (forall t, P t -> P (with_remaining (durationOriginal t) (with_status running t))) ->
  (forall ev id l d, ok ev = true -> allowed ev (ChCreate id l d) ->
                     P (newTimer id l d)) ->
  forall (ev : Event) (c : Change) (x : Content),
    ok ev = true -> allowed ev c ->
    Forall P (fst (fst (fst x))) -> Forall P (fst (fst (fst (change c x)))).
Proof.
  intros Htick Hstatus Hreset Hnew ev c [[[ts ls] st] rc] Hok Hc Hts.
  cbn [fst] in Hts. destruct c; cbn [change fst]; try exact Hts.
  - apply Forall_tick; assumption.
  - unfold toggleTimer. apply Forall_fmap, Forall_forall. intros t Ht. cbn.
    pose proof (proj1 (Forall_forall _ _) Hts t Ht) as Hp.
    destruct (bool_decide (timerId t = id)); [|exact Hp].
    apply Hstatus; [destruct pause; discriminate|exact Hp].
  - unfold resetTimer. apply Forall_fmap, Forall_forall. intros t Ht. cbn.
    pose proof (proj1 (Forall_forall _ _) Hts t Ht) as Hp.
    destruct (bool_decide (timerId t = id)); [|exact Hp].
    apply Hreset, Hp.
  - apply Forall_removeTimer, Hts.
  - unfold appendTimer. apply Forall_app. split; [exact Hts|].
    apply Forall_singleton. eapply Hnew; eassumption.
Qed.

Lemma requestsNonneg_allowed (ev : Event) (id l : string) (d : Z) :
  requestsNonneg ev = true -> allowed ev (ChCreate id l d) -> 0 <= d.
Proof.
  intros Hok Hc. destruct ev; cbn [allowed] in Hc; try contradiction.
  - cbn [requestsNonneg] in Hok.
    apply list_elem_of_In in Hc.
    apply Z.leb_le. exact (proj1 (forallb_forall _ _) Hok d Hc).
  - lia.
Qed.

(** X4.  In every state the component reaches, every timer has a remaining
    time between zero and its original duration, provided no [createTimer]
    call of the remote engine asks for a negative duration. *)
Theorem remaining_within_original (key : option string) (ids : list string)
    (evs : list Event) (t : Timer) :
  forallb requestsNonneg evs = true ->
  t ∈ timers (ui (run evs (initial key ids))) ->
  0 <= durationRemaining t <= durationOriginal t.
Proof.
  intros Hok Ht.
  pose (P := fun t : Timer => 0 <= durationRemaining t <= durationOriginal t).
  assert (H : Forall P (fst (fst (fst (content (run evs (initial key ids))))))).
  { apply (run_keeps (fun x => Forall P (fst (fst (fst x)))) requestsNonneg evs);
      [|exact Hok|constructor].
    apply timers_keep.
    - intros t0 Hp. unfold P in *.
      destruct (decide (status t0 = running)) as [Hr|Hr].
      + rewrite (tickTimer_running t0 Hr). cbn. lia.
      + rewrite (tickTimer_not_running t0 Hr). exact Hp.
    - intros t0 st _ Hp. exact Hp.
    - intros t0 Hp. unfold P in *. cbn. lia.
    - intros ev id l d Hev Hc. unfold P. cbn.
      pose proof (requestsNonneg_allowed ev id l d Hev Hc). lia. }
  exact (proj1 (Forall_forall _ _) H t Ht).
Qed.

Lemma remaining_within_original_witness :
  0 <= durationRemaining Examples.pastaRunning <= durationOriginal Examples.pastaRunning.
Proof.
  assert (Hok : forallb requestsNonneg Examples.pastaSession = true)
    by (vm_compute; reflexivity).
  assert (Hin : Examples.pastaRunning
                  ∈ timers (ui (run Examples.pastaSession (initial (Some "token") ["a"]))))
    by (vm_compute; apply list_elem_of_here).
  exact (remaining_within_original (Some "token") ["a"] Examples.pastaSession Examples.pastaRunning
           Hok Hin).
Defined.

(** X5.  In every state the component reaches, a finished timer has no
    time left. *)
Theorem finished_timer_has_no_time_left (key : option string) (ids : list string)
    (evs : list Event) (t : Timer) :
  t ∈ timers (ui (run evs (initial key ids))) ->
  status t = finished -> durationRemaining t = 0.
Proof.
  intros Ht.
  pose (P := fun t : Timer => status t = finished -> durationRemaining t = 0).
  assert (H : Forall P (fst (fst (fst (content (run evs (initial key ids))))))).
  { apply (run_keeps (fun x => Forall P (fst (fst (fst x)))) (fun _ => true) evs);
      [|apply forallb_forall; reflexivity|constructor].
    apply timers_keep.
    - intros t0 Hp. unfold P in *.
      destruct (decide (status t0 = running)) as [Hr|Hr].
      + rewrite (tickTimer_running t0 Hr). cbn.
        destruct (0 <? durationRemaining t0) eqn:E; [|discriminate].
        destruct (durationRemaining t0 - 1 <=? 0) eqn:E1; [|discriminate].
        apply Z.leb_le in E1. lia.
      + rewrite (tickTimer_not_running t0 Hr). exact Hp.
    - intros t0 st Hst _ Hf. cbn in Hf. contradiction.
    - intros t0 _ Hf. discriminate Hf.
    - intros ev id l d _ _ Hf. discriminate Hf. }
  exact (proj1 (Forall_forall _ _) H t Ht).
Qed.

Lemma finished_timer_has_no_time_left_witness :
  durationRemaining Examples.eggDone = 0.
Proof.
  assert (Hin : Examples.eggDone ∈ timers (ui (run Examples.quickEgg (initial None ["a"]))))
    by (vm_compute; apply list_elem_of_here).
  exact (finished_timer_has_no_time_left None ["a"] Examples.quickEgg Examples.eggDone Hin eq_refl).
Defined.

Lemma length_slice_last {A} (n : nat) (l : list A) :
  (length (Js.slice_last n l) <= n)%nat.
Proof. unfold Js.slice_last. rewrite length_drop. lia. Qed.

(** X6.  In every state the component reaches, the log holds at most
    twenty entries. *)
Theorem log_holds_at_most_twenty (key : option string) (ids : list string)
    (evs : list Event) :
  (length (logs (ui (run evs (initial key ids)))) <= 20)%nat.
Proof.
  apply (run_keeps (fun x => (length (snd (fst (fst x))) <= 20)%nat)
           (fun _ => true) evs);
    [|apply forallb_forall; reflexivity|cbn; lia].
  intros ev c [[[ts ls] st] rc] _ _ Hl. cbn [fst snd] in Hl.
  destruct c; cbn [change fst snd]; try exact Hl.
  - rewrite length_app. pose proof (length_slice_last 19 ls). cbn [length]. lia.
  - cbn. lia.
Qed.

End ContentProperties.

(** ** What the handlers do to the audio objects *)

Module ResourceFacts.
Import TimerEngine Wire App Frame DispatchFacts Content ContentFacts Resources.

Lemma resources_render (s : State) : resources (render s) = resources s.
Proof. render_cases s; reflexivity. Qed.

Lemma resources_notifyCompletion (t : Timer) (s : State) :
  resources (notifyCompletion t s) = resources s.
Proof. open_state s. destruct sess; reflexivity. Qed.

Lemma resources_onTick (s : State) : resources (onTick s) = resources s.
Proof.
  unfold onTick. destruct (tick (timers (ui s))) as [next completed].
  assert (H : forall l s0,
             resources (fold_left (fun acc t => notifyCompletion t acc) l s0)
             = resources s0).
  { induction l as [|t l IH]; intros s0; cbn; [reflexivity|].
    rewrite IH. apply resources_notifyCompletion. }
  rewrite H. reflexivity.
Qed.

(** Teardown closes the contexts the two refs point to, stops the live
    sources and forgets all of them. *)
Lemma resources_stopSession (keepCamera : bool) (s : State) :
  resources (stopSession keepCamera s) =
  (closeRef (inputContextRef (refs s))
     (closeRef (audioContextRef (refs s)) (contexts (browser s))),
   None, None, stopAll (sourcesRef (refs s)) (nodes (browser s)), ∅,
   activeRecipeRef (refs s)).
Proof. teardown_cases s; destruct keepCamera; reflexivity. Qed.

(** A connect that passes the guards tears down and creates two contexts,
    to which the refs point. *)
Lemma resources_connectToGemini (s : State) :
  resources (connectToGemini s) = resources s \/
  resources (connectToGemini s) =
    (let ctxs := closeRef (inputContextRef (refs s))
                   (closeRef (audioContextRef (refs s)) (contexts (browser s))) in
     (ctxs ++ [mkAudioContext 0 false; mkAudioContext 0 false],
      Some (S (length ctxs)), Some (length ctxs),
      stopAll (sourcesRef (refs s)) (nodes (browser s)), ∅,
      activeRecipeRef (refs s))).
Proof.
  unfold connectToGemini. destruct (apiKeyMissing s); [left; reflexivity|].
  destruct (isConnecting (ui s) || isConnected (ui s)); [left; reflexivity|].
  right. teardown_cases s; reflexivity.
Qed.

Lemma resources_resume (k : nat) (video : bool) (s : State) :
  resources (connectToGemini_resume k video s) = resources s.
Proof.
  unfold connectToGemini_resume.
  destruct (pendingMedia (browser s) !! k) as [pc|]; [|reflexivity].
  destruct (pcResumed pc); [reflexivity|]. destruct video; reflexivity.
Qed.

Lemma resources_handleTranscription (prefix : string) (t : option string) (s : State) :
  resources (handleTranscription prefix t s) = resources s.
Proof.
  unfold handleTranscription.
  destruct t as [txt|]; [destruct (Js.truthy txt)|]; reflexivity.
Qed.

Lemma resources_resolveCall (fc : FunctionCall) (s : State) :
  resources (fst (resolveCall fc s)) = resources s.
Proof.
  unfold resolveCall.
  repeat (match goal with
          | |- context [bool_decide ?P] => destruct (bool_decide P)
          | |- context [match ?x with _ => _ end] => destruct x
          end); reflexivity.
Qed.

Lemma resources_handleToolCall (c : nat) (calls : list FunctionCall) (s : State) :
  resources (handleToolCall c calls s) = resources s.
Proof.
  unfold handleToolCall, dispatchAll.
  assert (H : forall l s0 rs,
             resources (fst (fold_left (fun acc fc => dispatchCall fc acc) l (s0, rs)))
             = resources s0).
  { induction l as [|fc l IH]; intros s0 rs; [reflexivity|].
    cbn [fold_left]. rewrite dispatchCall_eq, IH. apply resources_resolveCall. }
  specialize (H calls
    (upd_ui (fun u => set_isListening false (set_isProcessing true u)) s) []).
  destruct (fold_left _ calls _) as [s1 responses]. cbn [fst] in H.
  change (resources s1 = resources s). rewrite H. reflexivity.
Qed.

(** The interruption branch stops the live sources and empties the set. *)
Lemma resources_handleInterrupted (s : State) :
  resources (handleInterrupted s) =
  (contexts (browser s), audioContextRef (refs s), inputContextRef (refs s),
   stopAll (sourcesRef (refs s)) (nodes (browser s)), ∅, activeRecipeRef (refs s)).
Proof. reflexivity. Qed.

(** Scheduling a chunk creates one source node and adds it to the set. *)
Lemma resources_handleAudio (out : nat) (d : Z) (s : State) :
  exists start : Z,
    resources (handleAudio out d s) =
    (contexts (browser s), audioContextRef (refs s), inputContextRef (refs s),
     nodes (browser s) ++ [mkBufferSource out start d false false],
     {[length (nodes (browser s))]} ∪ sourcesRef (refs s),
     activeRecipeRef (refs s)).
Proof.
  unfold handleAudio. cbn zeta.
  match goal with |- context [if ?b then _ else _] => destruct b end;
    eexists; reflexivity.
Qed.

(** An [ended] event that is due marks its node and takes it out of the
    set. *)
Lemma resources_dispatchEnded (n : nat) (s : State) :
  resources (dispatchEnded n s) =
  if ended_due n (browser s)
  then (contexts (browser s), audioContextRef (refs s), inputContextRef (refs s),
        alter markEnded n (nodes (browser s)), sourcesRef (refs s) ∖ {[n]},
        activeRecipeRef (refs s))
  else resources s.
Proof.
  unfold dispatchEnded. destruct (ended_due n (browser s)); [|reflexivity].
  unfold onended.
  match goal with |- context [bool_decide ?P] => destruct (bool_decide P) end;
    reflexivity.
Qed.

Lemma resources_handleSuggestion (sg : TimerSuggestion) (s : State) :
  resources (handleSuggestion sg s) = resources s.
Proof.
  unfold handleSuggestion.
  match goal with |- context [if ?b then _ else _] => destruct b end;
    [|reflexivity].
  destruct (sugReason sg) as [r|]; [destruct (Js.truthy r)|]; reflexivity.
Qed.

Lemma resources_analyzeVision_response (data : VisionData) (s : State) :
  resources (analyzeVision_response data s) = resources s.
Proof.
  unfold analyzeVision_response.
  destruct (timerSuggestion data) as [sg|]; [rewrite resources_handleSuggestion|];
    (destruct (description data) as [d|]; [destruct (Js.truthy d)|]); reflexivity.
Qed.

(** Time advances the clocks of the contexts. *)
Lemma resources_elapse (ms : Z) (s : State) :
  resources (elapse ms s) =
  (map (advanceContext ms) (contexts (browser s)), audioContextRef (refs s),
   inputContextRef (refs s), nodes (browser s), sourcesRef (refs s),
   activeRecipeRef (refs s)).
Proof. reflexivity. Qed.

Lemma resources_selectRecipe (r : option Recipe) (s : State) :
  resources (selectRecipe r s) =
  (contexts (browser s), audioContextRef (refs s), inputContextRef (refs s),
   nodes (browser s), sourcesRef (refs s), r).
Proof. open_state s. destruct sess, r; reflexivity. Qed.

(** The parts of [resources]. *)
Lemma resources_parts (s : State) (ctxs : list AudioContext) (a i : option nat)
    (nds : list BufferSource) (srcs : gset nat) (rr : option Recipe) :
  resources s = (ctxs, a, i, nds, srcs, rr) ->
  contexts (browser s) = ctxs /\ audioContextRef (refs s) = a /\
  inputContextRef (refs s) = i /\ nodes (browser s) = nds /\
  sourcesRef (refs s) = srcs /\ activeRecipeRef (refs s) = rr.
Proof. unfold resources. intros H. inversion H. repeat split; reflexivity. Qed.

Lemma resources_same (s s' : State) :
  resources s' = resources s ->
  contexts (browser s') = contexts (browser s) /\
  audioContextRef (refs s') = audioContextRef (refs s) /\
  inputContextRef (refs s') = inputContextRef (refs s) /\
  nodes (browser s') = nodes (browser s) /\
  sourcesRef (refs s') = sourcesRef (refs s) /\
  activeRecipeRef (refs s') = activeRecipeRef (refs s).
Proof. intros H. apply resources_parts. exact H. Qed.

End ResourceFacts.

Module ResourceSteps.
Import TimerEngine Wire App Frame DispatchFacts Content ContentFacts Resources
  ResourceFacts.

Section Keeps.

Variable R : list AudioContext * option nat * option nat
             * list BufferSource * gset nat * option Recipe -> Prop.
Variable ev : Event.

Hypothesis teardown :
  forall ctxs a i nds srcs rr,
    R (ctxs, a, i, nds, srcs, rr) ->
    R (closeRef i (closeRef a ctxs), None, None, stopAll srcs nds, ∅, rr).
Hypothesis allocate :
  forall ctxs nds rr,
    R (ctxs, None, None, nds, ∅, rr) ->
    R (ctxs ++ [mkAudioContext 0 false; mkAudioContext 0 false],
       Some (S (length ctxs)), Some (length ctxs), nds, ∅, rr).
Hypothesis flush :
  forall ctxs a i nds srcs rr,
    R (ctxs, a, i, nds, srcs, rr) -> R (ctxs, a, i, stopAll srcs nds, ∅, rr).
Hypothesis schedule :
  forall ctxs a i nds srcs rr out start d,
    R (ctxs, a, i, nds, srcs, rr) ->
    R (ctxs, a, i, nds ++ [mkBufferSource out start d false false],
       {[length nds]} ∪ srcs, rr).
Hypothesis ended :
  forall ctxs a i nds srcs rr n,
    R (ctxs, a, i, nds, srcs, rr) ->
    R (ctxs, a, i, alter markEnded n nds, srcs ∖ {[n]}, rr).
Hypothesis advance :
  forall ctxs a i nds srcs rr ms,
    R (ctxs, a, i, nds, srcs, rr) ->
    R (map (advanceContext ms) ctxs, a, i, nds, srcs, rr).
Hypothesis select :
  forall ctxs a i nds srcs rr r,
    ev = EvSelectRecipe r ->
    R (ctxs, a, i, nds, srcs, rr) -> R (ctxs, a, i, nds, srcs, r).

Lemma keeps_stopSession (keepCamera : bool) (s : State) :
  R (resources s) -> R (resources (stopSession keepCamera s)).
Proof. intros H. rewrite resources_stopSession. apply teardown. exact H. Qed.

Lemma keeps_connectToGemini (s : State) :
  R (resources s) -> R (resources (connectToGemini s)).
Proof.
  intros H. destruct (resources_connectToGemini s) as [-> | ->]; [exact H|].
  cbn zeta. apply allocate. apply teardown. exact H.
Qed.

Lemma keeps_onmessage (c : nat) (msg : LiveServerMessage) (s : State) :
  R (resources s) -> R (resources (onmessage c msg s)).
Proof.
  intros H. unfold onmessage.
  destruct (channels (browser s) !! c) as [ch|]; [|exact H].
  set (s0 := if turnComplete msg then handleTurnComplete s else s).
  set (s1 := if interrupted msg then handleInterrupted s0 else s0).
  set (s2 := handleTranscription "🤖 Chef: " (outputTranscription msg)
               (handleTranscription "🎤 You: " (inputTranscription msg) s1)).
  set (s3 := match audioData msg with
             | Some duration => handleAudio (outputCtx ch) duration s2
             | None => s2
             end).
  assert (H0 : R (resources s0)).
  { unfold s0. destruct (turnComplete msg); exact H. }
  assert (H1 : R (resources s1)).
  { unfold s1. destruct (interrupted msg); [|exact H0].
    rewrite resources_handleInterrupted. apply flush. exact H0. }
  assert (H2 : R (resources s2)).
  { unfold s2. rewrite !resources_handleTranscription. exact H1. }
  assert (H3 : R (resources s3)).
  { unfold s3. destruct (audioData msg) as [d|]; [|exact H2].
    destruct (resources_handleAudio (outputCtx ch) d s2) as [start ->].
    apply schedule. exact H2. }
  destruct (toolCall msg) as [calls|]; [|exact H3].
  rewrite resources_handleToolCall. exact H3.
Qed.

Lemma keeps_step (s : State) : R (resources s) -> R (resources (step ev s)).
Proof using All.
  intros H. unfold step. rewrite resources_render.
  destruct ev eqn:Eev; cbn [handle]; unfold onChannel;
    try (destruct (channels (browser s) !! c); [|exact H]);
    try exact H.
  - rewrite resources_onTick. exact H.
  - apply keeps_connectToGemini, H.
  - unfold handleClick. destruct (isConnecting (ui s)); [exact H|].
    destruct (isConnected (ui s));
      [apply keeps_stopSession|apply keeps_connectToGemini]; exact H.
  - apply keeps_stopSession, H.
  - rewrite resources_resume. exact H.
  - unfold connectToGemini_catch.
    destruct (pendingMedia (browser s) !! k) as [pc|]; [|exact H].
    destruct (pcResumed pc); [exact H|]. apply keeps_stopSession. exact H.
  - apply keeps_onmessage, H.
  - unfold onclose. apply keeps_stopSession. exact H.
  - unfold onerror. apply keeps_stopSession. exact H.
  - unfold onrejected. apply keeps_stopSession. exact H.
  - rewrite resources_dispatchEnded.
    destruct (ended_due bufferSource (browser s)); [|exact H].
    apply ended. exact H.
  - rewrite resources_analyzeVision_response. exact H.
  - destruct (0 <=? ms); [|exact H]. rewrite resources_elapse.
    apply advance. exact H.
  - rewrite resources_selectRecipe. eapply select; [reflexivity|exact H].
Qed.

End Keeps.

End ResourceSteps.

Module ResourceInvariants.
Import TimerEngine Wire App Frame DispatchFacts Content ContentFacts Resources
  ResourceFacts ResourceSteps.

Lemma lookup_closeRef (r : option nat) (ctxs : list AudioContext) (c : nat)
    (x : AudioContext) :
  closeRef r ctxs !! c = Some x -> closed x = false ->
  ctxs !! c = Some x /\ r <> Some c.
Proof.
  unfold closeRef. destruct r as [c0|]; [|intros H _; split; [exact H|discriminate]].
  intros H Hopen. destruct (decide (c0 = c)) as [->|Hne].
  - rewrite list_lookup_alter_eq in H.
    destruct (ctxs !! c) as [x0|]; [|discriminate]. cbn in H.
    injection H as <-. cbn in Hopen. discriminate.
  - rewrite list_lookup_alter_ne in H by exact Hne. split; [exact H|congruence].
Qed.

Lemma lookup_stopAll (sources : gset nat) (ns : list BufferSource) (n : nat) :
  stopAll sources ns !! n =
  (fun node => if bool_decide (n ∈ sources) then stopNode node else node)
    <$> (ns !! n).
Proof. unfold stopAll. apply list_lookup_imap. Qed.

(** One event keeps the open contexts held. *)
Lemma contextsTidy_step (ev : Event) (s : State) :
  contextsTidy s -> contextsTidy (step ev s).
Proof.
  intros H.
  apply (keeps_step
           (fun '(ctxs, a, i, _, _, _) =>
              forall (c : nat) (x : AudioContext),
                ctxs !! c = Some x -> closed x = false -> a = Some c \/ i = Some c)
           ev); [| | | | | | |exact H]; cbn beta iota; try solve [intros; eauto].
  - (* teardown *)
    intros ctxs a i nds srcs rr Hr c x Hc Hopen.
    apply lookup_closeRef in Hc as [Hc Hi]; [|exact Hopen].
    apply lookup_closeRef in Hc as [Hc Ha]; [|exact Hopen].
    destruct (Hr c x Hc Hopen); contradiction.
  - (* allocate *)
    intros ctxs nds rr Hr c x Hc Hopen.
    destruct (decide (c < length ctxs)%nat) as [Hlt|Hge].
    + rewrite lookup_app_l in Hc by exact Hlt.
      destruct (Hr c x Hc Hopen); discriminate.
    + rewrite lookup_app_r in Hc by lia.
      destruct (c - length ctxs)%nat as [|[|k]] eqn:E; cbn in Hc.
      * right. f_equal. lia.
      * left. f_equal. lia.
      * discriminate.
  - (* advance *)
    intros ctxs a i nds srcs rr ms Hr c x Hc Hopen.
    change (map (advanceContext ms) ctxs) with (advanceContext ms <$> ctxs) in Hc.
    rewrite list_lookup_fmap in Hc.
    destruct (ctxs !! c) as [x0|] eqn:E; [|discriminate].
    cbn [fmap option_fmap option_map] in Hc.
    injection Hc as <-. apply (Hr c x0 E).
    destruct (closed x0) eqn:E0; [|reflexivity].
    unfold advanceContext in Hopen. rewrite E0 in Hopen. congruence.
Qed.

Lemma contextsTidy_run (evs : list Event) :
  forall s : State, contextsTidy s -> contextsTidy (run evs s).
Proof.
  induction evs as [|ev evs IH]; intros s H; [exact H|].
  rewrite run_cons. apply IH, contextsTidy_step, H.
Qed.

(** One event keeps the live set exact. *)
Lemma liveSetExact_step (ev : Event) (s : State) :
  liveSetExact s -> liveSetExact (step ev s).
Proof.
  intros H.
  assert (Hflush : forall nds srcs,
             (forall n : nat, n ∈ srcs <->
                exists node, nds !! n = Some node /\ isLive node = true) ->
             forall n : nat, n ∈ (∅ : gset nat) <->
                exists node, stopAll srcs nds !! n = Some node /\ isLive node = true).
  { intros nds srcs Hr n. split; [intros Hn; apply not_elem_of_empty in Hn; contradiction|].
    intros (node & Hn & Hl). exfalso. rewrite lookup_stopAll in Hn.
    destruct (nds !! n) as [node0|] eqn:E; [|discriminate]. cbn in Hn.
    injection Hn as <-. case_bool_decide as Hin.
    - unfold isLive in Hl. cbn in Hl. discriminate.
    - apply Hin, Hr. exists node0. split; [exact E|exact Hl]. }
  apply (keeps_step
           (fun '(_, _, _, nds, srcs, _) =>
              forall n : nat, n ∈ srcs <->
                exists node, nds !! n = Some node /\ isLive node = true)
           ev); [| | | | | | |exact H]; cbn beta iota; try solve [intros; eauto].
  - (* schedule *)
    intros ctxs a i nds srcs rr out start d Hr n.
    rewrite elem_of_union, elem_of_singleton.
    destruct (decide (n < length nds)%nat) as [Hlt|Hge].
    + rewrite lookup_app_l by exact Hlt. rewrite Hr. split; [|intros Hx; right; exact Hx].
      intros [->|Hx]; [lia|exact Hx].
    + rewrite lookup_app_r by lia. split.
      * intros [->|Hx].
        -- rewrite Nat.sub_diag. eexists. split; reflexivity.
        -- apply Hr in Hx as (node & Hn & _).
           apply lookup_lt_Some in Hn. lia.
      * intros (node & Hn & _).
        destruct (n - length nds)%nat as [|k] eqn:E; [left; lia|discriminate].
  - (* ended *)
    intros ctxs a i nds srcs rr n0 Hr n.
    rewrite elem_of_difference, elem_of_singleton.
    destruct (decide (n0 = n)) as [->|Hne].
    + split; [intros [_ Hx]; contradiction|].
      intros (node & Hn & Hl). exfalso.
      rewrite list_lookup_alter_eq in Hn.
      destruct (nds !! n) as [node0|]; [|discriminate]. cbn in Hn.
      injection Hn as <-. unfold isLive in Hl. cbn in Hl.
      rewrite andb_false_r in Hl. discriminate.
    + rewrite list_lookup_alter_ne by exact Hne. rewrite Hr.
      split; [intros [Hx _]; exact Hx|]. intros Hx. split; [exact Hx|congruence].
Qed.

Lemma liveSetExact_run (evs : list Event) :
  forall s : State, liveSetExact s -> liveSetExact (run evs s).
Proof.
  induction evs as [|ev evs IH]; intros s H; [exact H|].
  rewrite run_cons. apply IH, liveSetExact_step, H.
Qed.

End ResourceInvariants.

(** ** The refs that mirror state *)

Module SyncFacts.
Import TimerEngine Wire App Frame DispatchFacts Content ContentFacts Resources
  ResourceFacts ResourceSteps ResourceInvariants.

Lemma currentStepRef_render (s : State) :
  currentStepRef (refs (render s)) = currentStep (ui s).
Proof. render_cases s; reflexivity. Qed.

(** Only a selection changes the recipe ref. *)
Lemma activeRecipeRef_step (ev : Event) (s : State) :
  (forall r, ev <> EvSelectRecipe r) ->
  activeRecipeRef (refs (step ev s)) = activeRecipeRef (refs s).
Proof.
  intros Hev.
  apply (keeps_step
           (fun '(_, _, _, _, _, rr) => rr = activeRecipeRef (refs s)) ev);
    [| | | | | | |reflexivity]; cbn beta iota; try solve [intros; eauto].
  intros ctxs a i nds srcs rr r E. destruct (Hev r E).
Qed.

(** Only a selection changes the recipe. *)
Lemma activeRecipe_step (ev : Event) (s : State) :
  (forall r, ev <> EvSelectRecipe r) ->
  activeRecipe (ui (step ev s)) = activeRecipe (ui s).
Proof.
  intros Hev.
  apply (explains_keeps (fun x => snd x = activeRecipe (ui s)) ev
           (content s) (content (step ev s)));
    [|apply step_explains|reflexivity].
  intros c [[[ts ls] st] rc] Hc Hx. cbn [snd] in Hx.
  destruct c; cbn [change snd]; try exact Hx.
  destruct ev; cbn [allowed] in Hc; try contradiction.
  destruct (Hev r0). congruence.
Qed.

Lemma refsInSync_step (ev : Event) (s : State) :
  refsInSync s -> refsInSync (step ev s).
Proof.
  intros (_ & _ & Hr). split; [|split].
  - unfold step. rewrite timersRef_render, ui_render. reflexivity.
  - unfold step. rewrite currentStepRef_render, ui_render. reflexivity.
  - destruct ev;
      try (rewrite activeRecipeRef_step, activeRecipe_step by discriminate;
           exact Hr).
    unfold step. cbn [handle].
    pose proof (resources_same _ _ (resources_render (selectRecipe r s)))
      as (_ & _ & _ & _ & _ & ->).
    pose proof (resources_parts _ _ _ _ _ _ _ (resources_selectRecipe r s))
      as (_ & _ & _ & _ & _ & ->).
    rewrite ui_render.
    pose proof (f_equal snd (content_selectRecipe r s)) as Hc.
    symmetry. exact Hc.
Qed.

Lemma refsInSync_run (evs : list Event) :
  forall s : State, refsInSync s -> refsInSync (run evs s).
Proof.
  induction evs as [|ev evs IH]; intros s H; [exact H|].
  rewrite run_cons. apply IH, refsInSync_step, H.
Qed.

Lemma refsInSync_initial (key : option string) (ids : list string) :
  refsInSync (initial key ids).
Proof. repeat split. Qed.

(** The answer to [getActiveRecipe], from the two refs. *)
Lemma resolveCall_getActiveRecipe_result (id : string) (a : Args) (s : State) :
  snd (resolveCall (mkFunctionCall id "getActiveRecipe" a) s) =
  RecipeCard.shownRecipe (activeRecipeRef (refs s)) (currentStepRef (refs s)).
Proof.
  change (snd (let step := currentStepRef (refs s) in
               match activeRecipeRef (refs s) with
               | Some recipe =>
                   (s, ResultRecipe (title recipe) (ingredients recipe)
                         (instructions recipe) (Z.of_nat step + 1)
                         (default EmptyString
                            (instructions recipe ≫= (fun l => l !! step)))
                         (from_option length 0%nat (instructions recipe)))
               | None => (s, ResultText "No active recipe selected")
               end) =
          RecipeCard.shownRecipe (activeRecipeRef (refs s)) (currentStepRef (refs s))).
  cbn zeta. destruct (activeRecipeRef (refs s)); reflexivity.
Qed.

End SyncFacts.

Module SyncProperties.
Import TimerEngine Wire App Frame DispatchFacts Content ContentFacts Resources
  ResourceFacts ResourceSteps ResourceInvariants SyncFacts.

(** X9.  In every state the component reaches, the dispatcher answers a
    [getActiveRecipe] call of an arriving batch with the recipe, the step
    number, the instruction text and the step count that the recipe card
    shows, or with ["No active recipe selected"] when no card is shown; this
    holds at every position of the batch, whatever the other calls are. *)
Theorem getActiveRecipe_reports_the_card (key : option string) (ids : list string)
    (evs : list Event) (calls : list FunctionCall) (i : nat) (fc : FunctionCall) :
  let s := run evs (initial key ids) in
  calls !! i = Some fc ->
  callName fc = "getActiveRecipe" ->
  batchResponses calls s !! i =
    Some (mkFunctionResponse (callId fc) "getActiveRecipe"
            (RecipeCard.shownRecipe (activeRecipe (ui s)) (currentStep (ui s)))).
Proof.
  intros s Hi.
  pose proof (refsInSync_run evs _ (refsInSync_initial key ids)) as (Ht & Hs & Hr).
  fold s in Ht, Hs, Hr.
  destruct (batchResponses_spec calls s) as (_ & _ & _ & Hall).
  destruct (Hall i fc Hi) as (s_i & Hrefs & Hl). rewrite Hl.
  destruct fc as [id name a]. cbn [callName callId].
  intros ->.
  rewrite resolveCall_getActiveRecipe_result. rewrite Hrefs, Hs, Hr. reflexivity.
Qed.

Lemma getActiveRecipe_reports_the_card_witness :
  batchResponses [Scenarios.call "getTimers" "" 0; Scenarios.call "getActiveRecipe" "" 0]
    (run [EvSelectRecipe (Some Examples.soup); EvSetStep 1] (initial None []))
    !! 1%nat =
  Some (mkFunctionResponse "call-getActiveRecipe" "getActiveRecipe"
          (ResultRecipe "Soup" (Some ["water"; "salt"])
             (Some ["Boil the water"; "Add salt"]) 2 "Add salt" 2)).
Proof.
  exact (getActiveRecipe_reports_the_card None []
           [EvSelectRecipe (Some Examples.soup); EvSetStep 1]
           [Scenarios.call "getTimers" "" 0; Scenarios.call "getActiveRecipe" "" 0]
           1 (Scenarios.call "getActiveRecipe" "" 0) eq_refl eq_refl).
Defined.

End SyncProperties.

(** ** Walking through the steps of a recipe *)

Module RecipeCardFacts.
Import TimerEngine Wire App Frame DispatchFacts Content ContentFacts RecipeCard.

Lemma driveAll_snoc (inputs : list Input) (i : Input) (s : State) :
  driveAll (inputs ++ [i]) s = drive i (driveAll inputs s).
Proof. unfold driveAll. rewrite fold_left_app. reflexivity. Qed.

Lemma content_setStep (n : nat) (s : State) :
  content (step (EvSetStep n) s) = change (ChSetStep n) (content s).
Proof. unfold step. rewrite content_render. reflexivity. Qed.

(** The step is the first one or a step of the recipe on the card. *)
Lemma inRange_happens (ev : Event) (s : State) :
  throughCard (Happens ev) = true ->
  (currentStep (ui s) = 0%nat \/
   exists recipe, activeRecipe (ui s) = Some recipe /\
     (currentStep (ui s) < totalSteps recipe)%nat) ->
  currentStep (ui (step ev s)) = 0%nat \/
  exists recipe, activeRecipe (ui (step ev s)) = Some recipe /\
    (currentStep (ui (step ev s)) < totalSteps recipe)%nat.
Proof.
  intros Hev H.
  apply (explains_keeps
           (fun x => snd (fst x) = 0%nat \/
                     exists recipe, snd x = Some recipe /\
                       (snd (fst x) < totalSteps recipe)%nat)
           ev (content s) (content (step ev s)));
    [|apply step_explains|exact H].
  intros c [[[ts ls] st] rc] Hc Hx. cbn [fst snd] in Hx.
  destruct c; cbn [change fst snd]; try exact Hx.
  - left. reflexivity.
  - destruct ev; cbn [allowed] in Hc; try contradiction. discriminate Hev.
Qed.

Lemma inRange_click (c : Control) (s : State) :
  (currentStep (ui s) = 0%nat \/
   exists recipe, activeRecipe (ui s) = Some recipe /\
     (currentStep (ui s) < totalSteps recipe)%nat) ->
  currentStep (ui (click c s)) = 0%nat \/
  exists recipe, activeRecipe (ui (click c s)) = Some recipe /\
    (currentStep (ui (click c s)) < totalSteps recipe)%nat.
Proof.
  intros H. unfold click.
  destruct (activeRecipe (ui s)) as [recipe|] eqn:Er; [|rewrite Er; exact H].
  destruct (stepChange c recipe (currentStep (ui s))) as [n|] eqn:En;
    [|rewrite Er; exact H].
  pose proof (f_equal snd (content_setStep n s)) as Hrc.
  pose proof (f_equal (fun x => snd (fst x)) (content_setStep n s)) as Hst.
  cbn in Hrc, Hst. rewrite Hrc, Hst, Er. right. exists recipe. split; [reflexivity|].
  assert (Hcur : (currentStep (ui s) = 0 \/ currentStep (ui s) < totalSteps recipe)%nat).
  { destruct H as [H|(r' & Hr' & H)]; [left; exact H|right]. congruence. }
  destruct c; cbn [stepChange] in En.
  - destruct (0 <? Z.of_nat (currentStep (ui s))) eqn:E; [|discriminate].
    injection En as <-. apply Z.ltb_lt in E. lia.
  - destruct (Z.of_nat (currentStep (ui s)) <? Z.of_nat (totalSteps recipe) - 1) eqn:E;
      [|discriminate].
    injection En as <-. apply Z.ltb_lt in E. lia.
  - destruct (Z.of_nat (currentStep (ui s)) <? Z.of_nat (totalSteps recipe) - 1) eqn:E;
      [|discriminate].
    injection En as <-. apply Z.ltb_lt in E. lia.
  - case_bool_decide as E; [|discriminate]. injection En as <-.
    unfold totalSteps. destruct (instructions recipe); exact E.
Qed.

Lemma inRange_driveAll (inputs : list Input) (s : State) :
  forallb throughCard inputs = true ->
  (currentStep (ui s) = 0%nat \/
   exists recipe, activeRecipe (ui s) = Some recipe /\
     (currentStep (ui s) < totalSteps recipe)%nat) ->
  currentStep (ui (driveAll inputs s)) = 0%nat \/
  exists recipe, activeRecipe (ui (driveAll inputs s)) = Some recipe /\
    (currentStep (ui (driveAll inputs s)) < totalSteps recipe)%nat.
Proof.
  revert s. induction inputs as [|i inputs IH]; intros s Hok H; [exact H|].
  cbn [forallb] in Hok. apply andb_true_iff in Hok as [Hi Hrest].
  cbn [driveAll fold_left]. apply IH; [exact Hrest|].
  destruct i as [c|ev]; cbn [drive].
  - apply inRange_click, H.
  - apply inRange_happens; assumption.
Qed.

End RecipeCardFacts.

Module RecipeCardProperties.
Import TimerEngine Wire App Frame Content ContentFacts RecipeCard RecipeCardFacts.

(** X10.  As long as the step is changed through the controls of the recipe
    card only, the step is the first one or a step of the active recipe: with
    no recipe it is step 0, and for a recipe with instructions the card shows
    one of them. *)
Theorem card_keeps_step_in_range (key : option string) (ids : list string)
    (inputs : list Input) :
  forallb throughCard inputs = true ->
  let s := driveAll inputs (initial key ids) in
  match activeRecipe (ui s) with
  | None => currentStep (ui s) = 0%nat
  | Some recipe =>
      (currentStep (ui s) = 0%nat \/ (currentStep (ui s) < totalSteps recipe)%nat) /\
      forall l : list string,
        instructions recipe = Some l -> l <> [] ->
        l !! currentStep (ui s) = Some (currentInstruction recipe (currentStep (ui s)))
  end.
Proof.
  intros Hok s.
  assert (H : currentStep (ui s) = 0%nat \/
              exists recipe, activeRecipe (ui s) = Some recipe /\
                (currentStep (ui s) < totalSteps recipe)%nat).
  { apply inRange_driveAll; [exact Hok|]. left. reflexivity. }
  destruct (activeRecipe (ui s)) as [recipe|] eqn:Er.
  - assert (Hcur : (currentStep (ui s) = 0 \/ currentStep (ui s) < totalSteps recipe)%nat).
    { destruct H as [H|(r' & Hr' & H)]; [left; exact H|right]. congruence. }
    split; [exact Hcur|]. intros l Hl Hne.
    unfold currentInstruction. rewrite Hl. cbn [mbind option_bind].
    assert (Hlt : (currentStep (ui s) < length l)%nat).
    { unfold totalSteps in Hcur. rewrite Hl in Hcur. cbn in Hcur.
      destruct l; [contradiction|]. cbn [length] in *. lia. }
    destruct (lookup_lt_is_Some_2 l _ Hlt) as [txt Htxt]. rewrite Htxt. reflexivity.
  - destruct H as [H|(r' & Hr' & _)]; [exact H|discriminate].
Qed.

Lemma card_keeps_step_in_range_witness :
  let s := driveAll Examples.walk (initial None []) in
  match activeRecipe (ui s) with
  | None => currentStep (ui s) = 0%nat
  | Some recipe =>
      (currentStep (ui s) = 0%nat \/ (currentStep (ui s) < totalSteps recipe)%nat) /\
      forall l : list string,
        instructions recipe = Some l -> l <> [] ->
        l !! currentStep (ui s) = Some (currentInstruction recipe (currentStep (ui s)))
  end.
Proof. exact (card_keeps_step_in_range None [] Examples.walk eq_refl). Defined.

End RecipeCardProperties.

Module ResourceProperties.
Import TimerEngine Wire App Frame Resources ResourceFacts ResourceSteps
  ResourceInvariants.

(** X7.  In every state the component reaches, an audio context that is
    still open is the one [audioContextRef] or the one [inputContextRef]
    points to: no context is left open without a handle to close it. *)
Theorem open_contexts_are_held (key : option string) (ids : list string)
    (evs : list Event) (c : nat) (x : AudioContext) :
  let s := run evs (initial key ids) in
  contexts (browser s) !! c = Some x -> closed x = false ->
  audioContextRef (refs s) = Some c \/ inputContextRef (refs s) = Some c.
Proof.
  intros s. apply (contextsTidy_run evs (initial key ids)).
  intros c0 x0 H. discriminate H.
Qed.

Lemma open_contexts_are_held_witness :
  audioContextRef (refs (run [EvConnect] (initial (Some "token") []))) = Some 0%nat \/
  inputContextRef (refs (run [EvConnect] (initial (Some "token") []))) = Some 0%nat.
Proof.
  assert (Hc : contexts (browser (run [EvConnect] (initial (Some "token") [])))
               !! 0%nat = Some (mkAudioContext 0 false))
    by (vm_compute; reflexivity).
  exact (open_contexts_are_held (Some "token") [] [EvConnect] 0
           (mkAudioContext 0 false) Hc eq_refl).
Defined.

(** X8.  In every state the component reaches, [sourcesRef] holds exactly
    the source nodes that were started and neither stopped nor ended. *)
Theorem live_set_is_exact (key : option string) (ids : list string)
    (evs : list Event) (n : nat) :
  let s := run evs (initial key ids) in
  n ∈ sourcesRef (refs s) <->
  exists node, nodes (browser s) !! n = Some node /\
    stopped node = false /\ endedDispatched node = false.
Proof.
  intros s.
  assert (H : liveSetExact s).
  { apply (liveSetExact_run evs (initial key ids)). intros n0. cbn. split.
    - intros Hn. apply not_elem_of_empty in Hn. contradiction.
    - intros (node & Hn & _). discriminate Hn. }
  rewrite (H n). unfold isLive. split; intros (node & Hn & Hl); exists node;
    (split; [exact Hn|]).
  - apply andb_true_iff in Hl as [H1 H2].
    apply negb_true_iff in H1. apply negb_true_iff in H2. split; assumption.
  - destruct Hl as [-> ->]. reflexivity.
Qed.

Lemma live_set_is_exact_witness :
  0%nat ∈ sourcesRef
            (refs (run [EvConnect; EvMedia 0 true; EvOpen 0;
                        EvMessage 0 (audioMessage 240)]
                     (initial (Some "token") ["a"; "b"; "c"]))).
Proof.
  assert (H : nodes (browser (run [EvConnect; EvMedia 0 true; EvOpen 0;
                                   EvMessage 0 (audioMessage 240)]
                                (initial (Some "token") ["a"; "b"; "c"])))
              !! 0%nat = Some (mkBufferSource 1 0 240 false false))
    by (vm_compute; reflexivity).
  exact (proj2 (live_set_is_exact (Some "token") ["a"; "b"; "c"]
                  [EvConnect; EvMedia 0 true; EvOpen 0;
                   EvMessage 0 (audioMessage 240)] 0)
           (ex_intro _ (mkBufferSource 1 0 240 false false)
              (conj H (conj eq_refl eq_refl)))).
Defined.

End ResourceProperties.

(** ** Without a key *)

Module KeylessProperties.
Import TimerEngine Wire App Frame ViewFacts ConnectFacts.



End KeylessProperties.

(** ** The ways a session ends *)

Module TeardownProperties.
Import TimerEngine Wire App Frame ConnectFacts Indicator.

Lemma flags_stopSession (keepCamera : bool) (s : State) :
  let s' := stopSession keepCamera s in
  isConnected (ui s') = false /\ isConnecting (ui s') = false /\
  isSpeaking (ui s') = false /\ isListening (ui s') = false /\
  isProcessing (ui s') = false /\ sessionPromiseRef (refs s') = None.
Proof.
  teardown_cases s; destruct keepCamera; eval_handlers; repeat split; reflexivity.
Qed.

(** X12.  However a session ends, by the user's disconnect, by a click on
    the button while connected, by a failed media request, or by the close,
    the error or the rejection of a channel, the component is afterwards
    neither connected nor connecting, holds no session, and its conversation
    indicator is idle. *)
Theorem session_end_goes_idle (ev : Event) (s : State) :
  endsSession ev s = true ->
  let s' := step ev s in
  conversationState (ui s') = idle /\
  isConnected (ui s') = false /\ isConnecting (ui s') = false /\
  sessionPromiseRef (refs s') = None.
Proof.
  intros Hev s'.
  assert (H : exists (keepCamera : bool) (s0 : State),
             handle ev s = stopSession keepCamera s0).
  { destruct ev; cbn [endsSession] in Hev; try discriminate Hev; cbn [handle].
    - unfold handleClick. apply andb_true_iff in Hev as [Hc Hd].
      apply negb_true_iff in Hc. rewrite Hc, Hd. eexists _, _. reflexivity.
    - eexists _, _. reflexivity.
    - unfold connectToGemini_catch.
      destruct (pendingMedia (browser s) !! k) as [pc|]; [|discriminate Hev].
      apply negb_true_iff in Hev. rewrite Hev. eexists _, _. reflexivity.
    - apply bool_decide_eq_true in Hev as [ch Hch]. unfold onChannel.
      rewrite Hch. eexists _, _. reflexivity.
    - apply bool_decide_eq_true in Hev as [ch Hch]. unfold onChannel.
      rewrite Hch. eexists _, _. reflexivity.
    - apply bool_decide_eq_true in Hev as [ch Hch]. unfold onChannel.
      rewrite Hch. eexists _, _. reflexivity. }
  destruct H as (keepCamera & s0 & H).
  pose proof (flags_stopSession keepCamera s0) as (H1 & H2 & H3 & H4 & H5 & H6).
  unfold s', step. rewrite ui_render, sessionPromiseRef_render, H.
  unfold conversationState. rewrite H1, H2, H3, H4, H5, H6.
  repeat split; reflexivity.
Qed.

Lemma session_end_goes_idle_witness :
  let s' := step (EvClose 0) Scenarios.connected in
  conversationState (ui s') = idle /\
  isConnected (ui s') = false /\ isConnecting (ui s') = false /\
  sessionPromiseRef (refs s') = None.
Proof.
  assert (H : endsSession (EvClose 0) Scenarios.connected = true) by (vm_compute; reflexivity).
  exact (session_end_goes_idle (EvClose 0) Scenarios.connected H).
Defined.

End TeardownProperties.

(** ** Announcing completions *)

Module AnnounceProperties.
Import TimerEngine Wire App Frame.




End AnnounceProperties.

(** ** The camera flag *)

Module PreviewProperties.
Import TimerEngine Wire App Frame ConnectFacts.

(** While the component is not connected no video element is mounted. *)
Lemma videoRef_render (s : State) :
  isConnected (ui s) = false -> videoRef (refs (render s)) = None.
Proof. render_cases s; intros H; first [discriminate H | reflexivity]. Qed.

Lemma mediaStreamRef_render (s : State) :
  mediaStreamRef (refs (render s)) = mediaStreamRef (refs s).
Proof. render_cases s; reflexivity. Qed.

Lemma resume_without_video_element (k : nat) (video : bool) (s : State)
    (pc : PendingConnect) :
  pendingMedia (browser s) !! k = Some pc -> pcResumed pc = false ->
  videoRef (refs s) = None ->
  isCameraActive (ui (connectToGemini_resume k video s)) = false /\
  isConnected (ui (connectToGemini_resume k video s)) = isConnected (ui s) /\
  mediaStreamRef (refs (connectToGemini_resume k video s)) =
    Some (length (streams (browser s))).
Proof.
  intros Hp Hr Hv. unfold connectToGemini_resume. rewrite Hp, Hr.
  open_state s. cbn in Hv. subst vid.
  destruct video; repeat split; reflexivity.
Qed.

(** X14.  A media request that resolves while the component is not
    connected finds no video element, since [CameraFeed] is rendered only
    while connected: the stream is stored, but the camera flag stays down and
    no element shows the stream, whether or not the stream has a video
    track. *)
Theorem media_before_open_leaves_camera_off (key : option string)
    (ids : list string) (evs : list Event) (k : nat) (video : bool)
    (pc : PendingConnect) :
  let s := run evs (initial key ids) in
  isConnected (ui s) = false ->
  pendingMedia (browser s) !! k = Some pc -> pcResumed pc = false ->
  let s' := step (EvMedia k video) s in
  isCameraActive (ui s') = false /\ videoRef (refs s') = None /\
  mediaStreamRef (refs s') = Some (length (streams (browser s))).
Proof.
  intros s Hconn Hp Hr s'.
  assert (Hv : videoRef (refs s) = None).
  { unfold s. rewrite <- render_run. apply videoRef_render. exact Hconn. }
  destruct (resume_without_video_element k video s pc Hp Hr Hv) as (H1 & H2 & H3).
  unfold s', step. cbn [handle]. rewrite ui_render. split; [exact H1|].
  split.
  - apply videoRef_render. rewrite H2. exact Hconn.
  - rewrite mediaStreamRef_render. exact H3.
Qed.

Lemma media_before_open_leaves_camera_off_witness :
  let s := run [EvConnect] (initial (Some "token") ["a"]) in
  let s' := step (EvMedia 0 true) s in
  isCameraActive (ui s') = false /\ videoRef (refs s') = None /\
  mediaStreamRef (refs s') = Some (length (streams (browser s))).
Proof.
  assert (H1 : isConnected (ui (run [EvConnect] (initial (Some "token") ["a"]))) = false)
    by (vm_compute; reflexivity).
  assert (H2 : pendingMedia (browser (run [EvConnect] (initial (Some "token") ["a"])))
               !! 0%nat = Some (mkPendingConnect 0 1 false))
    by (vm_compute; reflexivity).
  exact (media_before_open_leaves_camera_off (Some "token") ["a"] [EvConnect] 0 true
           (mkPendingConnect 0 1 false) H1 H2 eq_refl).
Defined.

End PreviewProperties.

(** ** The activity log of the diagnostics *)

Module DiagnosticsProperties.
Import Diagnostics.

Lemma activity_invariant_update (u : Update) (info : DiagnosticInfo) :
  ((length (activityLog info) <= 10)%nat /\
   forall a, last (activityLog info) = Some a -> lastActivity info = Some a) ->
  (length (activityLog (update u info)) <= 10)%nat /\
  forall a, last (activityLog (update u info)) = Some a ->
            lastActivity (update u info) = Some a.
Proof.
  intros [Hlen Hlast]. destruct u; cbn [update activityLog lastActivity];
    try (split; assumption).
  - split; [cbn; lia|]. intros a H. discriminate H.
  - unfold logActivity. cbn [activityLog lastActivity]. split.
    + rewrite length_app. unfold Js.slice_last. rewrite length_drop.
      cbn [length]. lia.
    + intros a H. rewrite last_snoc in H. exact H.
Qed.

(** X15.  Whatever sequence of diagnostic updates the component makes, the
    activity log holds at most ten entries, and its newest entry, when it has
    one, is the activity shown as the last one. *)
Theorem activity_log_keeps_last_ten (us : list Update) :
  (length (activityLog (updates us initialInfo)) <= 10)%nat /\
  forall a, last (activityLog (updates us initialInfo)) = Some a ->
            lastActivity (updates us initialInfo) = Some a.
Proof.
  unfold updates.
  assert (H : forall info,
             ((length (activityLog info) <= 10)%nat /\
              forall a, last (activityLog info) = Some a ->
                        lastActivity info = Some a) ->
             (length (activityLog (fold_left (fun acc u => update u acc) us info))
              <= 10)%nat /\
             forall a,
               last (activityLog (fold_left (fun acc u => update u acc) us info))
               = Some a ->
               lastActivity (fold_left (fun acc u => update u acc) us info) = Some a).
  { induction us as [|u us IH]; intros info Hinv; [exact Hinv|].
    cbn [fold_left]. apply IH, activity_invariant_update, Hinv. }
  apply H. split; [cbn; lia|]. intros a Ha. discriminate Ha.
Qed.

Lemma activity_log_keeps_last_ten_witness :
  Diagnostics.lastActivity
    (Diagnostics.updates
       [Diagnostics.UpOpened 0;
        Diagnostics.UpActivity Diagnostics.ActConnection "Connected" 5]
       Diagnostics.initialInfo)
  = Some Examples.hello.
Proof.
  exact (proj2 (activity_log_keeps_last_ten
                  [Diagnostics.UpOpened 0;
                   Diagnostics.UpActivity Diagnostics.ActConnection "Connected" 5])
           Examples.hello eq_refl).
Defined.

End DiagnosticsProperties.

(** ** The page that mounts the component *)

Module KeyGateProperties.
Import App KeyGate.

(** X17.  After the fetch the page never shows the spinner, and it mounts
    [ChefApp] with a key that [connectToGemini] refuses exactly when the
    backend call returned without a call error and its data carry neither a
    non-empty token nor a non-empty error message. *)
Theorem page_mounts_keyless_app_iff (r : Invoked) (ids : list string) :
  Index (fetchApiKey r mounted) <> Spinner /\
  ((exists key, Index (fetchApiKey r mounted) = ChefApp key /\
                apiKeyMissing (initial key ids) = true) <->
   match r with
   | Returned (Some d) false =>
       present (token d) = false /\ present (dataError d) = false
   | Returned None false => True
   | _ => False
   end).
Proof.
  split.
  - unfold Index. change (loading (fetchApiKey r mounted)) with false.
    destruct (hookError (fetchApiKey r mounted)) as [e|];
      [destruct (Js.truthy e)|]; discriminate.
  - destruct r as [|[[[[|c t]|] [[|c' t']|]]|] [|]]; cbn;
      (split;
       [intros (key & H & Hm);
        first [discriminate H
              | injection H as <-; cbn in Hm;
                first [discriminate Hm | repeat split; reflexivity]]
       |intros H;
        first [contradiction
              | exists None; split; reflexivity
              | destruct H as [H1 H2]; first [discriminate H1 | discriminate H2]]]).
Qed.

Lemma page_mounts_keyless_app_iff_witness :
  exists key,
    KeyGate.Index (KeyGate.fetchApiKey (KeyGate.Returned (Some (KeyGate.mkData (Some "") (Some ""))) false) KeyGate.mounted)
    = KeyGate.ChefApp key /\
    apiKeyMissing (initial key []) = true.
Proof.
  apply (proj2 (page_mounts_keyless_app_iff
                  (KeyGate.Returned (Some (KeyGate.mkData (Some "") (Some ""))) false) [])).
  split; reflexivity.
Defined.

End KeyGateProperties.

(** ** Switching cameras *)

Module CameraProperties.
Import Camera.

Lemma camStep_frame (ev : CamEvent) (st : Cam) :
  cameras (camStep ev st) = cameras st /\
  currentCameraIndex (camStep ev st) =
    if isPressSwitch ev && (1 <? length (cameras st))%nat
    then ((currentCameraIndex st + 1) mod length (cameras st))%nat
    else currentCameraIndex st.
Proof.
  destruct ev; cbn [camStep isPressSwitch andb].
  - unfold switchCamera.
    destruct (length (cameras st) <=? 1)%nat eqn:E.
    + apply Nat.leb_le in E.
      replace (1 <? length (cameras st))%nat with false
        by (symmetry; apply Nat.ltb_ge; lia).
      split; reflexivity.
    + apply Nat.leb_gt in E.
      replace (1 <? length (cameras st))%nat with true
        by (symmetry; apply Nat.ltb_lt; lia).
      cbn zeta. destruct (cameraShown _); [|split; reflexivity].
      cbn [stopVideoTracks cameras].
      destruct (cameras st !! _); split; reflexivity.
  - unfold switchCamera_resolved. destruct (videoTracks st); [|split; reflexivity].
    cbn zeta. destruct (cams !! nextIndex); split; reflexivity.
  - split; reflexivity.
  - unfold toggleWideAngle. cbn zeta. destruct (cameraShown _); split; reflexivity.
  - unfold toggleWideAngle_resolved. destruct (videoTracks st); split; reflexivity.
  - split; reflexivity.
Qed.

Lemma camRun_index (evs : list CamEvent) :
  forall st : Cam,
    (1 < length (cameras st))%nat ->
    (currentCameraIndex st < length (cameras st))%nat ->
    cameras (camRun evs st) = cameras st /\
    currentCameraIndex (camRun evs st) =
      ((currentCameraIndex st + presses evs) mod length (cameras st))%nat.
Proof.
  induction evs as [|ev evs IH]; intros st Hn Hi.
  - cbn [camRun fold_left presses List.filter length]. split; [reflexivity|].
    rewrite Nat.add_0_r. symmetry. apply Nat.mod_small. exact Hi.
  - cbn [camRun fold_left]. fold (camRun evs (camStep ev st)).
    destruct (camStep_frame ev st) as [Hc Hx].
    replace (1 <? length (cameras st))%nat with true in Hx
      by (symmetry; apply Nat.ltb_lt; exact Hn).
    rewrite andb_true_r in Hx.
    destruct (IH (camStep ev st)) as [IHc IHx].
    { rewrite Hc. exact Hn. }
    { rewrite Hc, Hx. destruct (isPressSwitch ev); [|exact Hi].
      apply Nat.mod_upper_bound. lia. }
    rewrite IHc, IHx, Hc, Hx. split; [reflexivity|].
    unfold presses. cbn [List.filter].
    destruct (isPressSwitch ev); cbn [length].
    + rewrite Nat.Div0.add_mod_idemp_l. f_equal. lia.
    + reflexivity.
Qed.

Lemma switchCamera_request (st : Cam) (i : nat) (req : Constraints) :
  (1 < length (cameras st))%nat ->
  snd (switchCamera st) = Some (i, req) ->
  i = ((currentCameraIndex st + 1) mod length (cameras st))%nat /\
  exists d, cameras st !! i = Some d /\ exactDevice req = Some (deviceId d).
Proof.
  intros Hn. unfold switchCamera.
  replace (length (cameras st) <=? 1)%nat with false
    by (symmetry; apply Nat.leb_gt; exact Hn).
  cbn zeta. destruct (cameraShown _); [|discriminate].
  cbn [stopVideoTracks cameras].
  destruct (cameras st !! _) as [d|] eqn:Ed; [|discriminate].
  cbn [snd]. intros H. injection H as <- <-. split; [reflexivity|].
  exists d. split; [exact Ed|reflexivity].
Qed.

(** X16.  With more than one camera, the camera index after any run of
    presses and request outcomes is the initial index plus the number of
    presses of the switch button, modulo the number of cameras: the button
    cycles through the cameras and comes back to the first.  The device that
    a press asks for is the enumerated camera at the new index. *)
Theorem switch_camera_cycles (st : Cam) (evs : list CamEvent) :
  (1 < length (cameras st))%nat ->
  (currentCameraIndex st < length (cameras st))%nat ->
  let st' := camRun evs st in
  currentCameraIndex st' =
    ((currentCameraIndex st + presses evs) mod length (cameras st))%nat /\
  forall (i : nat) (req : Constraints),
    snd (switchCamera st') = Some (i, req) ->
    i = ((currentCameraIndex st + presses evs + 1) mod length (cameras st))%nat /\
    exists d, cameras st !! i = Some d /\ exactDevice req = Some (deviceId d).
Proof.
  intros Hn Hi st'. destruct (camRun_index evs st Hn Hi) as [Hc Hx].
  fold st' in Hc, Hx. split; [exact Hx|].
  intros i req H. apply switchCamera_request in H; [|rewrite Hc; exact Hn].
  rewrite Hc, Hx, Nat.Div0.add_mod_idemp_l in H. exact H.
Qed.

Lemma switch_camera_cycles_witness :
  let st' := Camera.camRun Examples.thereAndBack Examples.twoCameras in
  Camera.currentCameraIndex st' =
    ((Camera.currentCameraIndex Examples.twoCameras + Camera.presses Examples.thereAndBack)
       mod length (Camera.cameras Examples.twoCameras))%nat /\
  forall (i : nat) (req : Camera.Constraints),
    snd (Camera.switchCamera st') = Some (i, req) ->
    i = ((Camera.currentCameraIndex Examples.twoCameras + Camera.presses Examples.thereAndBack + 1)
           mod length (Camera.cameras Examples.twoCameras))%nat /\
    exists d, Camera.cameras Examples.twoCameras !! i = Some d /\ Camera.exactDevice req = Some (Camera.deviceId d).
Proof.
  assert (H1 : (1 < length (Camera.cameras Examples.twoCameras))%nat) by (cbn; lia).
  assert (H2 : (Camera.currentCameraIndex Examples.twoCameras < length (Camera.cameras Examples.twoCameras))%nat)
    by (cbn; lia).
  exact (switch_camera_cycles Examples.twoCameras Examples.thereAndBack H1 H2).
Defined.

End CameraProperties.

(** ** The time on a timer card *)

Module TimerDisplayFacts.
Import TimerEngine TimerDisplay.

Lemma length_append (a b : string) :
  String.length (a +:+ b) = (String.length a + String.length b)%nat.
Proof. induction a as [|c a IH]; simpl; [reflexivity|]. f_equal. exact IH. Qed.

Lemma append_inj_length (a b x y : string) :
  String.length a = String.length b -> a +:+ x = b +:+ y -> a = b /\ x = y.
Proof.
  revert b. induction a as [|c a IH]; intros [|d b] Hl H; cbn in Hl;
    try discriminate Hl.
  - split; [reflexivity|exact H].
  - cbn in H. injection H as -> H. injection Hl as Hl.
    destruct (IH b Hl H) as [-> ->]. split; reflexivity.
Qed.

Lemma length_pretty_N_go (x : N) :
  forall s : string, (String.length s <= String.length (pretty_N_go x s))%nat.
Proof.
  induction (N.lt_wf_0 x) as [x _ IH]. intros s.
  destruct (decide (x = 0)%N) as [->|Hx]; [rewrite pretty_N_go_0; lia|].
  rewrite pretty_N_go_step by lia.
  etrans; [|apply IH; apply N.div_lt; lia]. cbn. lia.
Qed.

(** A number of at least [10 ^ k] is written with more than [k] digits. *)
Lemma length_pretty_N_go_10 (x : N) (s : string) :
  (10 <= x)%N -> (String.length s + 2 <= String.length (pretty_N_go x s))%nat.
Proof.
  intros Hx. rewrite pretty_N_go_step by lia.
  assert (0 < x `div` 10)%N by (apply N.div_str_pos; lia).
  rewrite pretty_N_go_step by assumption.
  etrans; [|apply length_pretty_N_go]. cbn. lia.
Qed.

Lemma length_pretty_N_go_100 (x : N) (s : string) :
  (100 <= x)%N -> (String.length s + 3 <= String.length (pretty_N_go x s))%nat.
Proof.
  intros Hx. rewrite pretty_N_go_step by lia.
  assert (10 <= x `div` 10)%N.
  { apply N.div_le_lower_bound; lia. }
  etrans; [|apply length_pretty_N_go_10; assumption]. cbn. lia.
Qed.

Lemma length_pretty_100 (m : Z) :
  100 <= m -> (3 <= String.length (pretty m))%nat.
Proof.
  intros Hm. destruct m as [|p|p]; try lia.
  change (pretty (Z.pos p)) with (pretty (N.pos p)).
  unfold pretty, pretty_N. destruct (decide (N.pos p = 0%N)); [discriminate|].
  pose proof (length_pretty_N_go_100 (N.pos p) "") as H. cbn [String.length] in H.
  apply H. lia.
Qed.

Lemma padStart2_long (s : string) :
  (2 <= String.length s)%nat -> padStart2 s = s.
Proof. destruct s as [|c [|d s]]; cbn; intros H; try lia. reflexivity. Qed.

(** Numbers below a hundred, by enumeration. *)
Lemma small_numbers :
  forallb (fun a =>
    Nat.eqb (String.length (padStart2 (pretty (Z.of_nat a)))) 2 &&
    forallb (fun b =>
      implb (String.eqb (padStart2 (pretty (Z.of_nat a)))
                        (padStart2 (pretty (Z.of_nat b))))
            (Nat.eqb a b)) (seq 0 100)) (seq 0 100) = true.
Proof. vm_compute. reflexivity. Qed.

Lemma padStart2_small (m : Z) :
  0 <= m < 100 -> String.length (padStart2 (pretty m)) = 2%nat.
Proof.
  intros Hm. pose proof small_numbers as H.
  rewrite forallb_forall in H. specialize (H (Z.to_nat m)).
  rewrite Z2Nat.id in H by lia.
  apply andb_true_iff in H as [H _]; [apply Nat.eqb_eq; exact H|].
  apply in_seq. lia.
Qed.

Lemma padStart2_small_inj (a b : Z) :
  0 <= a < 100 -> 0 <= b < 100 ->
  padStart2 (pretty a) = padStart2 (pretty b) -> a = b.
Proof.
  intros Ha Hb E. pose proof small_numbers as H.
  rewrite forallb_forall in H. specialize (H (Z.to_nat a)).
  rewrite Z2Nat.id in H by lia.
  apply andb_true_iff in H as [_ H]; [|apply in_seq; lia].
  rewrite forallb_forall in H. specialize (H (Z.to_nat b)).
  rewrite Z2Nat.id in H by lia.
  rewrite (proj2 (String.eqb_eq _ _) E) in H. cbn [implb] in H.
  assert (Hin : In (Z.to_nat b) (seq 0 100)) by (apply in_seq; lia).
  specialize (H Hin). apply Nat.eqb_eq in H. lia.
Qed.

(** The padded decimal of a natural number determines the number. *)
Lemma padStart2_pretty_inj (a b : Z) :
  0 <= a -> 0 <= b -> padStart2 (pretty a) = padStart2 (pretty b) -> a = b.
Proof.
  intros Ha Hb E.
  destruct (decide (a < 100)) as [Hsa|Hla]; destruct (decide (b < 100)) as [Hsb|Hlb].
  - apply padStart2_small_inj; [lia|lia|exact E].
  - exfalso. pose proof (padStart2_small a ltac:(lia)) as L.
    pose proof (length_pretty_100 b ltac:(lia)) as L'.
    rewrite E, padStart2_long in L by lia. lia.
  - exfalso. pose proof (padStart2_small b ltac:(lia)) as L.
    pose proof (length_pretty_100 a ltac:(lia)) as L'.
    rewrite <- E, padStart2_long in L by lia. lia.
  - pose proof (length_pretty_100 a ltac:(lia)).
    pose proof (length_pretty_100 b ltac:(lia)).
    rewrite !padStart2_long in E by lia.
    apply (inj pretty). exact E.
Qed.

End TimerDisplayFacts.

Module TimerDisplayProperties.
Import TimerEngine TimerDisplay TimerDisplayFacts.

(** X18.  For remaining times that are not negative, the time a card
    shows determines the remaining time: two different times never look the
    same.  Below a hundred minutes the text has the five characters of
    [mm:ss]. *)
Theorem card_time_is_unambiguous (a b : Z) :
  0 <= a -> 0 <= b ->
  (formatTime a = formatTime b -> a = b) /\
  (a < 6000 -> String.length (formatTime a) = 5%nat).
Proof.
  intros Ha Hb.
  assert (Hra : 0 <= a `rem` 60 < 60) by (apply Z.rem_bound_pos; lia).
  assert (Hrb : 0 <= b `rem` 60 < 60) by (apply Z.rem_bound_pos; lia).
  assert (Hma : 0 <= a `div` 60) by (apply Z.div_pos; lia).
  assert (Hmb : 0 <= b `div` 60) by (apply Z.div_pos; lia).
  pose proof (padStart2_small (a `rem` 60) ltac:(lia)) as La.
  pose proof (padStart2_small (b `rem` 60) ltac:(lia)) as Lb.
  split.
  - unfold formatTime. cbn zeta. intros E.
    assert (Hlen : String.length (padStart2 (pretty (a `div` 60))) =
                   String.length (padStart2 (pretty (b `div` 60)))).
    { apply (f_equal String.length) in E. rewrite !length_append in E.
      cbn [String.length] in E. lia. }
    apply append_inj_length in E as [Em Er]; [|exact Hlen].
    cbn in Er. injection Er as Er.
    apply padStart2_pretty_inj in Em; [|lia|lia].
    apply padStart2_pretty_inj in Er; [|lia|lia].
    rewrite (Z.div_mod a 60), (Z.div_mod b 60) by lia.
    rewrite <- !Z.rem_mod_nonneg by lia. rewrite Em, Er. reflexivity.
  - intros Hlt. unfold formatTime. cbn zeta. rewrite !length_append.
    cbn [String.length]. rewrite La.
    assert (a `div` 60 < 100) by (apply Z.div_lt_upper_bound; lia).
    rewrite padStart2_small by lia. reflexivity.
Qed.

Lemma card_time_is_unambiguous_witness :
  (formatTime 61 = formatTime 61 -> 61 = 61) /\
  (61 < 6000 -> String.length (formatTime 61) = 5%nat).
Proof. apply (card_time_is_unambiguous 61 61); lia. Defined.

End TimerDisplayProperties.

(** ** Deleting a timer *)

Module DeleteProperties.
Import TimerEngine TimerFacts TimerCardFacts.

Lemma completion_is_listed (ts : list Timer) (t : Timer) :
  t ∈ snd (tick ts) -> t ∈ ts.
Proof.
  unfold tick. destruct (existsb is_running ts); cbn [negb snd];
    [|intros H; apply elem_of_nil in H; contradiction].
  intros H. apply list_elem_of_In, in_concat in H as (l & Hl & Ht).
  apply in_map_iff in Hl as (t0 & <- & Ht0).
  unfold tickTimer in Ht. destruct (is_running t0); cbn [negb] in Ht;
    [|destruct Ht].
  match type of Ht with context [if ?b then _ else _] => destruct b end;
    cbn [snd] in Ht; [|destruct Ht].
  destruct Ht as [<-|[]]. apply list_elem_of_In. exact Ht0.
Qed.

Lemma ids_ticks (n : nat) (ts : list Timer) :
  map timerId (ticks n ts) = map timerId ts.
Proof.
  unfold ticks. induction n as [|n IH]; [reflexivity|].
  rewrite Nat.iter_succ, ids_tick. exact IH.
Qed.

Lemma removed_id_absent (id : string) (ts : list Timer) (t : Timer) :
  t ∈ removeTimer id ts -> timerId t <> id.
Proof. intros H. apply list_elem_of_filter in H as [H _]. exact H. Qed.

Lemma untouched_without_id (f : Timer -> Timer) (id : string) (ts : list Timer) :
  (forall t, t ∈ ts -> timerId t <> id) ->
  map (fun t => if bool_decide (timerId t = id) then f t else t) ts = ts.
Proof.
  intros H. induction ts as [|t ts IH]; [reflexivity|]. cbn [map].
  rewrite bool_decide_eq_false_2 by (apply H, list_elem_of_here).
  f_equal. apply IH. intros t' Ht'. apply H, list_elem_of_further, Ht'.
Qed.

(** X19.  Deleting a timer cancels it: after [removeTimer(id)] and any
    number of ticks no timer of the list carries the id, no completion is
    announced for it, and pausing, resuming or resetting that id changes
    nothing. *)
Theorem deleted_timer_stays_silent (id : string) (ts : list Timer) (n : nat)
    (t : Timer) (pause : bool) :
  let left := ticks n (removeTimer id ts) in
  (t ∈ left -> timerId t <> id) /\
  (t ∈ snd (tick left) -> timerId t <> id) /\
  toggleTimer id pause left = left /\
  resetTimer id left = left.
Proof.
  intros left.
  assert (H : forall t', t' ∈ left -> timerId t' <> id).
  { intros t' Ht' Hid.
    assert (Hin : timerId t' ∈ map timerId left)
      by (apply list_elem_of_fmap_2; exact Ht').
    unfold left in Hin. rewrite ids_ticks in Hin.
    apply list_elem_of_fmap in Hin as (t0 & E & Ht0).
    apply removed_id_absent in Ht0. congruence. }
  split; [apply H|]. split.
  - intros Ht. apply H, completion_is_listed, Ht.
  - split; [unfold toggleTimer|unfold resetTimer]; apply untouched_without_id, H.
Qed.

Lemma deleted_timer_stays_silent_witness :
  timerId (mkTimer "t2" "Rice" 2 0 finished) <> "t1" /\
  toggleTimer "t1" true
    (ticks 3 (removeTimer "t1" [newTimer "t1" "Egg" 3; newTimer "t2" "Rice" 2]))
  = ticks 3 (removeTimer "t1" [newTimer "t1" "Egg" 3; newTimer "t2" "Rice" 2]).
Proof.
  assert (Hin : mkTimer "t2" "Rice" 2 0 finished
                  ∈ ticks 3 (removeTimer "t1"
                               [newTimer "t1" "Egg" 3; newTimer "t2" "Rice" 2]))
    by (vm_compute; apply list_elem_of_here).
  pose proof (deleted_timer_stays_silent "t1"
                [newTimer "t1" "Egg" 3; newTimer "t2" "Rice" 2] 3
                (mkTimer "t2" "Rice" 2 0 finished) true) as (H1 & _ & H3 & _).
  split; [exact (H1 Hin)|exact H3].
Defined.

End DeleteProperties.
